(** * IterablePlayer: the playback state machine and its problem registry

    A shallow embedding of
    - [src/packages/studio-base/src/players/PlayerProblemManager.ts] and
    - the [IterablePlayer] class (the iterable playback state machine),
    together with the properties stated for them.

    Conventions of the embedding.
    - A JavaScript [number] is idealised as a rational ([Q]); a [Time] is the
      [{sec, nsec}] record of the rostime package with integer fields.
    - A private field [#x] of a class is the record field [x]; a method is a
      function in the state-and-exception monad [M] below.  A [throw] leaves
      the mutations made before it in place, as in JavaScript.
    - Calls on collaborators (the metrics collector, the debounced
      [#queueEmitState], abort controllers, the block loader, the buffered
      source) are recorded, in order, in the [effects] trace of the player.
      [console.log] and [log.debug] lines are not part of the model.
    - An [await] is modelled without commands interleaved in it; a transition
      requested from outside is visible as [nextState] being set. *)

From Stdlib Require Import ZArith QArith Qround Lia List Bool.
From stdpp Require Import base strings list pretty gmap.
Import ListNotations.

(** ** Results of fallible code *)

Inductive Result (A : Type) : Type :=
| Ret (a : A)
| Thrown (msg : string).
Arguments Ret {A} a.
Arguments Thrown {A} msg.

(** An [async] function never throws to its caller: it hands back a promise,
    which is rejected when the body throws. *)
Inductive Promise (A : Type) : Type :=
| Resolved (a : A)
| Rejected (msg : string).
Arguments Resolved {A} a.
Arguments Rejected {A} msg.

(** An object with an identity: [ref_id] is the allocation number, so that
    JavaScript's [===] on objects is equality of [ref_id]. *)
Record Ref (A : Type) : Type := mkRef { ref_id : nat; ref_val : A }.
Arguments mkRef {A} ref_id ref_val.
Arguments ref_id {A} r.
Arguments ref_val {A} r.

(** ** Time

    The player imports [Time] and its functions from the rostime package,
    which is not among the sources; they are given here as that package
    defines them. *)

Module Time.
Local Open Scope Z_scope.

(** Modelled from the spec: the [Time] type of the rostime package (absent
    from the sources), "a monotonically comparable value
    (seconds+nanoseconds)" with exact equality. *)
Record t : Type := mk { sec : Z; nsec : Z }.

Definition zero : t := mk 0 0.

(** Modelled from the spec: [compare(left, right)] of the rostime package
    (absent from the sources), the total order of the spec's [Time]: the
    difference of the seconds when they differ, of the nanoseconds
    otherwise. *)
Definition compare (left right : t) : Z :=
  let secDiff := sec left - sec right in
  if negb (secDiff =? 0) then secDiff else nsec left - nsec right.

(** Modelled from the spec: [fixTime(t)] of the rostime package (absent from
    the sources), with [allowNegative = false]: it carries whole seconds out
    of the nanoseconds and refuses a negative result. *)
Definition fixTime (x : t) : Result t :=
  let durationNanos := nsec x in
  let secsFromNanos := durationNanos / 1000000000 in
  let newSecs := sec x + secsFromNanos in
  let remainingDurationNanos := Z.rem durationNanos 1000000000 in
  let newNanos :=
    Z.abs (if remainingDurationNanos <? 0
           then 1000000000 + remainingDurationNanos
           else remainingDurationNanos) in
  if (newSecs <? 0) || (newNanos <? 0)
  then Thrown "Cannot normalize invalid time"
  else Ret (mk newSecs newNanos).

(** Modelled from the spec: [add(a, b)] of the rostime package (absent from
    the sources), the sum of two times, normalized. *)
Definition add (a b : t) : Result t :=
  fixTime (mk (sec a + sec b) (nsec a + nsec b)).

(** Modelled from the spec: [clampTime(time, start, end)] of the rostime
    package (absent from the sources), the clamp "to [start, end]" of the
    spec. *)
Definition clampTime (time start end_ : t) : t :=
  if compare start time >? 0 then mk (sec start) (nsec start)
  else if compare end_ time <? 0 then mk (sec end_) (nsec end_)
  else mk (sec time) (nsec time).

(** [Math.trunc] and [Math.round] on the idealised numbers. *)
Definition trunc (q : Q) : Z :=
  if Qle_bool 0 q then Qfloor q else Qceiling q.

Definition round (q : Q) : Z := Qfloor (q + (1 # 2)).

(** Modelled from the spec: [fromMillis(value)] of the rostime package
    (absent from the sources), the time of a number of milliseconds, rounded
    to the nanosecond. *)
Definition fromMillis (value : Q) : t :=
  let sec0 := trunc (value / 1000) in
  let nsec0 := round ((value - inject_Z sec0 * 1000) * 1000000) in
  let sec1 := sec0 + Z.quot nsec0 1000000000 in
  let nsec1 := Z.rem nsec0 1000000000 in
  mk sec1 nsec1.

(** The order read off [compare]. *)
Definition lt (a b : t) : Prop := compare a b < 0.
Definition le (a b : t) : Prop := compare a b <= 0.
Definition ltb (a b : t) : bool := compare a b <? 0.
Definition leb (a b : t) : bool := compare a b <=? 0.

(** A normalized time: what [fixTime] produces. *)
Definition valid (x : t) : Prop := 0 <= sec x /\ 0 <= nsec x < 1000000000.

(** A duration of at least one nanosecond. *)
Definition positive (x : t) : Prop := valid x /\ (0 < sec x \/ 0 < nsec x).

End Time.

Abbreviation Time := Time.t.

(** ** A JavaScript [Map] with string keys

    Entries are kept in insertion order; [set] on a present key replaces the
    value in place, on an absent key it appends. *)

Module JsMap.
Section Ops.
Context {V : Type}.

Definition t : Type := list (string * V).

Definition empty : t := [].

Fixpoint get (k : string) (m : t) : option V :=
  match m with
  | [] => None
  | (k', v) :: rest => if String.eqb k k' then Some v else get k rest
  end.

Definition has (k : string) (m : t) : bool :=
  match get k m with Some _ => true | None => false end.

Fixpoint set (k : string) (v : V) (m : t) : t :=
  match m with
  | [] => [(k, v)]
  | (k', v') :: rest =>
      if String.eqb k k' then (k, v) :: rest else (k', v') :: set k v rest
  end.

(** [delete] returns whether an entry was removed. *)
Fixpoint delete (k : string) (m : t) : bool * t :=
  match m with
  | [] => (false, [])
  | (k', v') :: rest =>
      if String.eqb k k' then (true, rest)
      else let '(b, rest') := delete k rest in (b, (k', v') :: rest')
  end.

Definition values (m : t) : list V := map snd m.

End Ops.
Arguments t V : clear implicits.
End JsMap.

(** ** Player problems and their registry (PlayerProblemManager.ts) *)

(** Modelled from the spec: a problem is "severity, message, optional
    underlying error" ([PlayerProblem] is declared in players/types, absent
    from the sources); [tip] is the field of that name the player fills in,
    and the underlying error is kept as its message. *)
Inductive Severity : Type := SevError | SevWarn | SevInfo.

Record PlayerProblem : Type := mkProblem {
  severity : Severity;
  message : string;
  tip : option string;
  error : option string;
}.

Module PlayerProblemManager.

(** [problemsById] is [#problemsById]; [cache] is [#problems], the array
    handed out by [problems()], with its identity; [nextRef] numbers the
    arrays this manager allocates. *)
Record t : Type := mk {
  problemsById : JsMap.t PlayerProblem;
  cache : option (Ref (list PlayerProblem));
  nextRef : nat;
}.

Definition new : t := mk JsMap.empty None 0.

(** [return (this.#problems ??= Array.from(this.#problemsById.values()))] *)
Definition problems (m : t) : Ref (list PlayerProblem) * t :=
  match cache m with
  | Some arr => (arr, m)
  | None =>
      let arr := mkRef (nextRef m) (JsMap.values (problemsById m)) in
      (arr, mk (problemsById m) (Some arr) (S (nextRef m)))
  end.

Definition addProblem (id : string) (problem : PlayerProblem) (m : t) : t :=
  mk (JsMap.set id problem (problemsById m)) None (nextRef m).

Definition hasProblem (id : string) (m : t) : bool :=
  JsMap.has id (problemsById m).

Definition removeProblem (id : string) (m : t) : bool * t :=
  let '(changed, byId) := JsMap.delete id (problemsById m) in
  (changed, mk byId (if changed then None else cache m) (nextRef m)).

(** The [for (const [id, problem] of this.#problemsById)] loop of
    [removeProblems]: [todo] are the entries still to visit, [byId] the map
    as deleted from so far. *)
Fixpoint removeProblemsLoop (predicate : string -> PlayerProblem -> bool)
    (todo : list (string * PlayerProblem)) (byId : JsMap.t PlayerProblem)
    (changed : bool) : bool * JsMap.t PlayerProblem :=
  match todo with
  | [] => (changed, byId)
  | (id, problem) :: rest =>
      if predicate id problem then
        let '(deleted, byId') := JsMap.delete id byId in
        removeProblemsLoop predicate rest byId' (if deleted then true else changed)
      else removeProblemsLoop predicate rest byId changed
  end.

Definition removeProblems (predicate : string -> PlayerProblem -> bool) (m : t)
    : bool * t :=
  let '(changed, byId) :=
    removeProblemsLoop predicate (problemsById m) (problemsById m) false in
  (changed, mk byId (if changed then None else cache m) (nextRef m)).

Definition clear (m : t) : t := mk JsMap.empty None (nextRef m).

(** A call on the manager, for talking about sequences of calls. *)
Inductive Call : Type :=
| CallProblems
| CallAddProblem (id : string) (problem : PlayerProblem)
| CallHasProblem (id : string)
| CallRemoveProblem (id : string)
| CallRemoveProblems (predicate : string -> PlayerProblem -> bool)
| CallClear.

Definition call (c : Call) (m : t) : t :=
  match c with
  | CallProblems => snd (problems m)
  | CallAddProblem id problem => addProblem id problem m
  | CallHasProblem _ => m
  | CallRemoveProblem id => snd (removeProblem id m)
  | CallRemoveProblems predicate => snd (removeProblems predicate m)
  | CallClear => clear m
  end.

Definition calls (cs : list Call) (m : t) : t := foldl (fun m c => call c m) m cs.

(** Whether call [c], made on [m], is one of the calls the registry counts
    as a change: [addProblem], [clear], or a removal that removed something. *)
Definition mutates (c : Call) (m : t) : bool :=
  match c with
  | CallProblems | CallHasProblem _ => false
  | CallAddProblem _ _ | CallClear => true
  | CallRemoveProblem id => fst (removeProblem id m)
  | CallRemoveProblems predicate => fst (removeProblems predicate m)
  end.

Fixpoint noMutation (cs : list Call) (m : t) : bool :=
  match cs with
  | [] => true
  | c :: rest => negb (mutates c m) && noMutation rest (call c m)
  end.

End PlayerProblemManager.

(** ** Data of the player *)

Inductive IterablePlayerState : Type :=
| Preinit
| Initialize
| StartPlay
| Idle
| SeekBackfill
| Play
| Close
| ResetPlaybackIterator.

Global Instance IterablePlayerState_eq_dec : EqDecision IterablePlayerState.
Proof. solve_decision. Defined.

(** Modelled from the spec: the [PlayerPresence] enumeration of
    players/types (absent from the sources), as far as the player sets it. *)
Inductive PlayerPresence : Type :=
| INITIALIZING
| BUFFERING
| PRESENT
| ERROR.

(** Modelled from the spec: [preloadType: "full"|"partial"] of a
    subscription descriptor (declared in players/types, absent from the
    sources). *)
Inductive PreloadType : Type := Full | Partial.

Global Instance PreloadType_eq_dec : EqDecision PreloadType.
Proof. solve_decision. Defined.

(** Modelled from the spec: the subscription descriptor
    [{ topic, preloadType }] (declared in players/types, absent from the
    sources). *)
Module SubscribePayload.
Record t : Type := mk { topic : string; preloadType : option PreloadType }.

Global Instance eq_dec : EqDecision t.
Proof. solve_decision. Defined.
End SubscribePayload.

(** Modelled from the spec: a topic, "a named, schema-typed channel"
    (declared in players/types, absent from the sources). *)
Module Topic.
Record t : Type := mk { name : string; schemaName : option string }.
End Topic.

(** Modelled from the spec: [MessageEvent], [{ topic, schemaName,
    receiveTime, message, sizeInBytes }] (declared in the studio package,
    absent from the sources); the schema name is left out and the message is
    an opaque text. *)
Module MessageEvent.
Record t : Type := mk {
  topic : string;
  receiveTime : Time;
  message : string;
  sizeInBytes : nat;
}.
End MessageEvent.

(** Modelled from the spec: [IteratorResult], the tagged variant
    message-event, problem or stamp (declared in IIterableSource, absent from
    the sources). *)
Inductive IteratorResult : Type :=
| IterMessageEvent (msgEvent : MessageEvent.t)
| IterProblem (connectionId : nat) (problem : PlayerProblem)
| IterStamp (stamp : Time).

(** [TopicSelection]: a [Map] from topic name to subscription.  The player
    compares selections with lodash's [isEqual], which ignores insertion
    order, and passes them on whole; so a finite map with extensional
    equality, kept with its object identity where the code stores it. *)
Abbreviation TopicSelection := (gmap string SubscribePayload.t).

(** Modelled from the spec: lodash's [_.isEqual] (absent from the sources) on
    two topic selections, the deep equality of "identical (deep-equal) topic
    sets". *)
Definition isEqual (a b : TopicSelection) : bool := bool_decide (a = b).

(** The calls the player makes on its collaborators: the metrics collector,
    the debounced emit, abort controllers, the block loader, the playback
    iterator and the buffered source.  None of them is among the sources;
    a call is recorded with its arguments and not interpreted. *)
Inductive Effect : Type :=
| MetricsPlayerConstructed
| MetricsPlay (speed : Q)
| MetricsPause
| MetricsSeek (time : Time)
| MetricsSetSpeed (speed : Q)
| MetricsSetSubscriptions (subscriptions : list SubscribePayload.t)
| MetricsClose
| QueueEmitState                              (* this.#queueEmitState() *)
| AbortSignalled                              (* this.#abort.abort() *)
| BlockLoaderSetTopics (topics : TopicSelection)
| BlockLoaderStartLoading
| BlockLoaderStopLoading
| IteratorReturn                              (* this.#playbackIterator.return() *)
| SourceInitialize
| SourceMessageIterator (topics : TopicSelection) (start : Time)
| SourceGetBackfillMessages (topics : TopicSelection) (time : Time)
| SourceStopProducer
| SourceTerminate
| ResolveIsClosed
| RunHandler (state : IterablePlayerState).   (* the run loop calls the handler of [state] *)

(** The player.  Fields of the class that the functions below neither test
    nor compute with are left out: [#urlParams], [#lastSeekEmitTime],
    [#providerTopicStats], [#providerDatatypes], [#capabilities],
    [#progress], [#id], [#receivedBytes], [#publishedTopics], [#sourceId]
    and the handles on the sources. *)
Record Player : Type := mkPlayer {
  name : option string;  (* #name *)
  nextState : option IterablePlayerState;
  state : IterablePlayerState;
  runningState : bool;
  isPlaying : bool;
  listener : bool;  (* whether #listener is set *)
  speed : Q;
  start : option Time;
  end_ : option Time;  (* #end *)
  enablePreload : bool;
  lastTickMillis : option Q;
  providerTopics : list Topic.t;
  profile : option string;
  subscriptions : list SubscribePayload.t;
  allTopics : Ref TopicSelection;
  preloadTopics : Ref TopicSelection;
  messages : list MessageEvent.t;
  hasError : bool;
  lastRangeMillis : option Q;
  lastMessageEvent : option MessageEvent.t;
  lastStamp : option Time;
  seekTarget : option Time;
  presence : PlayerPresence;
  currentTime : option Time;
  problemManager : PlayerProblemManager.t;
  abort : bool;  (* whether an AbortController is registered in #abort *)
  playbackIterator : option (list IteratorResult);  (* the results the iterator has left to yield *)
  blockLoader : bool;  (* whether #blockLoader is set *)
  untilTime : option Time;
  heapNext : nat;  (* the identity the next allocated object gets *)
  effects : list Effect;  (* the calls made on collaborators, oldest first *)
}.

(** Field updates, one per field assigned by the code. *)
Definition set_name (v : option string) (p : Player) : Player :=
  mkPlayer v (nextState p) (state p) (runningState p) (isPlaying p) (listener p)
    (speed p) (start p) (end_ p) (enablePreload p) (lastTickMillis p) (providerTopics p)
    (profile p) (subscriptions p) (allTopics p) (preloadTopics p) (messages p)
    (hasError p) (lastRangeMillis p) (lastMessageEvent p) (lastStamp p) (seekTarget p)
    (presence p) (currentTime p) (problemManager p) (abort p) (playbackIterator p)
    (blockLoader p) (untilTime p) (heapNext p) (effects p).

Definition set_nextState (v : option IterablePlayerState) (p : Player) : Player :=
  mkPlayer (name p) v (state p) (runningState p) (isPlaying p) (listener p) (speed p)
    (start p) (end_ p) (enablePreload p) (lastTickMillis p) (providerTopics p)
    (profile p) (subscriptions p) (allTopics p) (preloadTopics p) (messages p)
    (hasError p) (lastRangeMillis p) (lastMessageEvent p) (lastStamp p) (seekTarget p)
    (presence p) (currentTime p) (problemManager p) (abort p) (playbackIterator p)
    (blockLoader p) (untilTime p) (heapNext p) (effects p).

Definition set_state (v : IterablePlayerState) (p : Player) : Player :=
  mkPlayer (name p) (nextState p) v (runningState p) (isPlaying p) (listener p)
    (speed p) (start p) (end_ p) (enablePreload p) (lastTickMillis p) (providerTopics p)
    (profile p) (subscriptions p) (allTopics p) (preloadTopics p) (messages p)
    (hasError p) (lastRangeMillis p) (lastMessageEvent p) (lastStamp p) (seekTarget p)
    (presence p) (currentTime p) (problemManager p) (abort p) (playbackIterator p)
    (blockLoader p) (untilTime p) (heapNext p) (effects p).

Definition set_runningState (v : bool) (p : Player) : Player :=
  mkPlayer (name p) (nextState p) (state p) v (isPlaying p) (listener p) (speed p)
    (start p) (end_ p) (enablePreload p) (lastTickMillis p) (providerTopics p)
    (profile p) (subscriptions p) (allTopics p) (preloadTopics p) (messages p)
    (hasError p) (lastRangeMillis p) (lastMessageEvent p) (lastStamp p) (seekTarget p)
    (presence p) (currentTime p) (problemManager p) (abort p) (playbackIterator p)
    (blockLoader p) (untilTime p) (heapNext p) (effects p).

Definition set_isPlaying (v : bool) (p : Player) : Player :=
  mkPlayer (name p) (nextState p) (state p) (runningState p) v (listener p) (speed p)
    (start p) (end_ p) (enablePreload p) (lastTickMillis p) (providerTopics p)
    (profile p) (subscriptions p) (allTopics p) (preloadTopics p) (messages p)
    (hasError p) (lastRangeMillis p) (lastMessageEvent p) (lastStamp p) (seekTarget p)
    (presence p) (currentTime p) (problemManager p) (abort p) (playbackIterator p)
    (blockLoader p) (untilTime p) (heapNext p) (effects p).

Definition set_listener (v : bool) (p : Player) : Player :=
  mkPlayer (name p) (nextState p) (state p) (runningState p) (isPlaying p) v (speed p)
    (start p) (end_ p) (enablePreload p) (lastTickMillis p) (providerTopics p)
    (profile p) (subscriptions p) (allTopics p) (preloadTopics p) (messages p)
    (hasError p) (lastRangeMillis p) (lastMessageEvent p) (lastStamp p) (seekTarget p)
    (presence p) (currentTime p) (problemManager p) (abort p) (playbackIterator p)
    (blockLoader p) (untilTime p) (heapNext p) (effects p).

Definition set_speed (v : Q) (p : Player) : Player :=
  mkPlayer (name p) (nextState p) (state p) (runningState p) (isPlaying p) (listener p)
    v (start p) (end_ p) (enablePreload p) (lastTickMillis p) (providerTopics p)
    (profile p) (subscriptions p) (allTopics p) (preloadTopics p) (messages p)
    (hasError p) (lastRangeMillis p) (lastMessageEvent p) (lastStamp p) (seekTarget p)
    (presence p) (currentTime p) (problemManager p) (abort p) (playbackIterator p)
    (blockLoader p) (untilTime p) (heapNext p) (effects p).

Definition set_start (v : option Time) (p : Player) : Player :=
  mkPlayer (name p) (nextState p) (state p) (runningState p) (isPlaying p) (listener p)
    (speed p) v (end_ p) (enablePreload p) (lastTickMillis p) (providerTopics p)
    (profile p) (subscriptions p) (allTopics p) (preloadTopics p) (messages p)
    (hasError p) (lastRangeMillis p) (lastMessageEvent p) (lastStamp p) (seekTarget p)
    (presence p) (currentTime p) (problemManager p) (abort p) (playbackIterator p)
    (blockLoader p) (untilTime p) (heapNext p) (effects p).

Definition set_end_ (v : option Time) (p : Player) : Player :=
  mkPlayer (name p) (nextState p) (state p) (runningState p) (isPlaying p) (listener p)
    (speed p) (start p) v (enablePreload p) (lastTickMillis p) (providerTopics p)
    (profile p) (subscriptions p) (allTopics p) (preloadTopics p) (messages p)
    (hasError p) (lastRangeMillis p) (lastMessageEvent p) (lastStamp p) (seekTarget p)
    (presence p) (currentTime p) (problemManager p) (abort p) (playbackIterator p)
    (blockLoader p) (untilTime p) (heapNext p) (effects p).

Definition set_enablePreload (v : bool) (p : Player) : Player :=
  mkPlayer (name p) (nextState p) (state p) (runningState p) (isPlaying p) (listener p)
    (speed p) (start p) (end_ p) v (lastTickMillis p) (providerTopics p) (profile p)
    (subscriptions p) (allTopics p) (preloadTopics p) (messages p) (hasError p)
    (lastRangeMillis p) (lastMessageEvent p) (lastStamp p) (seekTarget p) (presence p)
    (currentTime p) (problemManager p) (abort p) (playbackIterator p) (blockLoader p)
    (untilTime p) (heapNext p) (effects p).

Definition set_lastTickMillis (v : option Q) (p : Player) : Player :=
  mkPlayer (name p) (nextState p) (state p) (runningState p) (isPlaying p) (listener p)
    (speed p) (start p) (end_ p) (enablePreload p) v (providerTopics p) (profile p)
    (subscriptions p) (allTopics p) (preloadTopics p) (messages p) (hasError p)
    (lastRangeMillis p) (lastMessageEvent p) (lastStamp p) (seekTarget p) (presence p)
    (currentTime p) (problemManager p) (abort p) (playbackIterator p) (blockLoader p)
    (untilTime p) (heapNext p) (effects p).

Definition set_providerTopics (v : list Topic.t) (p : Player) : Player :=
  mkPlayer (name p) (nextState p) (state p) (runningState p) (isPlaying p) (listener p)
    (speed p) (start p) (end_ p) (enablePreload p) (lastTickMillis p) v (profile p)
    (subscriptions p) (allTopics p) (preloadTopics p) (messages p) (hasError p)
    (lastRangeMillis p) (lastMessageEvent p) (lastStamp p) (seekTarget p) (presence p)
    (currentTime p) (problemManager p) (abort p) (playbackIterator p) (blockLoader p)
    (untilTime p) (heapNext p) (effects p).

Definition set_profile (v : option string) (p : Player) : Player :=
  mkPlayer (name p) (nextState p) (state p) (runningState p) (isPlaying p) (listener p)
    (speed p) (start p) (end_ p) (enablePreload p) (lastTickMillis p) (providerTopics p)
    v (subscriptions p) (allTopics p) (preloadTopics p) (messages p) (hasError p)
    (lastRangeMillis p) (lastMessageEvent p) (lastStamp p) (seekTarget p) (presence p)
    (currentTime p) (problemManager p) (abort p) (playbackIterator p) (blockLoader p)
    (untilTime p) (heapNext p) (effects p).

Definition set_subscriptions (v : list SubscribePayload.t) (p : Player) : Player :=
  mkPlayer (name p) (nextState p) (state p) (runningState p) (isPlaying p) (listener p)
    (speed p) (start p) (end_ p) (enablePreload p) (lastTickMillis p) (providerTopics p)
    (profile p) v (allTopics p) (preloadTopics p) (messages p) (hasError p)
    (lastRangeMillis p) (lastMessageEvent p) (lastStamp p) (seekTarget p) (presence p)
    (currentTime p) (problemManager p) (abort p) (playbackIterator p) (blockLoader p)
    (untilTime p) (heapNext p) (effects p).

Definition set_allTopics (v : Ref TopicSelection) (p : Player) : Player :=
  mkPlayer (name p) (nextState p) (state p) (runningState p) (isPlaying p) (listener p)
    (speed p) (start p) (end_ p) (enablePreload p) (lastTickMillis p) (providerTopics p)
    (profile p) (subscriptions p) v (preloadTopics p) (messages p) (hasError p)
    (lastRangeMillis p) (lastMessageEvent p) (lastStamp p) (seekTarget p) (presence p)
    (currentTime p) (problemManager p) (abort p) (playbackIterator p) (blockLoader p)
    (untilTime p) (heapNext p) (effects p).

Definition set_preloadTopics (v : Ref TopicSelection) (p : Player) : Player :=
  mkPlayer (name p) (nextState p) (state p) (runningState p) (isPlaying p) (listener p)
    (speed p) (start p) (end_ p) (enablePreload p) (lastTickMillis p) (providerTopics p)
    (profile p) (subscriptions p) (allTopics p) v (messages p) (hasError p)
    (lastRangeMillis p) (lastMessageEvent p) (lastStamp p) (seekTarget p) (presence p)
    (currentTime p) (problemManager p) (abort p) (playbackIterator p) (blockLoader p)
    (untilTime p) (heapNext p) (effects p).

Definition set_messages (v : list MessageEvent.t) (p : Player) : Player :=
  mkPlayer (name p) (nextState p) (state p) (runningState p) (isPlaying p) (listener p)
    (speed p) (start p) (end_ p) (enablePreload p) (lastTickMillis p) (providerTopics p)
    (profile p) (subscriptions p) (allTopics p) (preloadTopics p) v (hasError p)
    (lastRangeMillis p) (lastMessageEvent p) (lastStamp p) (seekTarget p) (presence p)
    (currentTime p) (problemManager p) (abort p) (playbackIterator p) (blockLoader p)
    (untilTime p) (heapNext p) (effects p).

Definition set_hasError (v : bool) (p : Player) : Player :=
  mkPlayer (name p) (nextState p) (state p) (runningState p) (isPlaying p) (listener p)
    (speed p) (start p) (end_ p) (enablePreload p) (lastTickMillis p) (providerTopics p)
    (profile p) (subscriptions p) (allTopics p) (preloadTopics p) (messages p) v
    (lastRangeMillis p) (lastMessageEvent p) (lastStamp p) (seekTarget p) (presence p)
    (currentTime p) (problemManager p) (abort p) (playbackIterator p) (blockLoader p)
    (untilTime p) (heapNext p) (effects p).

Definition set_lastRangeMillis (v : option Q) (p : Player) : Player :=
  mkPlayer (name p) (nextState p) (state p) (runningState p) (isPlaying p) (listener p)
    (speed p) (start p) (end_ p) (enablePreload p) (lastTickMillis p) (providerTopics p)
    (profile p) (subscriptions p) (allTopics p) (preloadTopics p) (messages p)
    (hasError p) v (lastMessageEvent p) (lastStamp p) (seekTarget p) (presence p)
    (currentTime p) (problemManager p) (abort p) (playbackIterator p) (blockLoader p)
    (untilTime p) (heapNext p) (effects p).

Definition set_lastMessageEvent (v : option MessageEvent.t) (p : Player) : Player :=
  mkPlayer (name p) (nextState p) (state p) (runningState p) (isPlaying p) (listener p)
    (speed p) (start p) (end_ p) (enablePreload p) (lastTickMillis p) (providerTopics p)
    (profile p) (subscriptions p) (allTopics p) (preloadTopics p) (messages p)
    (hasError p) (lastRangeMillis p) v (lastStamp p) (seekTarget p) (presence p)
    (currentTime p) (problemManager p) (abort p) (playbackIterator p) (blockLoader p)
    (untilTime p) (heapNext p) (effects p).

Definition set_lastStamp (v : option Time) (p : Player) : Player :=
  mkPlayer (name p) (nextState p) (state p) (runningState p) (isPlaying p) (listener p)
    (speed p) (start p) (end_ p) (enablePreload p) (lastTickMillis p) (providerTopics p)
    (profile p) (subscriptions p) (allTopics p) (preloadTopics p) (messages p)
    (hasError p) (lastRangeMillis p) (lastMessageEvent p) v (seekTarget p) (presence p)
    (currentTime p) (problemManager p) (abort p) (playbackIterator p) (blockLoader p)
    (untilTime p) (heapNext p) (effects p).

Definition set_seekTarget (v : option Time) (p : Player) : Player :=
  mkPlayer (name p) (nextState p) (state p) (runningState p) (isPlaying p) (listener p)
    (speed p) (start p) (end_ p) (enablePreload p) (lastTickMillis p) (providerTopics p)
    (profile p) (subscriptions p) (allTopics p) (preloadTopics p) (messages p)
    (hasError p) (lastRangeMillis p) (lastMessageEvent p) (lastStamp p) v (presence p)
    (currentTime p) (problemManager p) (abort p) (playbackIterator p) (blockLoader p)
    (untilTime p) (heapNext p) (effects p).

Definition set_presence (v : PlayerPresence) (p : Player) : Player :=
  mkPlayer (name p) (nextState p) (state p) (runningState p) (isPlaying p) (listener p)
    (speed p) (start p) (end_ p) (enablePreload p) (lastTickMillis p) (providerTopics p)
    (profile p) (subscriptions p) (allTopics p) (preloadTopics p) (messages p)
    (hasError p) (lastRangeMillis p) (lastMessageEvent p) (lastStamp p) (seekTarget p) v
    (currentTime p) (problemManager p) (abort p) (playbackIterator p) (blockLoader p)
    (untilTime p) (heapNext p) (effects p).

Definition set_currentTime (v : option Time) (p : Player) : Player :=
  mkPlayer (name p) (nextState p) (state p) (runningState p) (isPlaying p) (listener p)
    (speed p) (start p) (end_ p) (enablePreload p) (lastTickMillis p) (providerTopics p)
    (profile p) (subscriptions p) (allTopics p) (preloadTopics p) (messages p)
    (hasError p) (lastRangeMillis p) (lastMessageEvent p) (lastStamp p) (seekTarget p)
    (presence p) v (problemManager p) (abort p) (playbackIterator p) (blockLoader p)
    (untilTime p) (heapNext p) (effects p).

Definition set_problemManager (v : PlayerProblemManager.t) (p : Player) : Player :=
  mkPlayer (name p) (nextState p) (state p) (runningState p) (isPlaying p) (listener p)
    (speed p) (start p) (end_ p) (enablePreload p) (lastTickMillis p) (providerTopics p)
    (profile p) (subscriptions p) (allTopics p) (preloadTopics p) (messages p)
    (hasError p) (lastRangeMillis p) (lastMessageEvent p) (lastStamp p) (seekTarget p)
    (presence p) (currentTime p) v (abort p) (playbackIterator p) (blockLoader p)
    (untilTime p) (heapNext p) (effects p).

Definition set_abort (v : bool) (p : Player) : Player :=
  mkPlayer (name p) (nextState p) (state p) (runningState p) (isPlaying p) (listener p)
    (speed p) (start p) (end_ p) (enablePreload p) (lastTickMillis p) (providerTopics p)
    (profile p) (subscriptions p) (allTopics p) (preloadTopics p) (messages p)
    (hasError p) (lastRangeMillis p) (lastMessageEvent p) (lastStamp p) (seekTarget p)
    (presence p) (currentTime p) (problemManager p) v (playbackIterator p)
    (blockLoader p) (untilTime p) (heapNext p) (effects p).

Definition set_playbackIterator (v : option (list IteratorResult)) (p : Player) : Player :=
  mkPlayer (name p) (nextState p) (state p) (runningState p) (isPlaying p) (listener p)
    (speed p) (start p) (end_ p) (enablePreload p) (lastTickMillis p) (providerTopics p)
    (profile p) (subscriptions p) (allTopics p) (preloadTopics p) (messages p)
    (hasError p) (lastRangeMillis p) (lastMessageEvent p) (lastStamp p) (seekTarget p)
    (presence p) (currentTime p) (problemManager p) (abort p) v (blockLoader p)
    (untilTime p) (heapNext p) (effects p).

Definition set_blockLoader (v : bool) (p : Player) : Player :=
  mkPlayer (name p) (nextState p) (state p) (runningState p) (isPlaying p) (listener p)
    (speed p) (start p) (end_ p) (enablePreload p) (lastTickMillis p) (providerTopics p)
    (profile p) (subscriptions p) (allTopics p) (preloadTopics p) (messages p)
    (hasError p) (lastRangeMillis p) (lastMessageEvent p) (lastStamp p) (seekTarget p)
    (presence p) (currentTime p) (problemManager p) (abort p) (playbackIterator p) v
    (untilTime p) (heapNext p) (effects p).

Definition set_untilTime (v : option Time) (p : Player) : Player :=
  mkPlayer (name p) (nextState p) (state p) (runningState p) (isPlaying p) (listener p)
    (speed p) (start p) (end_ p) (enablePreload p) (lastTickMillis p) (providerTopics p)
    (profile p) (subscriptions p) (allTopics p) (preloadTopics p) (messages p)
    (hasError p) (lastRangeMillis p) (lastMessageEvent p) (lastStamp p) (seekTarget p)
    (presence p) (currentTime p) (problemManager p) (abort p) (playbackIterator p)
    (blockLoader p) v (heapNext p) (effects p).

Definition set_heapNext (v : nat) (p : Player) : Player :=
  mkPlayer (name p) (nextState p) (state p) (runningState p) (isPlaying p) (listener p)
    (speed p) (start p) (end_ p) (enablePreload p) (lastTickMillis p) (providerTopics p)
    (profile p) (subscriptions p) (allTopics p) (preloadTopics p) (messages p)
    (hasError p) (lastRangeMillis p) (lastMessageEvent p) (lastStamp p) (seekTarget p)
    (presence p) (currentTime p) (problemManager p) (abort p) (playbackIterator p)
    (blockLoader p) (untilTime p) v (effects p).

Definition set_effects (v : list Effect) (p : Player) : Player :=
  mkPlayer (name p) (nextState p) (state p) (runningState p) (isPlaying p) (listener p)
    (speed p) (start p) (end_ p) (enablePreload p) (lastTickMillis p) (providerTopics p)
    (profile p) (subscriptions p) (allTopics p) (preloadTopics p) (messages p)
    (hasError p) (lastRangeMillis p) (lastMessageEvent p) (lastStamp p) (seekTarget p)
    (presence p) (currentTime p) (problemManager p) (abort p) (playbackIterator p)
    (blockLoader p) (untilTime p) (heapNext p) v.

Definition addEffect (e : Effect) (p : Player) : Player :=
  set_effects (effects p ++ [e]) p.

(** [new IterablePlayer(options)] *)
Definition newPlayer (optName : option string) (optEnablePreload : option bool) : Player :=
  {| name := optName;
     nextState := None;
     state := Preinit;
     runningState := false;
     isPlaying := false;
     listener := false;
     speed := 1;
     start := None;
     end_ := None;
     enablePreload := default true optEnablePreload;
     lastTickMillis := None;
     providerTopics := [];
     profile := None;
     subscriptions := [];
     allTopics := mkRef 0 ∅;
     preloadTopics := mkRef 1 ∅;
     messages := [];
     hasError := false;
     lastRangeMillis := None;
     lastMessageEvent := None;
     lastStamp := None;
     seekTarget := None;
     presence := INITIALIZING;
     currentTime := None;
     problemManager := PlayerProblemManager.new;
     abort := false;
     playbackIterator := None;
     blockLoader := false;
     untilTime := None;
     heapNext := 2;
     effects := [MetricsPlayerConstructed] |}.

(** ** The monad of the methods: state, and exceptions that keep the state *)

Definition M (A : Type) : Type := Player -> Result A * Player.

Definition ret {A : Type} (a : A) : M A := fun p => (Ret a, p).

Definition throw {A : Type} (msg : string) : M A := fun p => (Thrown msg, p).

Definition bind {A B : Type} (m : M A) (f : A -> M B) : M B :=
  fun p =>
    match m p with
    | (Ret a, p') => f a p'
    | (Thrown msg, p') => (Thrown msg, p')
    end.

Definition gets {A : Type} (f : Player -> A) : M A := fun p => (Ret (f p), p).

Definition modify (f : Player -> Player) : M unit := fun p => (Ret tt, f p).

Definition call (e : Effect) : M unit := modify (addEffect e).

(** [try { body } catch (err) { handler(err.message) }] *)
Definition tryCatch {A : Type} (body : M A) (handler : string -> M A) : M A :=
  fun p =>
    match body p with
    | (Ret a, p') => (Ret a, p')
    | (Thrown msg, p') => handler msg p'
    end.

(** [try { body } finally { cleanup }] *)
Definition tryFinally {A : Type} (body : M A) (cleanup : Player -> Player) : M A :=
  fun p => let '(r, p') := body p in (r, cleanup p').

Declare Scope player_scope.
Delimit Scope player_scope with player.
Notation "x <- c1 ;; c2" := (bind c1 (fun x => c2))
  (at level 100, c1 at next level, c2 at level 200, right associativity) : player_scope.
Notation "c1 ;; c2" := (bind c1 (fun _ => c2))
  (at level 100, c2 at level 200, right associativity) : player_scope.
Local Open Scope player_scope.

Definition when (b : bool) (m : M unit) : M unit := if b then m else ret tt.

Definition isSome {A : Type} (o : option A) : bool :=
  match o with Some _ => true | None => false end.

(** ** Requesting and running states *)

(** The head of the loop in [#runState]:
    [while (this.#nextState) { const state = (this.#state = this.#nextState);
    this.#nextState = undefined; ... switch (state) ... }], up to the call of
    the state's handler, which is recorded as [RunHandler state]; and, when
    nothing is requested, the [finally] that ends the loop.  The bodies of the
    handlers are separate functions below. *)
Definition runLoopHead (p : Player) : Player :=
  match nextState p with
  | Some st =>
      let p := set_nextState None (set_state st p) in
      let p :=
        if negb (bool_decide (st = Idle)) && negb (bool_decide (st = Play))
           && isSome (playbackIterator p)
        then set_playbackIterator None (addEffect IteratorReturn p)
        else p in
      addEffect (RunHandler st) p
  | None => set_runningState false p
  end.

(** [#runState()], as far as it runs inside the call: nothing when the loop
    is already running, else the loop is entered. *)
Definition runState (p : Player) : Player :=
  if runningState p then p else runLoopHead (set_runningState true p).

(** [#setState(newState)] *)
Definition setState (newState : IterablePlayerState) (p : Player) : Player :=
  if bool_decide (nextState p = Some Close) then p
  else
    let p := set_nextState (Some newState) p in
    let p := if abort p then addEffect AbortSignalled p else p in
    let p := set_abort false p in
    runState p.

(** The handler of the running state returns: the loop tests [#nextState]
    again. *)
Definition handlerReturns (p : Player) : Player :=
  if runningState p then runLoopHead p else p.

(** [#setError(message, error)] *)
Definition setError (msg : string) (p : Player) : Player :=
  let p := set_hasError true p in
  let p := set_problemManager
             (PlayerProblemManager.addProblem "global-error"
                (mkProblem SevError msg None (Some msg)) (problemManager p)) p in
  set_isPlaying false p.

(** The handler of the running state throws: the [catch] and [finally] of
    [#runState]. *)
Definition handlerThrows (msg : string) (p : Player) : Player :=
  if runningState p
  then set_runningState false (addEffect QueueEmitState (setError msg p))
  else p.

(** ** The commands of the [Player] interface *)

Definition setListener : M unit :=
  l <- gets listener ;;
  if l then throw "Cannot setListener again"
  else modify (set_listener true) ;; modify (setState Initialize).

(** [#startPlayImpl(opt)]; [opt] is [opt?.untilTime]. *)
Definition startPlayImpl (opt : option Time) : M unit :=
  p <- gets id ;;
  match isPlaying p, untilTime p, start p, end_ p with
  | false, None, Some start_, Some end__ =>
      (match opt with
       | Some until =>
           (match currentTime p with
            | Some cur =>
                if (Time.compare until cur <=? 0)%Z
                then throw "Invariant: playUntil time must be after the current time"
                else ret tt
            | None => ret tt
            end) ;;
           modify (set_untilTime (Some (Time.clampTime until start_ end__)))
       | None => ret tt
       end) ;;
      call (MetricsPlay (speed p)) ;;
      modify (set_isPlaying true) ;;
      q <- gets id ;;
      if bool_decide (state q = Idle)
         && (negb (isSome (nextState q)) || bool_decide (nextState q = Some Idle))
      then modify (setState Play)
      else call QueueEmitState
  | _, _, _, _ => ret tt
  end.

Definition startPlayback : M unit := startPlayImpl None.

Definition playUntil (time : Time) : M unit := startPlayImpl (Some time).

Definition pausePlayback : M unit :=
  playing <- gets isPlaying ;;
  if negb playing then ret tt
  else
    call MetricsPause ;;
    modify (set_lastTickMillis None) ;;
    modify (set_isPlaying false) ;;
    modify (set_untilTime None) ;;
    modify (set_lastRangeMillis None) ;;
    st <- gets state ;;
    if bool_decide (st = Play) then modify (setState Idle) else call QueueEmitState.

Definition setPlaybackSpeed (speed_ : Q) : M unit :=
  modify (set_lastRangeMillis None) ;;
  modify (set_speed speed_) ;;
  call (MetricsSetSpeed speed_) ;;
  call QueueEmitState.

Definition seekPlayback (time : Time) : M unit :=
  p <- gets id ;;
  if bool_decide (state p = Preinit) || bool_decide (state p = Initialize)
  then modify (set_seekTarget (Some time))
  else
    match start p, end_ p with
    | Some start_, Some end__ =>
        let targetTime := Time.clampTime time start_ end__ in
        if match seekTarget p with
           | Some target => (Time.compare target targetTime =? 0)%Z
           | None => false
           end
        then ret tt
        else if match currentTime p with
                | Some cur => (Time.compare cur targetTime =? 0)%Z
                | None => false
                end
        then ret tt
        else
          call (MetricsSeek targetTime) ;;
          modify (set_seekTarget (Some targetTime)) ;;
          modify (set_untilTime None) ;;
          modify (set_lastTickMillis None) ;;
          modify (set_lastRangeMillis None) ;;
          modify (setState SeekBackfill)
    | _, _ => throw "invariant: initialized but no start/end set"
    end.

(** [new Map(subscriptions.map((subscription) => [subscription.topic, subscription]))]:
    a later subscription to a topic replaces an earlier one. *)
Definition allTopicsOf (subs : list SubscribePayload.t) : TopicSelection :=
  foldl (fun m sub => <[SubscribePayload.topic sub := sub]> m) ∅ subs.

(** [new Map(filterMap(subscriptions, (sub) => sub.preloadType === "full" ? [sub.topic, sub] : undefined))] *)
Definition preloadTopicsOf (subs : list SubscribePayload.t) : TopicSelection :=
  allTopicsOf
    (filter (fun sub => SubscribePayload.preloadType sub = Some Full) subs).

Definition setSubscriptions (newSubscriptions : list SubscribePayload.t) : M unit :=
  modify (set_subscriptions newSubscriptions) ;;
  call (MetricsSetSubscriptions newSubscriptions) ;;
  p <- gets id ;;
  (* the two maps are allocated before they are compared *)
  let allTopics_ := mkRef (heapNext p) (allTopicsOf newSubscriptions) in
  let preloadTopics_ := mkRef (S (heapNext p)) (preloadTopicsOf newSubscriptions) in
  modify (set_heapNext (S (S (heapNext p)))) ;;
  if isEqual (ref_val allTopics_) (ref_val (allTopics p))
     && isEqual (ref_val preloadTopics_) (ref_val (preloadTopics p))
  then ret tt
  else
    modify (set_allTopics allTopics_) ;;
    modify (set_preloadTopics preloadTopics_) ;;
    when (blockLoader p) (call (BlockLoaderSetTopics (ref_val preloadTopics_))) ;;
    if bool_decide (state p = Idle) || bool_decide (state p = SeekBackfill)
       || bool_decide (state p = Play) || bool_decide (state p = StartPlay)
    then
      if negb (isPlaying p) && isSome (currentTime p)
      then
        modify (fun q => set_seekTarget
                           (match seekTarget q with
                            | Some t => Some t
                            | None => currentTime q
                            end) q) ;;
        modify (set_untilTime None) ;;
        modify (set_lastTickMillis None) ;;
        modify (set_lastRangeMillis None) ;;
        modify (setState SeekBackfill)
      else ret tt
    else ret tt.

Definition setPublishers : M unit := ret tt.

Definition setParameter (key value : string) : M unit :=
  throw "Parameter editing is not supported by this data source".

Definition publish (payload : string) : M unit :=
  throw "Publishing is not supported by this data source".

(** [callService] is declared [async]: its [throw] rejects the promise it
    returns. *)
Definition callService : M (Promise unit) :=
  ret (Rejected "Service calls are not supported by this data source").

Definition close : M unit := modify (setState Close).

Definition setGlobalVariables : M unit := ret tt.

(** ** The handlers of the states *)

(** Modelled from the spec: what [#bufferedSource.initialize()] resolves to,
    [{start, end, topics[], topicStats, datatypes, problems[],
    publishersByTopic, profile?, name?}] (declared in IIterableSource, absent
    from the sources), as far as the player reads it: [topicStats],
    [datatypes] and [publishersByTopic] are only stored. *)
Record Initialization : Type := mkInitialization {
  init_start : Time;
  init_end : Time;
  init_topics : list Topic.t;
  init_profile : option string;
  init_problems : list PlayerProblem;
  init_name : option string;
}.

(** The text of [${x}] for an optional string. *)
Definition showOpt (o : option string) : string := default "undefined" o.

Definition inconsistentDatatype (existingTopic topic : Topic.t) : PlayerProblem :=
  {| severity := SevWarn;
     message := "Inconsistent datatype for topic: " +:+ Topic.name topic;
     tip := Some ("Topic " +:+ Topic.name topic
                  +:+ " has messages with multiple datatypes: "
                  +:+ showOpt (Topic.schemaName existingTopic) +:+ ", "
                  +:+ showOpt (Topic.schemaName topic)
                  +:+ ". This may result in errors during visualization.");
     error := None |}.

(** The loop [for (const topic of topics)] of [#stateInitialize]:
    [uniqueTopics] is the map built so far, [problems] the array pushed to. *)
Fixpoint dedupTopics (topics : list Topic.t) (uniqueTopics : JsMap.t Topic.t)
    (problems : list PlayerProblem) : JsMap.t Topic.t * list PlayerProblem :=
  match topics with
  | [] => (uniqueTopics, problems)
  | topic :: rest =>
      match JsMap.get (Topic.name topic) uniqueTopics with
      | Some existingTopic =>
          dedupTopics rest uniqueTopics
            (problems ++ [inconsistentDatatype existingTopic topic])
      | None =>
          dedupTopics rest (JsMap.set (Topic.name topic) topic uniqueTopics) problems
      end
  end.

(** The loop [for (const problem of problems)] with its counter [idx]. *)
Fixpoint addInitProblems (problems : list PlayerProblem) (idx : nat)
    (pm : PlayerProblemManager.t) : PlayerProblemManager.t :=
  match problems with
  | [] => pm
  | problem :: rest =>
      addInitProblems rest (S idx)
        (PlayerProblemManager.addProblem ("init-problem-" +:+ pretty idx) problem pm)
  end.

(** [#stateInitialize()].  [sourceInit] is the outcome of
    [#bufferedSource.initialize()], [blockLoaderCtor] that of
    [new BlockLoader(...)], and [toRFC3339String] the function of that name
    of the rostime package. *)
Definition stateInitialize (toRFC3339String : Time -> string)
    (sourceInit : Result Initialization) (blockLoaderCtor : Result unit) : M unit :=
  call QueueEmitState ;;
  tryCatch
    (call SourceInitialize ;;
     init <- (fun p => (sourceInit, p)) ;;
     modify (fun p =>
       match seekTarget p with
       | Some target =>
           set_seekTarget (Some (Time.clampTime target (init_start init) (init_end init))) p
       | None => p
       end) ;;
     modify (set_profile (init_profile init)) ;;
     modify (set_start (Some (init_start init))) ;;
     modify (fun p => set_currentTime
                        (Some (default (init_start init) (seekTarget p))) p) ;;
     modify (set_end_ (Some (init_end init))) ;;
     modify (fun p => set_name (match init_name init with
                                | Some n => Some n
                                | None => name p
                                end) p) ;;
     let '(uniqueTopics, problems) :=
       dedupTopics (init_topics init) JsMap.empty (init_problems init) in
     modify (set_providerTopics (JsMap.values uniqueTopics)) ;;
     modify (fun p => set_problemManager
                        (addInitProblems problems 0 (problemManager p)) p) ;;
     preload <- gets enablePreload ;;
     when preload
       (match blockLoaderCtor with
        | Ret _ => modify (set_blockLoader true)
        | Thrown msg =>
            let startStr := toRFC3339String (init_start init) in
            let endStr := toRFC3339String (init_end init) in
            modify (fun p => set_problemManager
              (PlayerProblemManager.addProblem "block-loader"
                 {| severity := SevWarn;
                    message := "Failed to initialize message preloading";
                    tip := Some ("The start (" +:+ startStr +:+ ") and end ("
                                 +:+ endStr +:+ ") of your data is too far apart.");
                    error := Some msg |}
                 (problemManager p)) p)
        end) ;;
     modify (set_presence PRESENT))
    (fun msg => modify (setError ("Error initializing: " +:+ msg))) ;;
  call QueueEmitState ;;
  p <- gets id ;;
  if negb (hasError p) && isSome (start p)
  then
    (* await delay(START_DELAY_MS) *)
    when (blockLoader p) (call (BlockLoaderSetTopics (ref_val (preloadTopics p)))) ;;
    when (blockLoader p) (call BlockLoaderStartLoading) ;;
    modify (setState StartPlay)
  else ret tt.

(** The range of a tick in milliseconds, from the reading [tickTime] of
    [performance.now()]. *)
Definition durationMillis (tickTime : Q) (p : Player) : Q :=
  match lastTickMillis p with
  | Some last => if negb (Qeq_bool last 0) then tickTime - last else 20
  | None => 20
  end.

Definition minQ (a b : Q) : Q := if Qle_bool a b then a else b.

Definition rangeMillis (tickTime : Q) (p : Player) : Q :=
  let range := minQ (durationMillis tickTime p * speed p) 300 in
  match lastRangeMillis p with
  | Some lastRange => lastRange * 0.9 + range * 0.1
  | None => range
  end.

(** The three places of [#tick] that end a tick at [end]: set the time and
    the batch, queue the emit, and pause when [untilTime] is reached. *)
Definition finishTick (end__ : Time) (msgEvents : list MessageEvent.t) : M unit :=
  (* await this.#queueEmitState.currentPromise *)
  modify (set_currentTime (Some end__)) ;;
  modify (set_messages msgEvents) ;;
  call QueueEmitState ;;
  until <- gets untilTime ;;
  match until with
  | Some u => if (Time.compare end__ u >=? 0)%Z then pausePlayback else ret tt
  | None => ret tt
  end.

(** The loop [for (;;)] of [#tick] over the results the iterator still has.
    It returns the batch read. *)
Fixpoint tickRead (end__ : Time) (results : list IteratorResult)
    (msgEvents : list MessageEvent.t) (p : Player) : list MessageEvent.t * Player :=
  match results with
  | [] => (msgEvents, set_playbackIterator (Some []) p)       (* result.done *)
  | result :: rest =>
      let p := set_playbackIterator (Some rest) p in
      if isSome (nextState p) then (msgEvents, p)
      else
        match result with
        | IterProblem connectionId problem =>
            tickRead end__ rest msgEvents
              (set_problemManager
                 (PlayerProblemManager.addProblem ("connid-" +:+ pretty connectionId)
                    problem (problemManager p)) p)
        | IterStamp stamp =>
            if (Time.compare stamp end__ >=? 0)%Z
            then (msgEvents, set_lastStamp (Some stamp) p)
            else tickRead end__ rest msgEvents p
        | IterMessageEvent msgEvent =>
            if (Time.compare (MessageEvent.receiveTime msgEvent) end__ >? 0)%Z
            then (msgEvents, set_lastMessageEvent (Some msgEvent) p)
            else tickRead end__ rest (msgEvents ++ [msgEvent]) p
        end
  end.

(** The end of the window of a tick: [clampTime(add(currentTime,
    fromMillis(rangeMillis)), start, untilTime ?? end)]. *)
Definition tickEnd (cur start_ end__ : Time) (until : option Time) (range : Q)
    : Result Time :=
  match Time.add cur (Time.fromMillis range) with
  | Ret targetTime => Ret (Time.clampTime targetTime start_ (default end__ until))
  | Thrown msg => Thrown msg
  end.

(** The rest of [#tick] once the buffered message is dealt with: the read
    loop, then the end of the tick unless a transition has been requested. *)
Definition tickIterate (windowEnd : Time) (msgEvents : list MessageEvent.t) : M unit :=
  q <- gets id ;;
  match playbackIterator q with
  | None => throw "Invariant. this._playbackIterator is undefined."
  | Some results =>
      let '(msgEvents', q') := tickRead windowEnd results msgEvents q in
      modify (fun _ => q') ;;
      modify (set_presence PRESENT) ;;
      if isSome (nextState q') then ret tt else finishTick windowEnd msgEvents'
  end.

(** The part of [#tick] from [const msgEvents = []] on. *)
Definition tickBody (windowEnd : Time) : M unit :=
  q <- gets id ;;
  match lastMessageEvent q with
  | Some last =>
      if (Time.compare (MessageEvent.receiveTime last) windowEnd >? 0)%Z
      then finishTick windowEnd []
      else
        modify (set_lastMessageEvent None) ;;
        tickIterate windowEnd [last]
  | None => tickIterate windowEnd []
  end.

(** [#tick()].  [tickTime] is the reading of [performance.now()].  The timer
    that raises the BUFFERING presence after 500 ms is real time and is left
    out; the iterator yields the results it holds and does not fail. *)
Definition tick (tickTime : Q) : M unit :=
  p <- gets id ;;
  if negb (isPlaying p) then ret tt
  else
    match start p, end_ p with
    | Some start_, Some end__ =>
        let range := rangeMillis tickTime p in
        modify (set_lastTickMillis (Some tickTime)) ;;
        modify (set_lastRangeMillis (Some range)) ;;
        match currentTime p with
        | None => throw "Invariant: Tried to play with no current time."
        | Some cur =>
            windowEnd <- (fun q => (tickEnd cur start_ end__ (untilTime p) range, q)) ;;
            match lastStamp p with
            | Some stamp =>
                if (Time.compare stamp windowEnd >=? 0)%Z
                then finishTick windowEnd []
                else
                  modify (set_lastStamp None) ;;
                  tickBody windowEnd
            | None => tickBody windowEnd
            end
        end
    | _, _ => throw "Invariant: start & end should be set before tick()"
    end.

(** The loop [while (this.#isPlaying && !this.#hasError && !this.#nextState)]
    of [#statePlay].  [ticks] are the readings of [performance.now()] of the
    ticks to come (the loop is cut where the list ends); [allTopics0] is the
    identity of [#allTopics] when the state was entered.  The update of
    [#progress] and the frame delay are left out. *)
Fixpoint statePlayLoop (ticks : list Q) (allTopics0 : nat) : M unit :=
  match ticks with
  | [] => ret tt
  | tickTime :: rest =>
      p <- gets id ;;
      if isPlaying p && negb (hasError p) && negb (isSome (nextState p))
      then
        match currentTime p, end_ p with
        | Some cur, Some end__ =>
            if (Time.compare cur end__ >=? 0)%Z
            then
              modify (set_lastTickMillis None) ;;
              modify (set_lastRangeMillis None) ;;
              modify (set_lastStamp None) ;;
              modify (setState Idle)
            else
              tick tickTime ;;
              q <- gets id ;;
              if isSome (nextState q) then ret tt
              else if negb (Nat.eqb (ref_id (allTopics q)) allTopics0)
              then
                modify (set_lastMessageEvent None) ;;
                modify (setState ResetPlaybackIterator)
              else statePlayLoop rest allTopics0
        | _, _ => throw "TypeError: Cannot read properties of undefined"
        end
      else ret tt
  end.

(** [#statePlay()] *)
Definition statePlay (ticks : list Q) : M unit :=
  modify (set_presence PRESENT) ;;
  p <- gets id ;;
  if negb (isSome (currentTime p))
  then throw "Invariant: currentTime not set before statePlay"
  else if negb (isSome (start p)) || negb (isSome (end_ p))
  then throw "Invariant: start & end should be set before statePlay"
  else
    tryCatch (statePlayLoop ticks (ref_id (allTopics p)))
      (fun msg => modify (setError msg) ;; call QueueEmitState).

(** Amount to seek into the data source from the start when loading. *)
Definition SEEK_ON_START_NS : Z := 99000000.

(** Modelled from the spec: [fromNanoSec] of the rostime package (absent from
    the sources), the time of a number of nanoseconds. *)
Definition fromNanoSec (nsec : Z) : Time :=
  Time.mk (Z.quot nsec 1000000000) (Z.rem nsec 1000000000).

(** The loop [for (;;)] of [#stateStartPlay].  The flag returned is false
    when the handler leaves through [if (this.#nextState) return]. *)
Fixpoint startPlayRead (stopTime : Time) (results : list IteratorResult)
    (messageEvents : list MessageEvent.t) (p : Player)
    : bool * list MessageEvent.t * Player :=
  match results with
  | [] => (true, messageEvents, set_playbackIterator (Some []) p)
  | result :: rest =>
      let p := set_playbackIterator (Some rest) p in
      if isSome (nextState p) then (false, messageEvents, p)
      else
        match result with
        | IterProblem connectionId problem =>
            startPlayRead stopTime rest messageEvents
              (set_problemManager
                 (PlayerProblemManager.addProblem ("connid-" +:+ pretty connectionId)
                    problem (problemManager p)) p)
        | IterStamp stamp =>
            if (Time.compare stamp stopTime >=? 0)%Z
            then (true, messageEvents, set_lastStamp (Some stamp) p)
            else startPlayRead stopTime rest messageEvents p
        | IterMessageEvent msgEvent =>
            if (Time.compare (MessageEvent.receiveTime msgEvent) stopTime >? 0)%Z
            then (true, messageEvents, set_lastMessageEvent (Some msgEvent) p)
            else startPlayRead stopTime rest (messageEvents ++ [msgEvent]) p
        end
  end.

(** [#stateStartPlay()].  [results] is what the iterator made by
    [#bufferedSource.messageIterator] from [#start] yields. *)
Definition stateStartPlay (results : list IteratorResult) : M unit :=
  p <- gets id ;;
  match start p, end_ p with
  | Some start_, Some end__ =>
      if isSome (seekTarget p) then modify (setState SeekBackfill)
      else
        target <- (fun q => (Time.add start_ (fromNanoSec SEEK_ON_START_NS), q)) ;;
        let stopTime := Time.clampTime target start_ end__ in
        if isSome (playbackIterator p)
        then throw "Invariant. playbackIterator was already set"
        else
          call (SourceMessageIterator (ref_val (allTopics p)) start_) ;;
          modify (set_playbackIterator (Some results)) ;;
          modify (set_lastMessageEvent None) ;;
          modify (set_messages []) ;;
          q <- gets id ;;
          let '(finished, messageEvents, q') := startPlayRead stopTime results [] q in
          modify (fun _ => q') ;;
          if negb finished then ret tt
          else
            modify (set_currentTime (Some stopTime)) ;;
            modify (set_messages messageEvents) ;;
            modify (set_presence PRESENT) ;;
            call QueueEmitState ;;
            modify (setState Idle)
  | _, _ => throw "Invariant: start and end must be set"
  end.

(** [#stateIdle()], up to [await aborted]. *)
Definition stateIdle : M unit :=
  registered <- gets abort ;;
  if registered then throw "Invariant: some other abort controller exists"
  else
    modify (set_isPlaying false) ;;
    modify (set_presence PRESENT) ;;
    modify (set_abort true) ;;
    call QueueEmitState.

(** [#resetPlaybackIterator()].  [results] is what the iterator made by
    [#bufferedSource.messageIterator] from [currentTime + 1ns], for the
    topics of [#allTopics], yields. *)
Definition resetPlaybackIterator (results : list IteratorResult) : M unit :=
  p <- gets id ;;
  match currentTime p with
  | None => throw "Invariant: Tried to reset playback iterator with no current time."
  | Some cur =>
      next <- (fun q => (Time.add cur (Time.mk 0 1), q)) ;;
      when (isSome (playbackIterator p)) (call IteratorReturn) ;;
      call SourceStopProducer ;;
      call (SourceMessageIterator (ref_val (allTopics p)) next) ;;
      modify (set_playbackIterator (Some results))
  end.

(** [#stateResetPlaybackIterator()] *)
Definition stateResetPlaybackIterator (results : list IteratorResult) : M unit :=
  p <- gets id ;;
  if negb (isSome (currentTime p))
  then throw "Invariant: Tried to reset playback iterator with no current time."
  else
    resetPlaybackIterator results ;;
    q <- gets id ;;
    modify (setState (if isPlaying q then Play else Idle)).

(** [#stateSeekBackfill()].  [backfill] is the outcome of
    [#bufferedSource.getBackfillMessages] (an abort is the error named
    AbortError), [results] what the new iterator yields.  The timer that
    acknowledges the seek after 100 ms is real time and is left out. *)
Definition stateSeekBackfill (backfill : Result (list MessageEvent.t))
    (results : list IteratorResult) : M unit :=
  p <- gets id ;;
  match start p, end_ p with
  | Some start_, Some end__ =>
      match seekTarget p with
      | None => ret tt
      | Some target =>
          let targetTime := Time.clampTime target start_ end__ in
          modify (set_lastMessageEvent None) ;;
          tryFinally
            (tryCatch
               (modify (set_abort true) ;;
                call (SourceGetBackfillMessages (ref_val (allTopics p)) targetTime) ;;
                messages_ <- (fun q => (backfill, q)) ;;
                q <- gets id ;;
                if isSome (nextState q) then ret tt
                else
                  modify (set_messages messages_) ;;
                  modify (set_currentTime (Some targetTime)) ;;
                  modify (set_presence PRESENT) ;;
                  call QueueEmitState ;;
                  resetPlaybackIterator results ;;
                  r <- gets id ;;
                  modify (setState (if isPlaying r then Play else Idle)))
               (fun err =>
                  q <- gets id ;;
                  if isSome (nextState q) && String.eqb err "AbortError"
                  then ret tt else throw err))
            (fun q =>
               let q := if bool_decide (nextState q = Some SeekBackfill) then q
                        else set_seekTarget None q in
               set_abort false q)
      end
  | _, _ => throw "invariant: stateSeekBackfill prior to initialization"
  end.

(** [#stateClose()] *)
Definition stateClose : M unit :=
  modify (set_isPlaying false) ;;
  call MetricsClose ;;
  p <- gets id ;;
  when (blockLoader p) (call BlockLoaderStopLoading) ;;
  call SourceStopProducer ;;
  call SourceTerminate ;;
  when (isSome (playbackIterator p)) (call IteratorReturn) ;;
  modify (set_playbackIterator None) ;;
  call SourceTerminate ;;
  call ResolveIsClosed.

(** ** The snapshot handed to the listener *)

(** Modelled from the spec: the [activeData] of an emitted snapshot (declared
    in players/types, absent from the sources), with the fields the
    statements read. *)
Module ActiveData.
Record t : Type := mk {
  messages : list MessageEvent.t;
  currentTime : Time;
  startTime : Time;
  endTime : Time;
  isPlaying : bool;
  speed : Q;
  topics : list Topic.t;
}.
End ActiveData.

(** Modelled from the spec: the emitted snapshot [PlayerState] (declared in
    players/types, absent from the sources), without the fields the player
    only copies. *)
Module PlayerState.
Record t : Type := mk {
  name : option string;
  presence : PlayerPresence;
  profile : option string;
  problems : Ref (list PlayerProblem);
  activeData : option ActiveData.t;
}.
End PlayerState.

(** [#emitStateImpl()], up to the call of the listener: the snapshot it is
    called with (none without a listener) and the player afterwards. *)
Definition emitStateImpl (p : Player) : option PlayerState.t * Player :=
  if negb (listener p) then (None, p)
  else
    let '(problems_, pm) := PlayerProblemManager.problems (problemManager p) in
    if hasError p then
      (Some (PlayerState.mk (name p) ERROR (profile p) problems_ None),
       set_problemManager pm p)
    else
      let messages_ := messages p in
      let p := set_messages [] p in                 (* EMPTY_ARRAY *)
      let activeData_ :=
        match start p, end_ p, currentTime p with
        | Some start_, Some end__, Some cur =>
            Some (ActiveData.mk messages_ cur start_ end__ (isPlaying p) (speed p)
                    (providerTopics p))
        | _, _, _ => None
        end in
      (Some (PlayerState.mk (name p) (presence p) (profile p) problems_ activeData_),
       set_problemManager pm p).

(** ** A sample recording

    One second of data: [/a] at 0 ms, 500 ms and 999 ms, [/b] at 200 ms.  The
    source lists the topic [/a] twice, with two schema names, and marks with
    a stamp at 400 ms how far it has read. *)

Definition millis (n : Z) : Time := Time.mk (n / 1000) ((n mod 1000) * 1000000).

Definition sampleMessage (topic : string) (n : Z) : MessageEvent.t :=
  MessageEvent.mk topic (millis n) "payload" 8.

Definition sampleInit : Initialization :=
  {| init_start := millis 0;
     init_end := millis 1000;
     init_topics := [Topic.mk "/a" (Some "A"); Topic.mk "/b" (Some "B");
                     Topic.mk "/a" (Some "C")];
     init_profile := None;
     init_problems := [];
     init_name := None |}.

Definition subscribeA : list SubscribePayload.t := [SubscribePayload.mk "/a" None].

Definition subscribeAB : list SubscribePayload.t :=
  [SubscribePayload.mk "/a" None; SubscribePayload.mk "/b" None].

(** What an iterator over [/a] from the start yields. *)
Definition sampleResults : list IteratorResult :=
  [IterMessageEvent (sampleMessage "/a" 0);
   IterMessageEvent (sampleMessage "/a" 500);
   IterMessageEvent (sampleMessage "/a" 999)].

(** The same with the stamp of the source. *)
Definition stampedResults : list IteratorResult :=
  [IterMessageEvent (sampleMessage "/a" 0);
   IterStamp (millis 400);
   IterMessageEvent (sampleMessage "/a" 500);
   IterMessageEvent (sampleMessage "/a" 999)].

(** What an iterator over [/a] and [/b] from just after 99 ms yields. *)
Definition stampedResultsAB : list IteratorResult :=
  [IterMessageEvent (sampleMessage "/b" 200);
   IterStamp (millis 400);
   IterMessageEvent (sampleMessage "/a" 500);
   IterMessageEvent (sampleMessage "/a" 999)].

(** The player once it has a listener and a subscription to [/a], has
    initialized, has read the start window from [results] and rests in the
    idle state. *)
Definition idleAfterStart (results : list IteratorResult) : Player :=
  let p := snd (setListener (newPlayer None None)) in
  let p := snd (setSubscriptions subscribeA p) in
  let p := snd (stateInitialize (fun _ => "") (Ret sampleInit) (Ret tt) p) in
  let p := handlerReturns p in
  let p := snd (stateStartPlay results p) in
  let p := handlerReturns p in
  snd (stateIdle p).

Definition sampleIdle : Player := idleAfterStart sampleResults.

(** [startPlayback()] on an idle player, and the play state entered. *)
Definition playFrom (p : Player) : Player :=
  handlerReturns (snd (startPlayback p)).

Definition samplePlaying : Player := playFrom sampleIdle.

(** The idle player, with the stamp kept by the start window, after a
    [setSubscriptions] that adds [/b]: the seek-backfill state runs, the
    iterator is made anew for both topics, and the player is idle again. *)
Definition idleAfterResubscribe : Player :=
  let p := snd (setSubscriptions subscribeAB (idleAfterStart stampedResults)) in
  let p := handlerReturns p in
  let p := snd (stateSeekBackfill (Ret []) stampedResultsAB p) in
  let p := handlerReturns p in
  snd (stateIdle p).

(** ** Notions used in the statements *)

(** The states whose handler the run loop has called, oldest first. *)
Fixpoint handlersOf (es : list Effect) : list IterablePlayerState :=
  match es with
  | [] => []
  | RunHandler st :: rest => st :: handlersOf rest
  | _ :: rest => handlersOf rest
  end.

Definition handlersRun (p : Player) : list IterablePlayerState :=
  handlersOf (effects p).

(** The topic selection a call on the source asks for. *)
Definition requestedTopics (e : Effect) : option TopicSelection :=
  match e with
  | SourceMessageIterator topics _ => Some topics
  | SourceGetBackfillMessages topics _ => Some topics
  | _ => None
  end.

(** The message events among iterator results. *)
Fixpoint messagesOf (results : list IteratorResult) : list MessageEvent.t :=
  match results with
  | [] => []
  | IterMessageEvent msgEvent :: rest => msgEvent :: messagesOf rest
  | _ :: rest => messagesOf rest
  end.

(** What the playback iterator has yet to deliver: the message a tick read
    ahead and kept in [#lastMessageEvent], then the results the iterator has
    left. *)
Definition pendingResults (p : Player) : list IteratorResult :=
  match lastMessageEvent p with
  | Some msgEvent => [IterMessageEvent msgEvent]
  | None => []
  end ++ default [] (playbackIterator p).

Definition pendingMessages (p : Player) : list MessageEvent.t :=
  messagesOf (pendingResults p).

Definition after (t : Time) (msgEvent : MessageEvent.t) : bool :=
  Time.ltb t (MessageEvent.receiveTime msgEvent).

Definition notAfter (t : Time) (msgEvent : MessageEvent.t) : bool :=
  Time.leb (MessageEvent.receiveTime msgEvent) t.

(** [receiveTime] in the half-open interval [(lo, hi]]. *)
Definition inWindow (lo hi : Time) (msgEvent : MessageEvent.t) : bool :=
  after lo msgEvent && notAfter hi msgEvent.

(** Results come in the order of time: no message is earlier than a message
    before it, and every message is later than a stamp before it. *)
Fixpoint streamOrdered (results : list IteratorResult) : bool :=
  match results with
  | [] => true
  | IterMessageEvent msgEvent :: rest =>
      forallb (fun m => Time.leb (MessageEvent.receiveTime msgEvent)
                          (MessageEvent.receiveTime m)) (messagesOf rest)
      && streamOrdered rest
  | IterStamp stamp :: rest =>
      forallb (after stamp) (messagesOf rest) && streamOrdered rest
  | IterProblem _ _ :: rest => streamOrdered rest
  end.

(** The iterator is in step with the player at time [cur]: what is pending
    is ordered and later than [cur], and later than the stamp kept in
    [#lastStamp], if any. *)
Definition streamReady (cur : Time) (p : Player) : bool :=
  streamOrdered (pendingResults p)
  && forallb (after cur) (pendingMessages p)
  && match lastStamp p with
     | Some stamp => forallb (after stamp) (pendingMessages p)
     | None => true
     end.

(** The array handed out by the registry, when there is one, lists the
    registered problems. *)
Definition cacheCurrent (m : PlayerProblemManager.t) : Prop :=
  match PlayerProblemManager.cache m with
  | Some arr => ref_val arr = JsMap.values (PlayerProblemManager.problemsById m)
  | None => True
  end.

(** A sequence of [setSubscriptions] calls. *)
Definition setSubscriptionsAll (calls : list (list SubscribePayload.t)) (p : Player)
    : Player :=
  foldl (fun q subs => snd (setSubscriptions subs q)) p calls.

(** A sequence of [#setState] requests. *)
Definition setStateAll (requests : list IterablePlayerState) (p : Player) : Player :=
  foldl (fun q st => setState st q) p requests.

(** The warning of [#stateInitialize] about topic [name]. *)
Definition aboutTopic (name : string) (problem : PlayerProblem) : bool :=
  String.eqb (message problem) ("Inconsistent datatype for topic: " +:+ name).

Definition named (name : string) (topic : Topic.t) : bool :=
  String.eqb (Topic.name topic) name.

(** [q] has the clock and the playback flags of [p]. *)
Definition sameClock (p q : Player) : Prop :=
  start q = start p /\ end_ q = end_ p /\ currentTime q = currentTime p
  /\ isPlaying q = isPlaying p /\ untilTime q = untilTime p
  /\ nextState q = nextState p /\ messages q = messages p.

(** The bound [t] of a [playUntil(t)] is in force on [p]: the time has not
    passed [t], and while the player plays it is before [t] with an
    [untilTime] of at most [t]. *)
Definition untilBound (t : Time) (p : Player) : Prop :=
  (exists s, start p = Some s /\ Time.le s t)
  /\ exists cur, currentTime p = Some cur /\ Time.le cur t
     /\ (isPlaying p = true ->
         Time.lt cur t /\ exists u, untilTime p = Some u /\ Time.le u t).

(** [q] has the bounds, the time and the playback flags of [p]. *)
Definition samePlayback (p q : Player) : Prop :=
  start q = start p /\ currentTime q = currentTime p
  /\ isPlaying q = isPlaying p /\ untilTime q = untilTime p.

Arguments untilBound : simpl never.
Arguments samePlayback : simpl never.

(** A tick that ends at [w], from time [cur] with the messages [pending]
    yet to deliver, has delivered its window: the batch is the part of
    [pending] in [(cur, w]], what stays pending is the part after [w], in
    the same order, and the iterator is in step with the new time. *)
Definition tickDelivered (cur w : Time) (pending : list MessageEvent.t) (p' : Player)
    : Prop :=
  currentTime p' = Some w
  /\ messages p' = List.filter (inWindow cur w) pending
  /\ pendingMessages p' = List.filter (after w) pending
  /\ pending = messages p' ++ pendingMessages p'
  /\ streamReady w p' = true.

(** ** Notions used in the further properties *)

(** The ids registered in a map, in insertion order. *)
Definition keysOf {V : Type} (m : JsMap.t V) : list string := map fst m.

(** The array handed out by the registry, when there is one, was allocated
    by it: its number is below the next one. *)
Definition cacheAllocated (m : PlayerProblemManager.t) : Prop :=
  match PlayerProblemManager.cache m with
  | Some arr => ref_id arr < PlayerProblemManager.nextRef m
  | None => True
  end.

(** [predicate(id, problem)] on an entry of the registry. *)
Definition onEntry (predicate : string -> PlayerProblem -> bool)
    (entry : string * PlayerProblem) : bool :=
  predicate (fst entry) (snd entry).

(** The data of the player: all fields but the ones that requests and the
    run loop write ([#state], [#nextState], [#runningState], [#abort], the
    iterator) and the trace of calls. *)
Definition dataOf (p : Player) : Player :=
  set_state Preinit
    (set_nextState None
       (set_runningState false
          (set_abort false
             (set_playbackIterator None (set_effects [] p))))).

(** The calls on the block loader. *)
Definition blockLoaderCall (e : Effect) : bool :=
  match e with
  | BlockLoaderSetTopics _ | BlockLoaderStartLoading | BlockLoaderStopLoading => true
  | _ => false
  end.

(** The smoothed range kept from the last tick is at most 300 ms. *)
Definition rangeCapped (p : Player) : Prop :=
  match lastRangeMillis p with
  | Some lastRange => (lastRange <= 300)%Q
  | None => True
  end.

(** ** The playback controls (components/PlaybackControls/index.tsx) *)

(** What the prop [getTimeInfo()] returns:
    [{ startTime?: Time; endTime?: Time; currentTime?: Time }]. *)
Module TimeInfo.
Record t : Type := mk {
  startTime : option Time;
  endTime : option Time;
  currentTime : option Time;
}.
End TimeInfo.

(** [togglePlayPause] of [PlaybackControls], over its props: [isPlaying], the
    callbacks [play], [pause] and [seek], and what [getTimeInfo()] returns
    when the button is pressed. *)
Definition togglePlayPause (isPlaying_ : bool) (play pause : M unit)
    (seek : Time -> M unit) (getTimeInfo : TimeInfo.t) : M unit :=
  if isPlaying_ then pause
  else
    (match TimeInfo.currentTime getTimeInfo, TimeInfo.endTime getTimeInfo,
           TimeInfo.startTime getTimeInfo with
     | Some current, Some end__, Some start_ =>
         (* if we are at the end, we need to go back to start *)
         if (Time.compare current end__ >=? 0)%Z then seek start_ else ret tt
     | _, _, _ => ret tt
     end) ;;
    play.

(** * Properties *)

(** ** The order on times *)

Module TimeFacts.
Import Time.
Local Open Scope Z_scope.

Lemma eta (x : t) : mk (sec x) (nsec x) = x.
Proof. by destruct x. Qed.

Lemma compare_refl (a : t) : compare a a = 0.
Proof. unfold compare. rewrite Z.sub_diag. simpl. lia. Qed.

Lemma compare_cases (a b : t) :
  (sec a <> sec b /\ compare a b = sec a - sec b) \/
  (sec a = sec b /\ compare a b = nsec a - nsec b).
Proof.
  unfold compare. destruct (Z.eqb_spec (sec a - sec b) 0); simpl; [right|left]; lia.
Qed.

Lemma compare_eq (a b : t) : compare a b = 0 <-> a = b.
Proof.
  split; [|intros ->; apply compare_refl].
  destruct a as [s1 n1], b as [s2 n2].
  destruct (compare_cases (mk s1 n1) (mk s2 n2)) as [[H1 H2]|[H1 H2]];
    simpl in *; intros H; rewrite H in H2; [lia|]. f_equal; lia.
Qed.

Lemma compare_antisym (a b : t) : compare a b < 0 <-> 0 < compare b a.
Proof.
  destruct (compare_cases a b) as [[? ->]|[? ->]],
           (compare_cases b a) as [[? ->]|[? ->]]; lia.
Qed.

Lemma le_ge (a b : t) : compare a b <= 0 <-> 0 <= compare b a.
Proof.
  destruct (compare_cases a b) as [[? ->]|[? ->]],
           (compare_cases b a) as [[? ->]|[? ->]]; lia.
Qed.

Lemma lt_trans (a b c : t) : lt a b -> lt b c -> lt a c.
Proof.
  unfold lt.
  destruct (compare_cases a b) as [[? ->]|[? ->]],
           (compare_cases b c) as [[? ->]|[? ->]],
           (compare_cases a c) as [[? ->]|[? ->]]; lia.
Qed.

Lemma le_trans (a b c : t) : le a b -> le b c -> le a c.
Proof.
  unfold le.
  destruct (compare_cases a b) as [[? ->]|[? ->]],
           (compare_cases b c) as [[? ->]|[? ->]],
           (compare_cases a c) as [[? ->]|[? ->]]; lia.
Qed.

Lemma lt_le_trans (a b c : t) : lt a b -> le b c -> lt a c.
Proof.
  unfold lt, le.
  destruct (compare_cases a b) as [[? ->]|[? ->]],
           (compare_cases b c) as [[? ->]|[? ->]],
           (compare_cases a c) as [[? ->]|[? ->]]; lia.
Qed.

Lemma le_lt_trans (a b c : t) : le a b -> lt b c -> lt a c.
Proof.
  unfold lt, le.
  destruct (compare_cases a b) as [[? ->]|[? ->]],
           (compare_cases b c) as [[? ->]|[? ->]],
           (compare_cases a c) as [[? ->]|[? ->]]; lia.
Qed.

Lemma lt_le (a b : t) : lt a b -> le a b.
Proof. unfold lt, le. lia. Qed.

Lemma le_refl (a : t) : le a a.
Proof. unfold le. rewrite compare_refl. lia. Qed.

Lemma not_le_lt (a b : t) : ~ le a b <-> lt b a.
Proof. unfold le, lt. rewrite (compare_antisym b a). lia. Qed.

Lemma not_lt_le (a b : t) : ~ lt a b <-> le b a.
Proof. unfold le, lt. rewrite (le_ge b a). lia. Qed.

Lemma ltb_lt (a b : t) : ltb a b = true <-> lt a b.
Proof. apply Z.ltb_lt. Qed.

Lemma leb_le (a b : t) : leb a b = true <-> le a b.
Proof. apply Z.leb_le. Qed.

(** [clampTime] returns one of its three arguments. *)
Lemma clampTime_cases (x lo hi : t) :
  (lt x lo /\ clampTime x lo hi = lo) \/
  (le lo x /\ lt hi x /\ clampTime x lo hi = hi) \/
  (le lo x /\ le x hi /\ clampTime x lo hi = x).
Proof.
  unfold clampTime, lt, le.
  destruct (Z.gtb_spec (compare lo x) 0) as [H|H].
  - left. rewrite eta. split; [apply compare_antisym; lia|done].
  - right. assert (compare lo x <= 0) as H' by lia.
    destruct (Z.ltb_spec (compare hi x) 0) as [H2|H2]; rewrite eta.
    + left. done.
    + right. split; [done|]. split; [apply le_ge; lia|done].
Qed.

(** Adding a positive duration to a normalized time gives a later,
    normalized time. *)
Lemma add_positive (a d : t) :
  valid a -> positive d ->
  exists r, add a d = Ret r /\ lt a r /\ valid r.
Proof.
  intros [Ha1 Ha2] [[Hd1 Hd2] Hd3].
  unfold add, fixTime. cbn [sec nsec].
  set (n := nsec a + nsec d).
  assert (0 <= n < 2000000000) as Hn by (unfold n; lia).
  assert (Z.rem n 1000000000 = n mod 1000000000) as Hrem
    by (apply Z.rem_mod_nonneg; lia).
  pose proof (Z.mod_pos_bound n 1000000000 ltac:(lia)) as Hmod.
  pose proof (Z.div_mod n 1000000000 ltac:(lia)) as Hdm.
  assert (0 <= n / 1000000000) as Hq by (apply Z.div_pos; lia).
  rewrite Hrem.
  destruct (Z.ltb_spec (n mod 1000000000) 0) as [?|_]; [lia|].
  rewrite Z.abs_eq by lia.
  destruct (Z.ltb_spec (sec a + sec d + n / 1000000000) 0) as [?|_]; [lia|].
  destruct (Z.ltb_spec (n mod 1000000000) 0) as [?|_]; [lia|].
  cbn [orb]. eexists; split; [reflexivity|]. split.
  - unfold lt.
    destruct (compare_cases a (mk (sec a + sec d + n / 1000000000) (n mod 1000000000)))
      as [[H1 ->]|[H1 ->]]; cbn [sec nsec] in *; [lia|].
    assert (sec d = 0 /\ n / 1000000000 = 0) as [Hs0 Hq0] by lia.
    rewrite Hq0 in Hdm. unfold n in *. lia.
  - split; cbn [sec nsec]; lia.
Qed.
End TimeFacts.

(** ** Facts about [JsMap] *)

Module JsMapFacts.
Import JsMap.
Section Facts.
Context {V : Type}.
Implicit Types (m : JsMap.t V) (v : V).

Lemma get_None_set (k : string) (v : V) (m : JsMap.t V) :
  get k m = None -> set k v m = m ++ [(k, v)].
Proof.
  induction m as [|[k' v'] m IH]; simpl; [done|].
  destruct (String.eqb k k'); [done|]. intros H. by rewrite IH.
Qed.

Lemma get_set_eq (k : string) (v : V) (m : JsMap.t V) :
  get k (set k v m) = Some v.
Proof.
  induction m as [|[k' v'] m IH]; simpl.
  - by rewrite String.eqb_refl.
  - destruct (String.eqb k k') eqn:E; simpl; rewrite ?String.eqb_refl, ?E; done.
Qed.

Lemma get_set_ne (k k' : string) (v : V) (m : JsMap.t V) :
  k <> k' -> get k (set k' v m) = get k m.
Proof.
  intros Hne. induction m as [|[k'' v''] m IH]; simpl.
  - by apply String.eqb_neq in Hne as ->.
  - destruct (String.eqb_spec k' k'') as [->|Hne']; simpl.
    + by apply String.eqb_neq in Hne as ->.
    + by rewrite IH.
Qed.

Lemma values_set_fresh (k : string) (v : V) (m : JsMap.t V) :
  get k m = None -> values (set k v m) = values m ++ [v].
Proof.
  intros H. rewrite get_None_set by done. unfold values. by rewrite map_app.
Qed.

End Facts.
End JsMapFacts.

(** ** What a request leaves alone

    [#setState] writes [#nextState] and [#abort], and [#runState] inside it
    [#state], [#runningState] and the iterator; the data of the player is
    not touched. *)

Ltac setState_frame :=
  intros; unfold setState, runState, runLoopHead;
  repeat (case_bool_decide || case_match); reflexivity.

Lemma setState_name (st : IterablePlayerState) (p : Player) :
  name (setState st p) = name p.
Proof. setState_frame. Qed.

Lemma setState_isPlaying (st : IterablePlayerState) (p : Player) :
  isPlaying (setState st p) = isPlaying p.
Proof. setState_frame. Qed.

Lemma setState_listener (st : IterablePlayerState) (p : Player) :
  listener (setState st p) = listener p.
Proof. setState_frame. Qed.

Lemma setState_speed (st : IterablePlayerState) (p : Player) :
  speed (setState st p) = speed p.
Proof. setState_frame. Qed.

Lemma setState_start (st : IterablePlayerState) (p : Player) :
  start (setState st p) = start p.
Proof. setState_frame. Qed.

Lemma setState_end_ (st : IterablePlayerState) (p : Player) :
  end_ (setState st p) = end_ p.
Proof. setState_frame. Qed.

Lemma setState_enablePreload (st : IterablePlayerState) (p : Player) :
  enablePreload (setState st p) = enablePreload p.
Proof. setState_frame. Qed.

Lemma setState_lastTickMillis (st : IterablePlayerState) (p : Player) :
  lastTickMillis (setState st p) = lastTickMillis p.
Proof. setState_frame. Qed.

Lemma setState_providerTopics (st : IterablePlayerState) (p : Player) :
  providerTopics (setState st p) = providerTopics p.
Proof. setState_frame. Qed.

Lemma setState_profile (st : IterablePlayerState) (p : Player) :
  profile (setState st p) = profile p.
Proof. setState_frame. Qed.

Lemma setState_subscriptions (st : IterablePlayerState) (p : Player) :
  subscriptions (setState st p) = subscriptions p.
Proof. setState_frame. Qed.

Lemma setState_allTopics (st : IterablePlayerState) (p : Player) :
  allTopics (setState st p) = allTopics p.
Proof. setState_frame. Qed.

Lemma setState_preloadTopics (st : IterablePlayerState) (p : Player) :
  preloadTopics (setState st p) = preloadTopics p.
Proof. setState_frame. Qed.

Lemma setState_messages (st : IterablePlayerState) (p : Player) :
  messages (setState st p) = messages p.
Proof. setState_frame. Qed.

Lemma setState_hasError (st : IterablePlayerState) (p : Player) :
  hasError (setState st p) = hasError p.
Proof. setState_frame. Qed.

Lemma setState_lastRangeMillis (st : IterablePlayerState) (p : Player) :
  lastRangeMillis (setState st p) = lastRangeMillis p.
Proof. setState_frame. Qed.

Lemma setState_lastMessageEvent (st : IterablePlayerState) (p : Player) :
  lastMessageEvent (setState st p) = lastMessageEvent p.
Proof. setState_frame. Qed.

Lemma setState_lastStamp (st : IterablePlayerState) (p : Player) :
  lastStamp (setState st p) = lastStamp p.
Proof. setState_frame. Qed.

Lemma setState_seekTarget (st : IterablePlayerState) (p : Player) :
  seekTarget (setState st p) = seekTarget p.
Proof. setState_frame. Qed.

Lemma setState_presence (st : IterablePlayerState) (p : Player) :
  presence (setState st p) = presence p.
Proof. setState_frame. Qed.

Lemma setState_currentTime (st : IterablePlayerState) (p : Player) :
  currentTime (setState st p) = currentTime p.
Proof. setState_frame. Qed.

Lemma setState_problemManager (st : IterablePlayerState) (p : Player) :
  problemManager (setState st p) = problemManager p.
Proof. setState_frame. Qed.

Lemma setState_blockLoader (st : IterablePlayerState) (p : Player) :
  blockLoader (setState st p) = blockLoader p.
Proof. setState_frame. Qed.

Lemma setState_untilTime (st : IterablePlayerState) (p : Player) :
  untilTime (setState st p) = untilTime p.
Proof. setState_frame. Qed.

Lemma setState_heapNext (st : IterablePlayerState) (p : Player) :
  heapNext (setState st p) = heapNext p.
Proof. setState_frame. Qed.

Create Rewrite HintDb player.
#[global] Hint Rewrite setState_name
  setState_isPlaying
  setState_listener
  setState_speed
  setState_start
  setState_end_
  setState_enablePreload
  setState_lastTickMillis
  setState_providerTopics
  setState_profile
  setState_subscriptions
  setState_allTopics
  setState_preloadTopics
  setState_messages
  setState_hasError
  setState_lastRangeMillis
  setState_lastMessageEvent
  setState_lastStamp
  setState_seekTarget
  setState_presence
  setState_currentTime
  setState_problemManager
  setState_blockLoader
  setState_untilTime
  setState_heapNext : player.

(** ** The commands of the [Player] interface *)

Local Open Scope player_scope.

(** Unfolds the monad so that a method applied to a player computes. *)
Ltac run_method :=
  unfold bind, gets, modify, call, ret, throw, when, tryCatch; cbn.

(** Settles a closed goal about the sample players by evaluation. *)
Ltac by_evaluation :=
  vm_compute; first [reflexivity | discriminate | exact I].

Lemma setSubscriptions_selection (subs : list SubscribePayload.t) (p : Player) :
  ref_val (allTopics (snd (setSubscriptions subs p))) = allTopicsOf subs
  /\ ref_val (preloadTopics (snd (setSubscriptions subs p))) = preloadTopicsOf subs
  /\ subscriptions (snd (setSubscriptions subs p)) = subs.
Proof.
  unfold setSubscriptions, isEqual. run_method.
  destruct (bool_decide_reflect (allTopicsOf subs = ref_val (allTopics p))) as [Ha|Ha],
           (bool_decide_reflect (preloadTopicsOf subs = ref_val (preloadTopics p)))
             as [Hb|Hb]; cbn; [done|..];
    destruct (blockLoader p); cbn;
    destruct (_ || _); cbn; try done;
    destruct (_ && _); cbn; autorewrite with player; done.
Qed.

(** C3. On a player past initialization, [seekPlayback(t)] with the clamped
    [t] equal to [currentTime] (or to the pending seek target) returns
    without any effect: no metrics event, no request for the seek-backfill
    state, no field changed. *)
Theorem seekPlayback_same_time_noop (p : Player) (time s e : Time) :
  state p <> Preinit -> state p <> Initialize ->
  start p = Some s -> end_ p = Some e ->
  (exists cur, currentTime p = Some cur
               /\ Time.compare cur (Time.clampTime time s e) = 0%Z)
  \/ (exists target, seekTarget p = Some target
                     /\ Time.compare target (Time.clampTime time s e) = 0%Z) ->
  seekPlayback time p = (Ret tt, p).
Proof.
  intros Hpre Hinit Hs He Hat.
  unfold seekPlayback. run_method.
  rewrite !bool_decide_eq_false_2 by done. cbn. rewrite Hs, He.
  destruct Hat as [(cur & Hcur & Hc)|(target & -> & Hc)].
  - destruct (seekTarget p) as [target|].
    + destruct (Time.compare target _ =? 0)%Z; [done|].
      rewrite Hcur, Hc. done.
    + rewrite Hcur, Hc. done.
  - rewrite Hc. done.
Qed.

Lemma seekPlayback_same_time_noop_witness :
  (state sampleIdle <> Preinit /\ state sampleIdle <> Initialize
   /\ start sampleIdle = Some (millis 0) /\ end_ sampleIdle = Some (millis 1000)
   /\ currentTime sampleIdle = Some (millis 99))
  /\ seekPlayback (millis 99) sampleIdle = (Ret tt, sampleIdle).
Proof.
  split.
  - split_and!; by_evaluation.
  - apply (seekPlayback_same_time_noop sampleIdle (millis 99) (millis 0) (millis 1000)).
    + by_evaluation.
    + by_evaluation.
    + by_evaluation.
    + by_evaluation.
    + left. exists (millis 99). split; by_evaluation.
Defined.

(** C7. [pausePlayback()] on a player that is not playing returns at once:
    no pause event for the metrics collector, no state requested, no emit
    queued, no field changed. *)
Theorem pausePlayback_not_playing_noop (p : Player) :
  isPlaying p = false -> pausePlayback p = (Ret tt, p).
Proof.
  intros H. unfold pausePlayback. run_method. rewrite H. done.
Qed.

Lemma pausePlayback_not_playing_noop_witness :
  isPlaying sampleIdle = false /\ pausePlayback sampleIdle = (Ret tt, sampleIdle).
Proof.
  split.
  - by_evaluation.
  - apply (pausePlayback_not_playing_noop sampleIdle). by_evaluation.
Defined.

(** C9, as the code has it: in every state of the player [setParameter]
    and [publish] throw to the caller, and [callService], an [async] method,
    returns a promise rejected with its message; none changes the player. *)
Theorem unsupported_operations (p : Player) (key value payload : string) :
  setParameter key value p
    = (Thrown "Parameter editing is not supported by this data source", p)
  /\ publish payload p
    = (Thrown "Publishing is not supported by this data source", p)
  /\ callService p
    = (Ret (Rejected "Service calls are not supported by this data source"), p).
Proof. done. Qed.

(** C9 as stated fails for [callService]: the call returns (a rejected
    promise); nothing is thrown to the caller. *)
Lemma callService_does_not_throw :
  ~ exists msg, fst (callService sampleIdle) = Thrown msg.
Proof. intros [msg H]. discriminate H. Qed.

(** C10. [startPlayback()] and [playUntil(t)] return without any effect when
    the player is playing already, when an [untilTime] is pending, or when
    [start] or [end] is not set; otherwise [playUntil(t)] with [t] at or
    before [currentTime] throws, before anything is changed. *)
Theorem startPlayImpl_guard_then_invariant :
  (forall (p : Player) (opt : option Time),
      isPlaying p = true \/ untilTime p <> None \/ start p = None \/ end_ p = None ->
      startPlayImpl opt p = (Ret tt, p))
  /\ (forall (p : Player) (time cur : Time),
      isPlaying p = false -> untilTime p = None ->
      start p <> None -> end_ p <> None ->
      currentTime p = Some cur -> Time.le time cur ->
      playUntil time p
        = (Thrown "Invariant: playUntil time must be after the current time", p)).
Proof.
  split.
  - intros p opt H. unfold startPlayImpl. run_method.
    destruct (isPlaying p); [done|].
    destruct (untilTime p); [done|].
    destruct (start p); [|done].
    destruct (end_ p); [|done].
    destruct H as [H|[H|[H|H]]]; done.
  - intros p time cur Hp Hu Hs He Hc Hle.
    unfold playUntil, startPlayImpl. run_method.
    rewrite Hp, Hu, Hc.
    destruct (start p); [|done]. destruct (end_ p); [|done].
    apply Z.leb_le in Hle. rewrite Hle. done.
Qed.

Lemma startPlayImpl_guard_then_invariant_witness :
  ((isPlaying samplePlaying = true
    /\ playUntil (millis 10) samplePlaying = (Ret tt, samplePlaying))
   /\ (start (newPlayer None None) = None
       /\ startPlayback (newPlayer None None) = (Ret tt, newPlayer None None)))
  /\ ((isPlaying sampleIdle = false /\ untilTime sampleIdle = None
       /\ currentTime sampleIdle = Some (millis 99)
       /\ Time.le (millis 99) (millis 99))
      /\ playUntil (millis 99) sampleIdle
         = (Thrown "Invariant: playUntil time must be after the current time",
            sampleIdle)).
Proof.
  destruct startPlayImpl_guard_then_invariant as [Hguard Hinv].
  split; [split|]; split.
  - by_evaluation.
  - apply Hguard. left. by_evaluation.
  - by_evaluation.
  - apply Hguard. right; right; left. by_evaluation.
  - split_and!; by_evaluation.
  - apply (Hinv sampleIdle (millis 99) (millis 99)); by_evaluation.
Defined.

Lemma resetPlaybackIterator_topics (results : list IteratorResult) (p : Player) :
  exists new,
    effects (snd (resetPlaybackIterator results p)) = effects p ++ new
    /\ Forall (fun e => forall topics, requestedTopics e = Some topics ->
                                      topics = ref_val (allTopics p)) new.
Proof.
  unfold resetPlaybackIterator. run_method.
  destruct (currentTime p) as [cur|]; cbn.
  - destruct (Time.add cur _) as [next|msg]; cbn.
    + destruct (isSome (playbackIterator p)); cbn; rewrite <- ?app_assoc;
        eexists; (split; [reflexivity|]); repeat constructor; cbn; congruence.
    + exists []. by rewrite app_nil_r.
  - exists []. by rewrite app_nil_r.
Qed.



(** ** The problem registry *)

Module PPM := PlayerProblemManager.

Lemma JsMap_delete_false {V : Type} (k : string) (m : JsMap.t V) :
  fst (JsMap.delete k m) = false -> snd (JsMap.delete k m) = m.
Proof.
  induction m as [|[k' v'] m IH]; simpl; [done|].
  destruct (String.eqb k k'); [done|].
  destruct (JsMap.delete k m) as [b rest]. simpl in *.
  intros ->. by rewrite IH.
Qed.

Lemma removeProblemsLoop_changed predicate todo byId :
  fst (PPM.removeProblemsLoop predicate todo byId true) = true.
Proof.
  revert byId. induction todo as [|[id problem] todo IH]; intros byId; simpl; [done|].
  destruct (predicate id problem); [|apply IH].
  destruct (JsMap.delete id byId) as [[] byId']; apply IH.
Qed.

Lemma removeProblemsLoop_unchanged predicate todo byId :
  fst (PPM.removeProblemsLoop predicate todo byId false) = false ->
  snd (PPM.removeProblemsLoop predicate todo byId false) = byId.
Proof.
  revert byId. induction todo as [|[id problem] todo IH]; intros byId; simpl; [done|].
  destruct (predicate id problem); [|apply IH].
  destruct (JsMap.delete id byId) as [deleted byId'] eqn:Hdel.
  destruct deleted.
  - rewrite removeProblemsLoop_changed. done.
  - intros H. rewrite (IH _ H).
    pose proof (JsMap_delete_false id byId) as Hsame.
    rewrite Hdel in Hsame. by apply Hsame.
Qed.

Lemma cacheCurrent_call (c : PPM.Call) (m : PPM.t) :
  cacheCurrent m -> cacheCurrent (PPM.call c m).
Proof.
  unfold cacheCurrent. destruct c as [| | |id|predicate|]; simpl; try done.
  - unfold PPM.problems. destruct (PPM.cache m) eqn:Hc; simpl; rewrite ?Hc; done.
  - unfold PPM.removeProblem.
    destruct (JsMap.delete id (PPM.problemsById m)) as [[] byId] eqn:Hdel; simpl; [done|].
    pose proof (JsMap_delete_false id (PPM.problemsById m)) as Hsame.
    rewrite Hdel in Hsame. simpl in Hsame. by rewrite Hsame.
  - unfold PPM.removeProblems.
    destruct (PPM.removeProblemsLoop predicate _ _ false) as [[] byId] eqn:Hloop;
      simpl; [done|].
    pose proof (removeProblemsLoop_unchanged predicate
                  (PPM.problemsById m) (PPM.problemsById m)) as Hsame.
    rewrite Hloop in Hsame. simpl in Hsame. by rewrite Hsame.
Qed.

Lemma cacheCurrent_calls (cs : list PPM.Call) (m : PPM.t) :
  cacheCurrent m -> cacheCurrent (PPM.calls cs m).
Proof.
  revert m. induction cs as [|c cs IH]; intros m H; simpl; [done|].
  apply IH, cacheCurrent_call, H.
Qed.

(** A call that is no mutation keeps the array and the map. *)
Lemma call_no_mutation (c : PPM.Call) (m : PPM.t) (arr : Ref (list PlayerProblem)) :
  PPM.mutates c m = false -> PPM.cache m = Some arr ->
  PPM.cache (PPM.call c m) = Some arr
  /\ PPM.problemsById (PPM.call c m) = PPM.problemsById m.
Proof.
  intros Hq Hc. destruct c as [| | |id|predicate|]; simpl in *; try done.
  - unfold PPM.problems. rewrite Hc. done.
  - unfold PPM.removeProblem in *.
    destruct (JsMap.delete id (PPM.problemsById m)) as [changed byId] eqn:Hdel.
    simpl in *. subst changed. split; [done|].
    pose proof (JsMap_delete_false id (PPM.problemsById m)) as Hsame.
    rewrite Hdel in Hsame. by apply Hsame.
  - unfold PPM.removeProblems in *.
    destruct (PPM.removeProblemsLoop predicate _ _ false) as [changed byId] eqn:Hloop.
    simpl in *. subst changed. split; [done|].
    pose proof (removeProblemsLoop_unchanged predicate
                  (PPM.problemsById m) (PPM.problemsById m)) as Hsame.
    rewrite Hloop in Hsame. by apply Hsame.
Qed.

Lemma calls_no_mutation (cs : list PPM.Call) (m : PPM.t) (arr : Ref (list PlayerProblem)) :
  PPM.noMutation cs m = true -> PPM.cache m = Some arr ->
  PPM.cache (PPM.calls cs m) = Some arr
  /\ PPM.problemsById (PPM.calls cs m) = PPM.problemsById m.
Proof.
  revert m. induction cs as [|c cs IH]; intros m Hq Hc; simpl in *; [done|].
  apply andb_true_iff in Hq as [Hq1 Hq2]. apply negb_true_iff in Hq1.
  destruct (call_no_mutation c m arr Hq1 Hc) as [Hc' Hm'].
  destruct (IH _ Hq2 Hc') as [? ?]. split; [done|]. congruence.
Qed.

Lemma problems_caches (m : PPM.t) :
  PPM.cache (snd (PPM.problems m)) = Some (fst (PPM.problems m))
  /\ PPM.problemsById (snd (PPM.problems m)) = PPM.problemsById m.
Proof. unfold PPM.problems. destruct (PPM.cache m) eqn:H; simpl; done. Qed.

(** C8. On a manager reached by any calls, [problems()] called twice with no
    mutation in between ([hasProblem], [problems] and removals that remove
    nothing may come between) returns the same array, identity included,
    and the array lists the registered problems. *)
Theorem problems_same_array (setup between : list PPM.Call) :
  PPM.noMutation between (snd (PPM.problems (PPM.calls setup PPM.new))) = true ->
  fst (PPM.problems (PPM.calls between (snd (PPM.problems (PPM.calls setup PPM.new)))))
    = fst (PPM.problems (PPM.calls setup PPM.new))
  /\ ref_val (fst (PPM.problems (PPM.calls setup PPM.new)))
     = JsMap.values (PPM.problemsById (PPM.calls setup PPM.new)).
Proof.
  intros Hq.
  set (m := PPM.calls setup PPM.new) in *.
  assert (cacheCurrent m) as Hm by (apply cacheCurrent_calls; exact I).
  destruct (problems_caches m) as [Hc Hb].
  destruct (calls_no_mutation between _ _ Hq Hc) as [Hc' Hb'].
  split.
  - unfold PPM.problems at 1. rewrite Hc'. done.
  - pose proof (cacheCurrent_call PPM.CallProblems m Hm) as H1.
    unfold cacheCurrent in H1. simpl in H1. rewrite Hc, Hb in H1. exact H1.
Qed.

Lemma problems_same_array_witness :
  let setup := [PPM.CallAddProblem "a" (mkProblem SevWarn "first" None None);
                PPM.CallAddProblem "b" (mkProblem SevError "second" None None);
                PPM.CallRemoveProblem "a"] in
  let between := [PPM.CallHasProblem "b"; PPM.CallRemoveProblem "a";
                  PPM.CallRemoveProblems (fun _ _ => false); PPM.CallProblems] in
  PPM.noMutation between (snd (PPM.problems (PPM.calls setup PPM.new))) = true
  /\ fst (PPM.problems (PPM.calls between (snd (PPM.problems (PPM.calls setup PPM.new)))))
     = mkRef 0 [mkProblem SevError "second" None None].
Proof.
  intros setup between. split.
  - vm_compute; reflexivity.
  - rewrite (proj1 (problems_same_array setup between ltac:(vm_compute; reflexivity))).
    vm_compute; reflexivity.
Defined.

(** ** The run loop and the close state *)

Lemma setState_pending_close (st : IterablePlayerState) (p : Player) :
  nextState p = Some Close -> setState st p = p.
Proof. intros H. unfold setState. rewrite H. done. Qed.

Lemma setStateAll_pending_close (requests : list IterablePlayerState) (p : Player) :
  nextState p = Some Close -> setStateAll requests p = p.
Proof.
  induction requests as [|st requests IH]; intros H; [done|].
  unfold setStateAll in *. simpl. rewrite setState_pending_close by done. by apply IH.
Qed.

Lemma handlersOf_app (es1 es2 : list Effect) :
  handlersOf (es1 ++ es2) = handlersOf es1 ++ handlersOf es2.
Proof.
  induction es1 as [|[] es1 IH]; cbn; congruence.
Qed.

Lemma setState_busy (st : IterablePlayerState) (p : Player) :
  runningState p = true ->
  nextState (setState st p) = Some (if bool_decide (nextState p = Some Close)
                                    then Close else st)
  /\ runningState (setState st p) = true
  /\ handlersRun (setState st p) = handlersRun p.
Proof.
  intros Hrun. unfold setState, runState, handlersRun.
  case_bool_decide as Hc; [by rewrite Hc|].
  cbn. destruct (abort p); cbn; rewrite Hrun; cbn; [|done].
  split; [done|]. split; [done|].
  rewrite handlersOf_app. cbn. by rewrite app_nil_r.
Qed.




(** ** Ticks *)

Arguments finishTick : simpl never.
Arguments tickIterate : simpl never.
Arguments tickBody : simpl never.
Arguments tick : simpl never.
Arguments pausePlayback : simpl never.

Lemma setState_Idle_playbackIterator (p : Player) :
  playbackIterator (setState Idle p) = playbackIterator p.
Proof.
  unfold setState, runState, runLoopHead.
  case_bool_decide; [done|]. cbn.
  destruct (abort p); cbn; destruct (runningState p); cbn; try reflexivity.
  all: rewrite !bool_decide_eq_true_2 by done; reflexivity.
Qed.

#[global] Hint Rewrite setState_Idle_playbackIterator : player.

Lemma sameClock_trans (p q r : Player) : sameClock p q -> sameClock q r -> sameClock p r.
Proof.
  unfold sameClock. intros (?&?&?&?&?&?&?) (?&?&?&?&?&?&?).
  repeat split; congruence.
Qed.

Lemma tickRead_sameClock (w : Time) (results : list IteratorResult)
    (msgs : list MessageEvent.t) (p : Player) :
  sameClock p (snd (tickRead w results msgs p)).
Proof.
  revert msgs p. induction results as [|result rest IH]; intros msgs p; cbn.
  - by repeat split.
  - destruct (isSome (nextState p)); cbn; [by repeat split|].
    destruct result as [m|cid problem|stamp].
    + destruct (_ >? _)%Z; cbn; [by repeat split|].
      eapply sameClock_trans; [|apply IH]. by repeat split.
    + eapply sameClock_trans; [|apply IH]. by repeat split.
    + destruct (_ >=? _)%Z; cbn; [by repeat split|].
      eapply sameClock_trans; [|apply IH]. by repeat split.
Qed.

(** The end of a tick. *)
Lemma finishTick_spec (w : Time) (msgs : list MessageEvent.t) (p : Player) :
  fst (finishTick w msgs p) = Ret tt
  /\ currentTime (snd (finishTick w msgs p)) = Some w
  /\ messages (snd (finishTick w msgs p)) = msgs
  /\ start (snd (finishTick w msgs p)) = start p
  /\ end_ (snd (finishTick w msgs p)) = end_ p
  /\ lastStamp (snd (finishTick w msgs p)) = lastStamp p
  /\ lastMessageEvent (snd (finishTick w msgs p)) = lastMessageEvent p
  /\ playbackIterator (snd (finishTick w msgs p)) = playbackIterator p
  /\ match untilTime p with
     | Some u =>
         if (Time.compare w u >=? 0)%Z
         then isPlaying (snd (finishTick w msgs p)) = false
         else isPlaying (snd (finishTick w msgs p)) = isPlaying p
              /\ untilTime (snd (finishTick w msgs p)) = Some u
     | None =>
         isPlaying (snd (finishTick w msgs p)) = isPlaying p
         /\ untilTime (snd (finishTick w msgs p)) = None
     end.
Proof.
  unfold finishTick, pausePlayback. run_method.
  destruct (untilTime p) as [u|] eqn:Hu; cbn; [|by rewrite Hu].
  destruct (Time.compare w u >=? 0)%Z; cbn; [|by rewrite Hu].
  destruct (isPlaying p) eqn:Hp; cbn; [|by rewrite Hp].
  case_bool_decide; cbn; autorewrite with player; cbn; done.
Qed.

(** ** [playUntil] *)

Lemma sameClock_samePlayback (p q : Player) : sameClock p q -> samePlayback p q.
Proof. unfold sameClock, samePlayback. intros (?&?&?&?&?&?&?). done. Qed.

Lemma untilBound_samePlayback (t : Time) (p q : Player) :
  samePlayback p q -> untilBound t p -> untilBound t q.
Proof.
  unfold samePlayback, untilBound. intros (Hs & Hc & Hp & Hu).
  rewrite Hs, Hc, Hp, Hu. done.
Qed.

Lemma clampTime_le_bound (x s u t : Time) :
  Time.le s t -> Time.le u t -> Time.le (Time.clampTime x s u) t.
Proof.
  intros Hs Hu.
  destruct (TimeFacts.clampTime_cases x s u) as [[_ ->]|[(_ & _ & ->)|(_ & H & ->)]];
    [done|done|]. by eapply TimeFacts.le_trans.
Qed.

Lemma finishTick_untilBound (t w : Time) (msgs : list MessageEvent.t) (q : Player)
    (s u : Time) :
  start q = Some s -> Time.le s t -> untilTime q = Some u -> Time.le u t ->
  Time.le w t ->
  untilBound t (snd (finishTick w msgs q)).
Proof.
  intros Hs Hst Hu Hut Hwt.
  destruct (finishTick_spec w msgs q) as (_ & Hc & _ & Hs' & _ & _ & _ & _ & Hpause).
  rewrite Hu in Hpause. split; [exists s; by rewrite Hs'|].
  exists w. split; [done|]. split; [done|].
  destruct (Z.geb_spec (Time.compare w u) 0) as [Hge|Hlt].
  - rewrite Hpause. done.
  - destruct Hpause as [_ Hu']. intros _. split; [|by exists u].
    eapply TimeFacts.lt_le_trans; [exact Hlt|done].
Qed.

Lemma tickIterate_untilBound (t w : Time) (msgs : list MessageEvent.t) (q : Player)
    (s u : Time) :
  untilBound t q ->
  start q = Some s -> Time.le s t -> untilTime q = Some u -> Time.le u t ->
  Time.le w t ->
  untilBound t (snd (tickIterate w msgs q)).
Proof.
  intros Hb Hs Hst Hu Hut Hwt. unfold tickIterate. run_method.
  destruct (playbackIterator q) as [results|]; cbn; [|done].
  pose proof (tickRead_sameClock w results msgs q) as Hsame.
  destruct (tickRead w results msgs q) as [msgs' q']. cbn in *.
  destruct Hsame as (Hs' & He' & Hc' & Hp' & Hu' & Hn' & Hm').
  destruct (isSome (nextState q')); cbn.
  - refine (untilBound_samePlayback t _ _ _ Hb). by repeat split.
  - eapply (finishTick_untilBound t w msgs' _ s u); cbn; congruence.
Qed.

Lemma tickBody_untilBound (t w : Time) (q : Player) (s u : Time) :
  untilBound t q ->
  start q = Some s -> Time.le s t -> untilTime q = Some u -> Time.le u t ->
  Time.le w t ->
  untilBound t (snd (tickBody w q)).
Proof.
  intros Hb Hs Hst Hu Hut Hwt. unfold tickBody. run_method.
  destruct (lastMessageEvent q) as [last|]; cbn.
  - destruct (_ >? _)%Z.
    + by eapply finishTick_untilBound.
    + by eapply tickIterate_untilBound.
  - by eapply tickIterate_untilBound.
Qed.

Lemma tick_untilBound (t : Time) (tickTime : Q) (p : Player) :
  untilBound t p -> untilBound t (snd (tick tickTime p)).
Proof.
  intros Hb. pose proof Hb as ((s & Hs & Hst) & cur & Hc & Hct & Hplay).
  unfold tick. run_method.
  destruct (isPlaying p) eqn:Hp; cbn; [|done].
  destruct Hplay as [Hlt (u & Hu & Hut)]; [done|].
  rewrite Hs. destruct (end_ p) as [e|] eqn:He; cbn; [|done].
  rewrite Hc. cbn.
  set (p1 := set_lastRangeMillis _ _).
  assert (untilBound t p1) as Hb1
    by (refine (untilBound_samePlayback t _ _ _ Hb); by repeat split).
  unfold tickEnd. destruct (Time.add cur _) as [target|msg]; cbn; [|done].
  rewrite Hu. cbn.
  assert (Time.le (Time.clampTime target s u) t) as Hwt
    by (by apply clampTime_le_bound).
  destruct (lastStamp p) as [stamp|]; cbn.
  - destruct (_ >=? _)%Z; cbn.
    + by eapply finishTick_untilBound.
    + by eapply tickBody_untilBound.
  - by eapply tickBody_untilBound.
Qed.

Lemma statePlayLoop_untilBound (t : Time) (ticks : list Q) (allTopics0 : nat)
    (p : Player) :
  untilBound t p -> untilBound t (snd (statePlayLoop ticks allTopics0 p)).
Proof.
  revert p. induction ticks as [|tickTime rest IH]; intros p Hb; cbn; [done|].
  run_method.
  destruct (_ && _); cbn; [|done].
  destruct (currentTime p) as [cur|] eqn:Hc; cbn; [|done].
  destruct (end_ p) as [e|]; cbn; [|done].
  destruct (_ >=? _)%Z; cbn.
  - refine (untilBound_samePlayback t _ _ _ Hb).
    unfold samePlayback. autorewrite with player. cbn. done.
  - pose proof (tick_untilBound t tickTime p Hb) as Hb'.
    destruct (tick tickTime p) as [[[]|msg] p']; cbn in *; [|done].
    destruct (isSome (nextState p')); cbn; [done|].
    destruct (negb _); cbn; [|by apply IH].
    refine (untilBound_samePlayback t _ _ _ Hb').
    unfold samePlayback. autorewrite with player. cbn. done.
Qed.

Lemma setError_untilBound (t : Time) (msg : string) (p : Player) :
  untilBound t p -> untilBound t (setError msg p).
Proof.
  intros (Hs & cur & Hc & Hct & _). split; [exact Hs|].
  exists cur. cbn. done.
Qed.

Lemma statePlay_untilBound (t : Time) (ticks : list Q) (p : Player) :
  untilBound t p -> untilBound t (snd (statePlay ticks p)).
Proof.
  intros Hb. unfold statePlay. run_method.
  assert (untilBound t (set_presence PRESENT p)) as Hb1
    by (refine (untilBound_samePlayback t _ _ _ Hb); by repeat split).
  destruct (negb (isSome (currentTime p))); cbn; [done|].
  destruct (_ || _); cbn; [done|].
  pose proof (statePlayLoop_untilBound t ticks (ref_id (allTopics p)) _ Hb1) as Hb2.
  destruct (statePlayLoop _ _ _) as [[[]|msg] p']; cbn in *; [done|].
  refine (untilBound_samePlayback t _ _ _ (setError_untilBound t msg _ Hb2)).
  by repeat split.
Qed.

Lemma playUntil_untilBound (t s cur : Time) (p : Player) :
  isPlaying p = false -> untilTime p = None ->
  start p = Some s -> end_ p <> None -> currentTime p = Some cur ->
  Time.le s cur -> Time.lt cur t ->
  fst (playUntil t p) = Ret tt
  /\ isPlaying (snd (playUntil t p)) = true
  /\ untilBound t (snd (playUntil t p)).
Proof.
  intros Hp Hu Hs He Hc Hsc Hct.
  unfold playUntil, startPlayImpl. run_method.
  rewrite Hp, Hu, Hs, Hc. destruct (end_ p) as [e|]; [|done]. cbn.
  assert ((Time.compare t cur <=? 0)%Z = false) as ->.
  { apply Z.leb_gt. by apply TimeFacts.compare_antisym. }
  cbn.
  assert (Time.le s t) as Hst
    by (eapply TimeFacts.le_trans; [exact Hsc|by apply TimeFacts.lt_le]).
  assert (Time.le (Time.clampTime t s e) t) as Hut.
  { destruct (TimeFacts.clampTime_cases t s e) as [[_ ->]|[(_ & H & ->)|(_ & _ & ->)]];
      [done|by apply TimeFacts.lt_le|apply TimeFacts.le_refl]. }
  destruct (_ && _); cbn; autorewrite with player; cbn.
  all: split; [done|]; split; [done|].
  all: split; [exists s; by autorewrite with player|].
  all: exists cur; autorewrite with player; cbn.
  all: split; [done|]; split; [by apply TimeFacts.lt_le|].
  all: intros _; split; [done|]; by eexists.
Qed.




(** ** The window of a tick *)

Lemma after_not_notAfter (w : Time) (m : MessageEvent.t) :
  after w m = true -> notAfter w m = false.
Proof.
  unfold after, notAfter, Time.ltb, Time.leb. intros H.
  apply Z.ltb_lt, TimeFacts.compare_antisym in H. apply Z.leb_gt. exact H.
Qed.

Lemma notAfter_not_after (w : Time) (m : MessageEvent.t) :
  notAfter w m = true -> after w m = false.
Proof.
  unfold after, notAfter, Time.ltb, Time.leb. intros H.
  apply Z.leb_le, TimeFacts.le_ge in H. apply Z.ltb_ge. exact H.
Qed.

Lemma after_later (w : Time) (m : MessageEvent.t) (l : list MessageEvent.t) :
  after w m = true ->
  forallb (fun m' => Time.leb (MessageEvent.receiveTime m)
                       (MessageEvent.receiveTime m')) l = true ->
  forallb (after w) l = true.
Proof.
  intros Hm. induction l as [|m' l IH]; cbn; [done|].
  intros [H1 H2]%andb_true_iff. rewrite IH by done. rewrite andb_true_r.
  apply TimeFacts.ltb_lt. apply TimeFacts.ltb_lt in Hm. apply TimeFacts.leb_le in H1.
  by eapply TimeFacts.lt_le_trans.
Qed.

Lemma after_stamp (w stamp : Time) (l : list MessageEvent.t) :
  Time.le w stamp ->
  forallb (after stamp) l = true -> forallb (after w) l = true.
Proof.
  intros Hw. induction l as [|m' l IH]; cbn; [done|].
  intros [H1 H2]%andb_true_iff. rewrite IH by done. rewrite andb_true_r.
  apply TimeFacts.ltb_lt. apply TimeFacts.ltb_lt in H1.
  by eapply TimeFacts.le_lt_trans.
Qed.

(** A list cut where the window ends: the part in the window is the first
    part, the part after the window the rest. *)
Lemma filter_window (cur w : Time) (batch rest : list MessageEvent.t) :
  forallb (after cur) batch = true -> forallb (notAfter w) batch = true ->
  forallb (after w) rest = true ->
  List.filter (inWindow cur w) (batch ++ rest) = batch
  /\ List.filter (after w) (batch ++ rest) = rest.
Proof.
  intros Hb1 Hb2 Hr. induction batch as [|m batch IH]; cbn in *.
  - clear Hb1 Hb2. induction rest as [|m rest IH]; cbn in *; [done|].
    apply andb_true_iff in Hr as [Hm Hr]. destruct (IH Hr) as [IH1 IH2].
    assert (inWindow cur w m = false) as ->
      by (unfold inWindow; by rewrite (after_not_notAfter w m Hm), andb_false_r).
    by rewrite Hm, IH1, IH2.
  - apply andb_true_iff in Hb1 as [Hm1 Hb1]. apply andb_true_iff in Hb2 as [Hm2 Hb2].
    destruct (IH Hb1 Hb2) as [IH1 IH2].
    assert (inWindow cur w m = true) as -> by (unfold inWindow; by rewrite Hm1, Hm2).
    by rewrite (notAfter_not_after w m Hm2), IH1, IH2.
Qed.

Lemma streamOrdered_tail (r : IteratorResult) (rest : list IteratorResult) :
  streamOrdered (r :: rest) = true -> streamOrdered rest = true.
Proof. destruct r; cbn; [|done|]; by intros [_ ?]%andb_true_iff. Qed.

(** The read loop of a tick on an ordered stream, with nothing requested and
    nothing kept from the tick before: it returns the messages up to the end
    of the window, in order, and leaves pending the ones after it. *)
Lemma tickRead_window (w : Time) (results : list IteratorResult)
    (msgs : list MessageEvent.t) (p : Player) :
  nextState p = None -> lastMessageEvent p = None -> lastStamp p = None ->
  streamOrdered results = true ->
  exists batch,
    fst (tickRead w results msgs p) = msgs ++ batch
    /\ messagesOf results = batch ++ pendingMessages (snd (tickRead w results msgs p))
    /\ forallb (notAfter w) batch = true
    /\ forallb (after w) (pendingMessages (snd (tickRead w results msgs p))) = true
    /\ streamOrdered (pendingResults (snd (tickRead w results msgs p))) = true
    /\ match lastStamp (snd (tickRead w results msgs p)) with
       | Some stamp =>
           forallb (after stamp) (pendingMessages (snd (tickRead w results msgs p)))
             = true
       | None => True
       end.
Proof.
  revert msgs p. induction results as [|result rest IH]; intros msgs p Hn Hl Hs Ho.
  - exists []. cbn. unfold pendingMessages, pendingResults. cbn. rewrite Hl, Hs.
    by rewrite app_nil_r.
  - cbn [tickRead]. cbn. rewrite Hn. cbn.
    destruct result as [m|cid problem|stamp].
    + destruct (Z.gtb_spec (Time.compare (MessageEvent.receiveTime m) w) 0) as [Hgt|Hle].
      * exists []. unfold pendingMessages, pendingResults. cbn. rewrite Hs, app_nil_r.
        cbn in Ho. apply andb_true_iff in Ho as [Ho1 Ho2].
        assert (after w m = true) as Hm.
        { apply TimeFacts.ltb_lt, TimeFacts.compare_antisym. lia. }
        repeat split; try done.
        -- rewrite Hm. cbn. by eapply after_later.
        -- by rewrite Ho1, Ho2.
      * destruct (IH (msgs ++ [m]) (set_playbackIterator (Some rest) p))
          as (batch & H1 & H2 & H3 & H4 & H5 & H6); try done.
        { by eapply streamOrdered_tail. }
        exists (m :: batch). rewrite H1, <- app_assoc. cbn.
        split; [done|]. split; [by rewrite H2|]. split; [|done].
        rewrite H3, andb_true_r. apply Z.leb_le. lia.
    + destruct (IH msgs
                  (set_problemManager
                     (PlayerProblemManager.addProblem ("connid-" +:+ pretty cid) problem
                        (problemManager p))
                     (set_playbackIterator (Some rest) p)))
        as (batch & H); try done.
      exists batch. exact H.
    + cbn in Ho. apply andb_true_iff in Ho as [Ho1 Ho2].
      destruct (Z.geb_spec (Time.compare stamp w) 0) as [Hge|Hlt].
      * exists []. unfold pendingMessages, pendingResults. cbn. rewrite Hl, app_nil_r.
        cbn. repeat split; try done.
        eapply after_stamp; [|exact Ho1]. apply TimeFacts.le_ge. lia.
      * destruct (IH msgs (set_playbackIterator (Some rest) p))
          as (batch & H); try done.
        exists batch. exact H.
Qed.

Lemma finishTick_delivers (cur w : Time) (batch : list MessageEvent.t) (q : Player) :
  forallb (after cur) batch = true -> forallb (notAfter w) batch = true ->
  forallb (after w) (pendingMessages q) = true ->
  streamOrdered (pendingResults q) = true ->
  match lastStamp q with
  | Some stamp => forallb (after stamp) (pendingMessages q) = true
  | None => True
  end ->
  fst (finishTick w batch q) = Ret tt
  /\ tickDelivered cur w (batch ++ pendingMessages q) (snd (finishTick w batch q)).
Proof.
  intros Hb1 Hb2 Hr Ho Hs.
  destruct (finishTick_spec w batch q) as (Hret & Hc & Hm & _ & _ & Hls & Hlm & Hit & _).
  split; [done|].
  assert (pendingResults (snd (finishTick w batch q)) = pendingResults q) as Hpr
    by (unfold pendingResults; by rewrite Hlm, Hit).
  assert (pendingMessages (snd (finishTick w batch q)) = pendingMessages q) as Hpm
    by (unfold pendingMessages; by rewrite Hpr).
  destruct (filter_window cur w batch (pendingMessages q) Hb1 Hb2 Hr) as [Hf1 Hf2].
  unfold tickDelivered. rewrite Hc, Hm, Hpm, Hf1, Hf2.
  repeat split; try done.
  unfold streamReady. rewrite Hpr, Hpm, Hls, Ho, Hr. cbn.
  destruct (lastStamp q); done.
Qed.

Lemma clampTime_advances (cur target s hi : Time) :
  Time.lt cur target -> Time.lt cur hi -> Time.lt cur (Time.clampTime target s hi).
Proof.
  intros Ht Hh.
  destruct (TimeFacts.clampTime_cases target s hi)
    as [[H ->]|[(_ & _ & ->)|(_ & _ & ->)]]; [|done|done].
  exact (TimeFacts.lt_trans _ _ _ Ht H).
Qed.

Lemma messagesOf_app (a b : list IteratorResult) :
  messagesOf (a ++ b) = messagesOf a ++ messagesOf b.
Proof. induction a as [|[] a IH]; cbn; congruence. Qed.

Lemma tickIterate_delivers (cur w : Time) (kept : list MessageEvent.t)
    (results : list IteratorResult) (q : Player) :
  nextState q = None -> lastMessageEvent q = None -> lastStamp q = None ->
  playbackIterator q = Some results ->
  streamOrdered results = true ->
  forallb (after cur) (kept ++ messagesOf results) = true ->
  forallb (notAfter w) kept = true ->
  fst (tickIterate w kept q) = Ret tt
  /\ tickDelivered cur w (kept ++ messagesOf results) (snd (tickIterate w kept q)).
Proof.
  intros Hn Hl Hs Hit Ho Hcur Hkept.
  unfold tickIterate. run_method. rewrite Hit.
  destruct (tickRead_window w results kept q Hn Hl Hs Ho)
    as (batch & H1 & H2 & H3 & H4 & H5 & H6).
  pose proof (tickRead_sameClock w results kept q) as (_ & _ & _ & _ & _ & Hn' & _).
  destruct (tickRead w results kept q) as [msgs' q']. cbn in *.
  rewrite Hn', Hn. cbn. subst msgs'.
  rewrite H2, app_assoc.
  apply (finishTick_delivers cur w (kept ++ batch) (set_presence PRESENT q')); try done.
  - rewrite H2, app_assoc, forallb_app in Hcur.
    by apply andb_true_iff in Hcur as [? _].
  - by rewrite forallb_app, Hkept, H3.
Qed.




(** The stamp kept in [#lastStamp] is not dropped when the iterator is made
    anew.  On the sample player, the start window keeps the stamp of 400 ms
    read for [/a]; a [setSubscriptions] then adds [/b], whose message at
    200 ms the new iterator yields first; the next tick, at speed 10, ends
    its window (99 ms, 299 ms] on the stale stamp with an empty batch, and
    the message of 200 ms stays pending behind the new time. *)
Lemma stale_stamp_skips_window :
  let p := snd (setPlaybackSpeed 10 (playFrom idleAfterResubscribe)) in
  currentTime p = Some (millis 99)
  /\ lastStamp p = Some (millis 400)
  /\ pendingMessages p
     = [sampleMessage "/b" 200; sampleMessage "/a" 500; sampleMessage "/a" 999]
  /\ streamReady (millis 99) p = false
  /\ fst (tick 1000 p) = Ret tt
  /\ currentTime (snd (tick 1000 p)) = Some (millis 299)
  /\ messages (snd (tick 1000 p)) = []
  /\ List.filter (inWindow (millis 99) (millis 299)) (pendingMessages p)
     = [sampleMessage "/b" 200].
Proof. intros p. split_and!; by_evaluation. Qed.

(** ** Initialization and duplicate topics *)

Lemma aboutTopic_inconsistentDatatype (n : string) (existing topic : Topic.t) :
  aboutTopic n (inconsistentDatatype existing topic) = named n topic.
Proof. reflexivity. Qed.

Lemma filter_snoc {A : Type} (f : A -> bool) (l : list A) (x : A) :
  List.filter f (l ++ [x]) = List.filter f l ++ (if f x then [x] else []).
Proof. by rewrite List.filter_app. Qed.

Arguments named : simpl never.
Arguments aboutTopic : simpl never.
Arguments JsMap.values : simpl never.

(** The loop over the topics, for a name the map holds already: every
    later topic of that name adds a warning and none is stored. *)
Lemma dedupTopics_known (n : string) (topics : list Topic.t)
    (uniqueTopics : JsMap.t Topic.t) (problems : list PlayerProblem) (first : Topic.t) :
  JsMap.get n uniqueTopics = Some first ->
  List.filter (aboutTopic n) (snd (dedupTopics topics uniqueTopics problems))
    = List.filter (aboutTopic n) problems
      ++ map (inconsistentDatatype first) (List.filter (named n) topics)
  /\ List.filter (named n) (JsMap.values (fst (dedupTopics topics uniqueTopics problems)))
     = List.filter (named n) (JsMap.values uniqueTopics).
Proof.
  revert uniqueTopics problems.
  induction topics as [|topic rest IH]; intros uniqueTopics problems Hget; cbn.
  - by rewrite app_nil_r.
  - destruct (named n topic) eqn:Hnamed.
    + assert (Topic.name topic = n) as Hn by (by apply String.eqb_eq).
      rewrite Hn, Hget. destruct (IH uniqueTopics
        (problems ++ [inconsistentDatatype first topic]) Hget) as [IH1 IH2].
      rewrite IH1, IH2, filter_snoc, aboutTopic_inconsistentDatatype, Hnamed.
      rewrite <- app_assoc. done.
    + assert (Topic.name topic <> n) as Hn by (by apply String.eqb_neq).
      destruct (JsMap.get (Topic.name topic) uniqueTopics) as [existing|] eqn:Hex.
      * destruct (IH uniqueTopics
          (problems ++ [inconsistentDatatype existing topic]) Hget) as [IH1 IH2].
        rewrite IH1, IH2, filter_snoc, aboutTopic_inconsistentDatatype, Hnamed.
        rewrite app_nil_r. done.
      * destruct (IH (JsMap.set (Topic.name topic) topic uniqueTopics) problems)
          as [IH1 IH2].
        { rewrite JsMapFacts.get_set_ne by done. exact Hget. }
        rewrite IH1, IH2, JsMapFacts.values_set_fresh, filter_snoc, Hnamed by done.
        rewrite app_nil_r. done.
Qed.

(** The same for a name the map does not hold yet: the first topic of that
    name is stored, every later one adds a warning against it. *)
Lemma dedupTopics_new (n : string) (topics : list Topic.t)
    (uniqueTopics : JsMap.t Topic.t) (problems : list PlayerProblem) :
  JsMap.get n uniqueTopics = None ->
  List.filter (aboutTopic n) (snd (dedupTopics topics uniqueTopics problems))
    = List.filter (aboutTopic n) problems
      ++ match List.filter (named n) topics with
         | [] => []
         | first :: later => map (inconsistentDatatype first) later
         end
  /\ List.filter (named n) (JsMap.values (fst (dedupTopics topics uniqueTopics problems)))
     = List.filter (named n) (JsMap.values uniqueTopics)
       ++ match List.filter (named n) topics with
          | [] => []
          | first :: _ => [first]
          end.
Proof.
  revert uniqueTopics problems.
  induction topics as [|topic rest IH]; intros uniqueTopics problems Hget; cbn.
  - by rewrite !app_nil_r.
  - destruct (named n topic) eqn:Hnamed.
    + assert (Topic.name topic = n) as Hn by (by apply String.eqb_eq).
      rewrite Hn, Hget.
      destruct (dedupTopics_known n rest (JsMap.set n topic uniqueTopics) problems topic)
        as [H1 H2]; [apply JsMapFacts.get_set_eq|].
      rewrite H1, H2, JsMapFacts.values_set_fresh, filter_snoc, Hnamed by done. done.
    + assert (Topic.name topic <> n) as Hn by (by apply String.eqb_neq).
      destruct (JsMap.get (Topic.name topic) uniqueTopics) as [existing|] eqn:Hex.
      * destruct (IH uniqueTopics
          (problems ++ [inconsistentDatatype existing topic]) Hget) as [IH1 IH2].
        rewrite IH1, IH2, filter_snoc, aboutTopic_inconsistentDatatype, Hnamed.
        rewrite app_nil_r. done.
      * destruct (IH (JsMap.set (Topic.name topic) topic uniqueTopics) problems)
          as [IH1 IH2].
        { rewrite JsMapFacts.get_set_ne by done. exact Hget. }
        rewrite IH1, IH2, JsMapFacts.values_set_fresh, filter_snoc, Hnamed by done.
        rewrite app_nil_r. done.
Qed.

Lemma initProblemKey_inj (i j : nat) :
  "init-problem-" +:+ pretty i = "init-problem-" +:+ pretty j -> i = j.
Proof. cbn. intros H. injection H as H. by apply (inj pretty). Qed.

(** The loop over the problems adds them in order, under keys of its own. *)
Lemma addInitProblems_appends (problems : list PlayerProblem) (idx : nat)
    (pm : PlayerProblemManager.t) :
  (forall j : nat, idx <= j ->
     JsMap.get ("init-problem-" +:+ pretty j) (PlayerProblemManager.problemsById pm)
       = None) ->
  JsMap.values (PlayerProblemManager.problemsById (addInitProblems problems idx pm))
    = JsMap.values (PlayerProblemManager.problemsById pm) ++ problems
  /\ (forall k, (forall j : nat, k <> "init-problem-" +:+ pretty j) ->
        JsMap.get k (PlayerProblemManager.problemsById (addInitProblems problems idx pm))
          = JsMap.get k (PlayerProblemManager.problemsById pm)).
Proof.
  revert idx pm. induction problems as [|problem rest IH]; intros idx pm Hfresh.
  - cbn. by rewrite app_nil_r.
  - cbn [addInitProblems].
    destruct (IH (S idx)
                (PlayerProblemManager.addProblem ("init-problem-" +:+ pretty idx)
                   problem pm)) as [IH1 IH2].
    { intros j Hj. cbn [PlayerProblemManager.addProblem PlayerProblemManager.problemsById].
      rewrite JsMapFacts.get_set_ne; [apply Hfresh; lia|].
      intros Heq. apply initProblemKey_inj in Heq. lia. }
    split.
    + rewrite IH1. cbn [PlayerProblemManager.addProblem PlayerProblemManager.problemsById].
      rewrite JsMapFacts.values_set_fresh by (apply Hfresh; lia).
      by rewrite <- app_assoc.
    + intros k Hk. rewrite IH2 by done.
      cbn [PlayerProblemManager.addProblem PlayerProblemManager.problemsById].
      by rewrite JsMapFacts.get_set_ne.
Qed.

(** C5. When the source lists two topics of one name, [t1] before [t2],
    initialization returns normally and raises no error; the provider topics
    keep [t1] and drop [t2]; and the registry gains one problem about that
    name, the warning of [t1] against [t2] (next to whatever the source
    reported itself). *)
Theorem initialize_keeps_first_topic (toRFC3339String : Time -> string) (p : Player)
    (init : Initialization) (blockLoaderCtor : Result unit) (n : string)
    (t1 t2 : Topic.t) :
  List.filter (named n) (init_topics init) = [t1; t2] ->
  PlayerProblemManager.problemsById (problemManager p) = [] ->
  fst (stateInitialize toRFC3339String (Ret init) blockLoaderCtor p) = Ret tt
  /\ hasError (snd (stateInitialize toRFC3339String (Ret init) blockLoaderCtor p))
     = hasError p
  /\ List.filter (named n)
       (providerTopics (snd (stateInitialize toRFC3339String (Ret init) blockLoaderCtor p)))
     = [t1]
  /\ List.filter (aboutTopic n)
       (JsMap.values (PlayerProblemManager.problemsById
          (problemManager
             (snd (stateInitialize toRFC3339String (Ret init) blockLoaderCtor p)))))
     = List.filter (aboutTopic n) (init_problems init) ++ [inconsistentDatatype t1 t2].
Proof.
  intros Htopics Hempty.
  destruct (dedupTopics_new n (init_topics init) JsMap.empty (init_problems init))
    as [Hwarn Hkeep]; [done|].
  rewrite Htopics in Hwarn, Hkeep. cbn [map] in Hwarn.
  change (JsMap.values JsMap.empty) with (@nil Topic.t) in Hkeep.
  cbn [List.filter app] in Hkeep.
  destruct (addInitProblems_appends
              (snd (dedupTopics (init_topics init) JsMap.empty (init_problems init)))
              0 (problemManager p)) as [Hvalues Hother].
  { intros j _. by rewrite Hempty. }
  rewrite Hempty in Hvalues.
  change (JsMap.values [] ++ ?x) with x in Hvalues.
  unfold stateInitialize. run_method.
  destruct (dedupTopics (init_topics init) JsMap.empty (init_problems init))
    as [uniqueTopics problems] eqn:Hdedup. cbn [fst snd] in *.
  assert (JsMap.get "block-loader"
            (PlayerProblemManager.problemsById
               (addInitProblems problems 0 (problemManager p))) = None) as Hloader.
  { rewrite Hother, Hempty; [done|]. intros j. cbn. discriminate. }
  destruct (seekTarget p); cbn; destruct (enablePreload p); cbn;
    try destruct blockLoaderCtor as [[]|msg]; cbn;
    destruct (hasError p) eqn:Herr; cbn; try destruct (blockLoader p); cbn;
    autorewrite with player; cbn;
    (split; [done|]); (split; [done|]); (split; [exact Hkeep|]);
    rewrite ?JsMapFacts.values_set_fresh, ?filter_snoc by done;
    rewrite Hvalues, Hwarn; by rewrite ?app_nil_r.
Qed.

Lemma initialize_keeps_first_topic_witness :
  (List.filter (named "/a") (init_topics sampleInit)
     = [Topic.mk "/a" (Some "A"); Topic.mk "/a" (Some "C")]
   /\ PlayerProblemManager.problemsById (problemManager (newPlayer None None)) = [])
  /\ List.filter (named "/a")
       (providerTopics
          (snd (stateInitialize (fun _ => "") (Ret sampleInit) (Ret tt)
                  (newPlayer None None))))
     = [Topic.mk "/a" (Some "A")].
Proof.
  split.
  - split; by_evaluation.
  - apply (initialize_keeps_first_topic (fun _ => "") (newPlayer None None) sampleInit
             (Ret tt) "/a" (Topic.mk "/a" (Some "A")) (Topic.mk "/a" (Some "C")));
      by_evaluation.
Defined.

(** ** The snapshot *)

(** The batch set by a tick is what the next snapshot carries, once: the
    emit hands [#messages] to the listener and clears it. *)
Lemma emitStateImpl_hands_over_batch (p : Player) (s e cur : Time) :
  listener p = true -> hasError p = false ->
  start p = Some s -> end_ p = Some e -> currentTime p = Some cur ->
  exists snapshot data,
    fst (emitStateImpl p) = Some snapshot
    /\ PlayerState.activeData snapshot = Some data
    /\ ActiveData.messages data = messages p
    /\ ActiveData.currentTime data = cur
    /\ messages (snd (emitStateImpl p)) = [].
Proof.
  intros Hl Herr Hs He Hc. unfold emitStateImpl. rewrite Hl, Herr. cbn.
  destruct (PlayerProblemManager.problems (problemManager p)) as [arr pm]. cbn.
  rewrite Hs, He, Hc. by eexists _, _.
Qed.
(** ** More on the problem registry *)

Lemma keysOf_set {V : Type} (k : string) (v : V) (m : JsMap.t V) :
  keysOf (JsMap.set k v m)
  = if JsMap.has k m then keysOf m else keysOf m ++ [k].
Proof.
  unfold JsMap.has, keysOf. induction m as [|[k' v'] m IH]; cbn; [done|].
  destruct (String.eqb_spec k k') as [->|Hne]; cbn; [done|].
  rewrite IH. by destruct (JsMap.get k m).
Qed.

Lemma has_keysOf {V : Type} (k : string) (m : JsMap.t V) :
  JsMap.has k m = true <-> k ∈ keysOf m.
Proof.
  unfold JsMap.has, keysOf. induction m as [|[k' v'] m IH]; cbn.
  - split; [done|]. by intros ?%elem_of_nil.
  - rewrite elem_of_cons. destruct (String.eqb_spec k k') as [->|Hne].
    + split; [by left|done].
    + rewrite IH. split; [by right|]. by intros [?|?].
Qed.

Lemma keysOf_set_NoDup {V : Type} (k : string) (v : V) (m : JsMap.t V) :
  NoDup (keysOf m) -> NoDup (keysOf (JsMap.set k v m)).
Proof.
  intros H. rewrite keysOf_set. destruct (JsMap.has k m) eqn:Hk; [done|].
  apply NoDup_app. split; [done|]. split; [|apply NoDup_singleton].
  intros x Hx ->%list_elem_of_singleton.
  apply has_keysOf in Hx. congruence.
Qed.

(** On a map with unique keys, [delete] tells whether the key was there and
    leaves the other entries, in order. *)
Lemma delete_spec {V : Type} (k : string) (m : JsMap.t V) :
  NoDup (keysOf m) ->
  JsMap.delete k m
  = (JsMap.has k m, List.filter (fun e => negb (String.eqb k (fst e))) m).
Proof.
  unfold JsMap.has, keysOf. induction m as [|[k' v'] m IH]; cbn; [done|].
  intros [Hk' Hm]%NoDup_cons.
  destruct (String.eqb_spec k k') as [->|Hne]; cbn.
  - f_equal. symmetry. apply forallb_filter_id, forallb_forall.
    intros [k v] Hin. cbn. apply negb_true_iff, String.eqb_neq. intros <-.
    apply Hk'. apply list_elem_of_In. apply in_map_iff. by exists (k', v).
  - rewrite (IH Hm). by destruct (JsMap.get k m).
Qed.

Lemma keysOf_filter_NoDup {V : Type} (f : string * V -> bool) (m : JsMap.t V) :
  NoDup (keysOf m) -> NoDup (keysOf (List.filter f m)).
Proof.
  unfold keysOf. induction m as [|[k v] m IH]; cbn; [done|].
  intros [Hk Hm]%NoDup_cons. destruct (f (k, v)); cbn; [|by apply IH].
  apply NoDup_cons. split; [|by apply IH].
  intros Hin. apply Hk. apply list_elem_of_In, in_map_iff in Hin as ([k' v'] & <- & Hin).
  apply filter_In in Hin as [Hin _].
  apply list_elem_of_In, in_map_iff. by exists (k', v').
Qed.

Lemma get_filter_ne {V : Type} (k k' : string) (m : JsMap.t V) :
  k' <> k ->
  JsMap.get k' (List.filter (fun e => negb (String.eqb k (fst e))) m) = JsMap.get k' m.
Proof.
  intros Hne. induction m as [|[k0 v0] m IH]; cbn; [done|].
  destruct (String.eqb_spec k k0) as [->|Hk]; cbn.
  - destruct (String.eqb_spec k' k0); [done|apply IH].
  - by rewrite IH.
Qed.

Lemma get_filter_eq {V : Type} (k : string) (m : JsMap.t V) :
  JsMap.get k (List.filter (fun e => negb (String.eqb k (fst e))) m) = None.
Proof.
  induction m as [|[k0 v0] m IH]; cbn; [done|].
  destruct (String.eqb_spec k k0) as [->|Hk]; cbn; [done|].
  destruct (String.eqb_spec k k0); [done|apply IH].
Qed.

(** The loop of [removeProblems] on a map with unique keys: [kept] are the
    entries visited and left in place. *)
Lemma removeProblemsLoop_spec predicate (kept todo : JsMap.t PlayerProblem) changed :
  NoDup (keysOf (kept ++ todo)) ->
  PPM.removeProblemsLoop predicate todo (kept ++ todo) changed
  = (changed || existsb (onEntry predicate) todo,
     kept ++ List.filter (fun e => negb (onEntry predicate e)) todo).
Proof.
  revert kept changed. induction todo as [|[id problem] todo IH]; intros kept changed Hnd.
  - cbn. by rewrite orb_false_r.
  - cbn [PPM.removeProblemsLoop existsb List.filter]. unfold onEntry at 1 3. cbn [fst snd].
    destruct (predicate id problem) eqn:Hp; cbn [negb].
    + rewrite delete_spec by done.
      assert (JsMap.has id (kept ++ (id, problem) :: todo) = true) as ->.
      { apply has_keysOf. unfold keysOf. rewrite map_app. cbn.
        apply elem_of_app. right. apply list_elem_of_here. }
      assert (List.filter (fun e => negb (String.eqb id (fst e)))
                (kept ++ (id, problem) :: todo) = kept ++ todo) as ->.
      { unfold keysOf in Hnd. rewrite map_app in Hnd. cbn in Hnd.
        apply NoDup_app in Hnd as (_ & Hdisj & [Hid _]%NoDup_cons).
        rewrite List.filter_app. cbn. rewrite String.eqb_refl. cbn. f_equal.
        - apply forallb_filter_id, forallb_forall. intros [k v] Hin. cbn.
          apply negb_true_iff, String.eqb_neq. intros <-.
          apply (Hdisj id); [|apply list_elem_of_here].
          apply list_elem_of_In, in_map_iff. by exists (id, v).
        - apply forallb_filter_id, forallb_forall. intros [k v] Hin. cbn.
          apply negb_true_iff, String.eqb_neq. intros <-.
          apply Hid. apply list_elem_of_In, in_map_iff. by exists (id, v). }
      rewrite IH.
      * by rewrite orb_true_r.
      * unfold keysOf in *. rewrite map_app in *. cbn in Hnd.
        apply NoDup_app in Hnd as (H1 & H2 & [H3 H4]%NoDup_cons).
        apply NoDup_app. split; [done|]. split; [|done].
        intros x Hx Hx'. apply (H2 x Hx). by apply list_elem_of_further.
    + replace (kept ++ (id, problem) :: todo) with ((kept ++ [(id, problem)]) ++ todo)
        by (by rewrite <- app_assoc).
      rewrite IH.
      * by rewrite <- app_assoc.
      * by rewrite <- app_assoc.
Qed.

Lemma removeProblemsLoop_whole predicate (byId : JsMap.t PlayerProblem) :
  NoDup (keysOf byId) ->
  PPM.removeProblemsLoop predicate byId byId false
  = (existsb (onEntry predicate) byId,
     List.filter (fun e => negb (onEntry predicate e)) byId).
Proof. intros H. exact (removeProblemsLoop_spec predicate [] byId false H). Qed.

(** The maps of the registry have unique keys. *)
Lemma call_NoDup (c : PPM.Call) (m : PPM.t) :
  NoDup (keysOf (PPM.problemsById m)) -> NoDup (keysOf (PPM.problemsById (PPM.call c m))).
Proof.
  intros H. destruct c as [|id problem|id|id|predicate|]; cbn [PPM.call]; try done.
  - by rewrite (proj2 (problems_caches m)).
  - by apply keysOf_set_NoDup.
  - unfold PPM.removeProblem. rewrite delete_spec by done. cbn.
    by apply keysOf_filter_NoDup.
  - unfold PPM.removeProblems.
    rewrite removeProblemsLoop_whole by done.
    cbn. by apply keysOf_filter_NoDup.
  - cbn. apply NoDup_nil_2.
Qed.

Lemma calls_NoDup (cs : list PPM.Call) (m : PPM.t) :
  NoDup (keysOf (PPM.problemsById m)) -> NoDup (keysOf (PPM.problemsById (PPM.calls cs m))).
Proof.
  revert m. induction cs as [|c cs IH]; intros m H; cbn; [done|].
  by apply IH, call_NoDup.
Qed.

Lemma reachable_NoDup (setup : list PPM.Call) :
  NoDup (keysOf (PPM.problemsById (PPM.calls setup PPM.new))).
Proof. apply calls_NoDup. apply NoDup_nil_2. Qed.

Lemma problems_lists (m : PPM.t) :
  cacheCurrent m -> ref_val (fst (PPM.problems m)) = JsMap.values (PPM.problemsById m).
Proof.
  unfold cacheCurrent, PPM.problems. by destruct (PPM.cache m).
Qed.

Lemma values_set {V : Type} (k : string) (v : V) (m : JsMap.t V) :
  In v (JsMap.values (JsMap.set k v m))
  /\ length (JsMap.values (JsMap.set k v m))
     = (if JsMap.has k m then length (JsMap.values m) else S (length (JsMap.values m)))
  /\ (JsMap.has k m = false -> JsMap.values (JsMap.set k v m) = JsMap.values m ++ [v]).
Proof.
  unfold JsMap.has, JsMap.values. induction m as [|[k' v'] m IH]; cbn.
  - split; [by left|done].
  - destruct (String.eqb_spec k k') as [->|Hne]; cbn.
    + split; [by left|]. split; [done|]. done.
    + destruct IH as (H1 & H2 & H3). split; [by right|].
      split.
      * rewrite H2. by destruct (JsMap.get k m).
      * intros H. by rewrite H3.
Qed.

(** X1. On a registry reached by any calls, [addProblem(id, problem)]
    registers the problem under [id] and leaves every other id as it was;
    the array that [problems()] returns next lists the problem: appended
    at the end when [id] was free, in the place of the problem it replaces
    (the length is kept) when [id] was taken. *)
Theorem addProblem_registers (setup : list PPM.Call) (id : string)
    (problem : PlayerProblem) :
  let m := PPM.calls setup PPM.new in
  let m' := PPM.addProblem id problem m in
  PPM.hasProblem id m' = true
  /\ JsMap.get id (PPM.problemsById m') = Some problem
  /\ (forall id', id' <> id -> PPM.hasProblem id' m' = PPM.hasProblem id' m)
  /\ In problem (ref_val (fst (PPM.problems m')))
  /\ (PPM.hasProblem id m = false ->
      ref_val (fst (PPM.problems m'))
      = ref_val (fst (PPM.problems m)) ++ [problem])
  /\ (PPM.hasProblem id m = true ->
      length (ref_val (fst (PPM.problems m')))
      = length (ref_val (fst (PPM.problems m)))).
Proof.
  intros m m'.
  assert (cacheCurrent m) as Hm by (apply cacheCurrent_calls; exact I).
  rewrite (problems_lists m Hm).
  assert (ref_val (fst (PPM.problems m'))
          = JsMap.values (JsMap.set id problem (PPM.problemsById m))) as -> by done.
  destruct (values_set id problem (PPM.problemsById m)) as (Hin & Hlen & Happ).
  unfold PPM.hasProblem, JsMap.has in *. subst m'. cbn [PPM.problemsById PPM.addProblem].
  rewrite JsMapFacts.get_set_eq.
  split; [done|]. split; [done|]. split.
  { intros id' Hne. by rewrite JsMapFacts.get_set_ne. }
  split; [done|]. split; [done|].
  intros H. by rewrite Hlen, H.
Qed.

(** X2. On a registry reached by any calls, [removeProblem(id)] returns
    whether [id] was registered; afterwards [id] is not registered and every
    other id is as before; and when [id] was not registered the registry is
    left as it was, the array of [problems()] included. *)
Theorem removeProblem_removes_exactly (setup : list PPM.Call) (id : string) :
  let m := PPM.calls setup PPM.new in
  fst (PPM.removeProblem id m) = PPM.hasProblem id m
  /\ PPM.hasProblem id (snd (PPM.removeProblem id m)) = false
  /\ (forall id', id' <> id ->
        JsMap.get id' (PPM.problemsById (snd (PPM.removeProblem id m)))
        = JsMap.get id' (PPM.problemsById m))
  /\ (PPM.hasProblem id m = false -> snd (PPM.removeProblem id m) = m).
Proof.
  intros m. pose proof (reachable_NoDup setup) as Hnd. fold m in Hnd.
  unfold PPM.removeProblem, PPM.hasProblem. rewrite delete_spec by done. cbn.
  split; [done|]. split.
  { unfold JsMap.has. by rewrite get_filter_eq. }
  split.
  { intros id' Hne. by apply get_filter_ne. }
  intros H. rewrite H.
  pose proof (JsMap_delete_false id (PPM.problemsById m)) as Hsame.
  rewrite delete_spec in Hsame by done. cbn in Hsame. rewrite (Hsame H).
  by destruct m.
Qed.

(** X3. On a registry reached by any calls, [removeProblems(predicate)]
    removes exactly the entries the predicate holds of, keeping the others in
    their order, and returns whether there was such an entry. *)
Theorem removeProblems_filters (setup : list PPM.Call)
    (predicate : string -> PlayerProblem -> bool) :
  let m := PPM.calls setup PPM.new in
  PPM.problemsById (snd (PPM.removeProblems predicate m))
  = List.filter (fun e => negb (onEntry predicate e)) (PPM.problemsById m)
  /\ fst (PPM.removeProblems predicate m)
     = existsb (onEntry predicate) (PPM.problemsById m)
  /\ ref_val (fst (PPM.problems (snd (PPM.removeProblems predicate m))))
     = map snd (List.filter (fun e => negb (onEntry predicate e)) (PPM.problemsById m)).
Proof.
  intros m. pose proof (reachable_NoDup setup) as Hnd. fold m in Hnd.
  assert (cacheCurrent (snd (PPM.removeProblems predicate m))) as Hcur.
  { apply (cacheCurrent_call (PPM.CallRemoveProblems predicate) m).
    apply cacheCurrent_calls. exact I. }
  rewrite (problems_lists _ Hcur).
  unfold PPM.removeProblems.
  rewrite removeProblemsLoop_whole by done.
  done.
Qed.

Lemma cacheAllocated_call (c : PPM.Call) (m : PPM.t) :
  cacheAllocated m -> cacheAllocated (PPM.call c m).
Proof.
  unfold cacheAllocated. destruct c as [| | |id|predicate|]; cbn; try done.
  - unfold PPM.problems. destruct (PPM.cache m) eqn:Hc; cbn; rewrite ?Hc; [done|lia].
  - unfold PPM.removeProblem.
    by destruct (JsMap.delete id (PPM.problemsById m)) as [[] byId].
  - unfold PPM.removeProblems.
    by destruct (PPM.removeProblemsLoop predicate _ _ false) as [[] byId].
Qed.

Lemma cacheAllocated_calls (cs : list PPM.Call) (m : PPM.t) :
  cacheAllocated m -> cacheAllocated (PPM.calls cs m).
Proof.
  revert m. induction cs as [|c cs IH]; intros m H; cbn; [done|].
  apply IH, cacheAllocated_call, H.
Qed.

Lemma mutation_clears_cache (c : PPM.Call) (m : PPM.t) :
  PPM.mutates c m = true ->
  PPM.cache (PPM.call c m) = None /\ PPM.nextRef (PPM.call c m) = PPM.nextRef m.
Proof.
  destruct c as [| | |id|predicate|]; cbn; try done.
  - unfold PPM.removeProblem.
    destruct (JsMap.delete id (PPM.problemsById m)) as [[] byId]; cbn; done.
  - unfold PPM.removeProblems.
    destruct (PPM.removeProblemsLoop predicate _ _ false) as [[] byId]; cbn; done.
Qed.

(** X4. On a registry reached by any calls, a call that changes the set of
    problems ([addProblem], [clear], or a removal that removes something)
    made after [problems()] has the next [problems()] return another array,
    of another identity, which lists the problems registered then. *)
Theorem mutation_renews_array (setup : list PPM.Call) (c : PPM.Call) :
  let before := PPM.problems (PPM.calls setup PPM.new) in
  PPM.mutates c (snd before) = true ->
  ref_id (fst (PPM.problems (PPM.call c (snd before)))) <> ref_id (fst before)
  /\ ref_val (fst (PPM.problems (PPM.call c (snd before))))
     = JsMap.values (PPM.problemsById (PPM.call c (snd before))).
Proof.
  intros before Hmut.
  set (m := PPM.calls setup PPM.new) in *.
  assert (cacheAllocated (snd before)) as Halloc.
  { apply (cacheAllocated_call PPM.CallProblems m). apply cacheAllocated_calls. exact I. }
  destruct (problems_caches m) as [Hc _]. fold before in Hc.
  unfold cacheAllocated in Halloc. rewrite Hc in Halloc.
  destruct (mutation_clears_cache c (snd before) Hmut) as [Hnone Hnext].
  assert (PPM.problems (PPM.call c (snd before))
          = (mkRef (PPM.nextRef (snd before))
               (JsMap.values (PPM.problemsById (PPM.call c (snd before)))),
             PPM.mk (PPM.problemsById (PPM.call c (snd before)))
               (Some (mkRef (PPM.nextRef (snd before))
                        (JsMap.values (PPM.problemsById (PPM.call c (snd before))))))
               (S (PPM.nextRef (snd before))))) as ->.
  { unfold PPM.problems. by rewrite Hnone, Hnext. }
  cbn [fst ref_id ref_val]. split; [lia|done].
Qed.

Lemma mutation_renews_array_witness :
  let setup := [PPM.CallAddProblem "a" (mkProblem SevWarn "first" None None)] in
  let c := PPM.CallRemoveProblems (fun id _ => String.eqb id "a") in
  PPM.mutates c (snd (PPM.problems (PPM.calls setup PPM.new))) = true
  /\ ref_id (fst (PPM.problems (PPM.call c (snd (PPM.problems (PPM.calls setup PPM.new))))))
     <> ref_id (fst (PPM.problems (PPM.calls setup PPM.new))).
Proof.
  intros setup c. split.
  - vm_compute; reflexivity.
  - apply (mutation_renews_array setup c). vm_compute; reflexivity.
Defined.
(** ** More on requests and the run loop *)

(** A request made while the loop is busy is only noted. *)
Lemma setState_running (st : IterablePlayerState) (p : Player) :
  runningState p = true -> nextState p <> Some Close ->
  setState st p
  = set_abort false
      (if abort p then addEffect AbortSignalled (set_nextState (Some st) p)
       else set_nextState (Some st) p).
Proof.
  intros Hrun Hc. unfold setState, runState.
  rewrite bool_decide_eq_false_2 by done. cbn.
  destruct (abort p); cbn; by rewrite Hrun.
Qed.

Lemma setState_running_fields (st : IterablePlayerState) (p : Player) :
  runningState p = true -> nextState p <> Some Close ->
  nextState (setState st p) = Some st
  /\ state (setState st p) = state p
  /\ runningState (setState st p) = true
  /\ abort (setState st p) = false
  /\ playbackIterator (setState st p) = playbackIterator p
  /\ handlersRun (setState st p) = handlersRun p.
Proof.
  intros Hrun Hc. rewrite setState_running by done. unfold handlersRun.
  destruct (abort p); cbn; rewrite ?handlersOf_app; cbn; rewrite ?app_nil_r; done.
Qed.

(** The loop takes up the request that is pending. *)
Lemma runLoopHead_pending (st : IterablePlayerState) (p : Player) :
  nextState p = Some st ->
  state (runLoopHead p) = st
  /\ nextState (runLoopHead p) = None
  /\ runningState (runLoopHead p) = runningState p
  /\ abort (runLoopHead p) = abort p
  /\ handlersRun (runLoopHead p) = handlersRun p ++ [st]
  /\ playbackIterator (runLoopHead p)
     = (if bool_decide (st = Idle) || bool_decide (st = Play)
        then playbackIterator p else None).
Proof.
  intros Hn. unfold runLoopHead, handlersRun. rewrite Hn. cbn.
  destruct (bool_decide (st = Idle)), (bool_decide (st = Play)); cbn;
    destruct (playbackIterator p) eqn:Hit; cbn;
    rewrite ?handlersOf_app; cbn; rewrite ?app_nil_r, ?Hit; done.
Qed.

Lemma handlerReturns_pending (st : IterablePlayerState) (p : Player) :
  runningState p = true -> nextState p = Some st ->
  state (handlerReturns p) = st
  /\ nextState (handlerReturns p) = None
  /\ runningState (handlerReturns p) = true
  /\ abort (handlerReturns p) = abort p
  /\ handlersRun (handlerReturns p) = handlersRun p ++ [st]
  /\ playbackIterator (handlerReturns p)
     = (if bool_decide (st = Idle) || bool_decide (st = Play)
        then playbackIterator p else None).
Proof.
  intros Hrun Hn. unfold handlerReturns. rewrite Hrun.
  destruct (runLoopHead_pending st p Hn) as (?&?&?&?&?&?).
  split_and!; congruence.
Qed.

(** A request made while the loop is at rest has its handler called at
    once. *)
Lemma setState_at_rest_eq (st : IterablePlayerState) (p : Player) :
  runningState p = false -> nextState p <> Some Close ->
  setState st p
  = runLoopHead
      (set_runningState true
         (set_abort false
            (if abort p then addEffect AbortSignalled (set_nextState (Some st) p)
             else set_nextState (Some st) p))).
Proof.
  intros Hrun Hc. unfold setState, runState.
  rewrite bool_decide_eq_false_2 by done.
  destruct (abort p) eqn:Ha; cbn -[runLoopHead]; rewrite ?Ha; cbn -[runLoopHead];
    by rewrite Hrun.
Qed.

Lemma setState_at_rest (st : IterablePlayerState) (p : Player) :
  runningState p = false -> nextState p <> Some Close ->
  state (setState st p) = st
  /\ nextState (setState st p) = None
  /\ runningState (setState st p) = true
  /\ abort (setState st p) = false
  /\ handlersRun (setState st p) = handlersRun p ++ [st]
  /\ playbackIterator (setState st p)
     = (if bool_decide (st = Idle) || bool_decide (st = Play)
        then playbackIterator p else None).
Proof.
  intros Hrun Hc. rewrite setState_at_rest_eq by done.
  destruct (abort p).
  - pose proof (runLoopHead_pending st
                (set_runningState true (set_abort false
                   (addEffect AbortSignalled (set_nextState (Some st) p))))
                eq_refl) as (H1&H2&H3&H4&Hh&H6).
    rewrite H1, H2, H3, H4, Hh, H6. unfold handlersRun. cbn.
    rewrite handlersOf_app. cbn. by rewrite app_nil_r.
  - pose proof (runLoopHead_pending st
                (set_runningState true (set_abort false (set_nextState (Some st) p)))
                eq_refl) as (H1&H2&H3&H4&Hh&H6).
    rewrite H1, H2, H3, H4, Hh, H6. done.
Qed.

(** X5. While the run loop is busy and no close is pending, of a series of
    requests for states other than close only the last one counts: it is the
    one pending afterwards and the one whose handler the loop calls when the
    running handler returns; no handler is called for the requests before
    it, and none is called inside the requests. *)
Theorem setState_latest_wins (p : Player) (requests : list IterablePlayerState)
    (last : IterablePlayerState) :
  runningState p = true -> nextState p <> Some Close ->
  Forall (fun st => st <> Close) requests ->
  nextState (setStateAll (requests ++ [last]) p) = Some last
  /\ state (setStateAll (requests ++ [last]) p) = state p
  /\ handlersRun (setStateAll (requests ++ [last]) p) = handlersRun p
  /\ abort (setStateAll (requests ++ [last]) p) = false
  /\ state (handlerReturns (setStateAll (requests ++ [last]) p)) = last
  /\ handlersRun (handlerReturns (setStateAll (requests ++ [last]) p))
     = handlersRun p ++ [last].
Proof.
  intros Hrun Hc Hreq.
  assert (runningState (setStateAll requests p) = true
          /\ nextState (setStateAll requests p) <> Some Close
          /\ state (setStateAll requests p) = state p
          /\ handlersRun (setStateAll requests p) = handlersRun p) as (Hr & Hn & Hs & Hh).
  { revert p Hrun Hc. induction Hreq as [|st requests Hst _ IH]; intros p Hrun Hc; [done|].
    unfold setStateAll in *. cbn.
    destruct (setState_running_fields st p Hrun Hc) as (H1 & H2 & H3 & _ & _ & H6).
    destruct (IH (setState st p)) as (? & ? & ? & ?); [done|congruence|].
    split; [done|]. split; [done|]. split; congruence. }
  unfold setStateAll in *. rewrite foldl_snoc.
  set (q := foldl (fun q st => setState st q) p requests) in *.
  destruct (setState_running_fields last q Hr Hn) as (H1 & H2 & H3 & H4 & _ & H6).
  destruct (handlerReturns_pending last (setState last q) H3 H1)
    as (G1 & _ & _ & _ & G4 & _).
  split_and!; congruence.
Qed.

Lemma setState_latest_wins_witness :
  (runningState sampleIdle = true /\ nextState sampleIdle <> Some Close)
  /\ handlersRun (handlerReturns (setStateAll ([SeekBackfill; SeekBackfill] ++ [Play])
                                    sampleIdle))
     = handlersRun sampleIdle ++ [Play].
Proof.
  split.
  - split; by_evaluation.
  - apply (setState_latest_wins sampleIdle [SeekBackfill; SeekBackfill] Play).
    + by_evaluation.
    + by_evaluation.
    + repeat constructor; discriminate.
Defined.

(** X6. When the handler of the running state throws, the loop ends with the
    player in error and not playing, the error registered as the problem
    [global-error], and one emit queued; the snapshot emitted then has the
    presence ERROR, no active data, and the error among its problems. *)
Theorem handler_error_is_reported (p : Player) (msg : string) :
  runningState p = true -> listener p = true ->
  hasError (handlerThrows msg p) = true
  /\ isPlaying (handlerThrows msg p) = false
  /\ runningState (handlerThrows msg p) = false
  /\ effects (handlerThrows msg p) = effects p ++ [QueueEmitState]
  /\ PPM.hasProblem "global-error" (problemManager (handlerThrows msg p)) = true
  /\ exists snapshot,
       fst (emitStateImpl (handlerThrows msg p)) = Some snapshot
       /\ PlayerState.presence snapshot = ERROR
       /\ PlayerState.activeData snapshot = None
       /\ In (mkProblem SevError msg None (Some msg))
            (ref_val (PlayerState.problems snapshot)).
Proof.
  intros Hrun Hl. unfold handlerThrows, setError. rewrite Hrun. cbn.
  split; [done|]. split; [done|]. split; [done|]. split; [done|].
  split.
  { unfold PPM.hasProblem, JsMap.has. cbn. by rewrite JsMapFacts.get_set_eq. }
  unfold emitStateImpl. cbn. rewrite Hl. cbn.
  eexists. split; [reflexivity|]. cbn. split; [done|]. split; [done|].
  apply values_set.
Qed.

Lemma handler_error_is_reported_witness :
  (runningState sampleIdle = true /\ listener sampleIdle = true)
  /\ hasError (handlerThrows "boom" sampleIdle) = true.
Proof.
  split.
  - split; by_evaluation.
  - apply (handler_error_is_reported sampleIdle "boom"); by_evaluation.
Defined.

(** X7. [setListener] works once: on a player without a listener it sets
    the listener and requests the initialize state, whose handler the loop,
    when at rest, calls at once; any later call throws and changes
    nothing. *)
Theorem setListener_once (p : Player) :
  listener p = false ->
  fst (setListener p) = Ret tt
  /\ listener (snd (setListener p)) = true
  /\ setListener (snd (setListener p))
     = (Thrown "Cannot setListener again", snd (setListener p))
  /\ (runningState p = false -> nextState p <> Some Close ->
      state (snd (setListener p)) = Initialize
      /\ handlersRun (snd (setListener p)) = handlersRun p ++ [Initialize]).
Proof.
  intros Hl. unfold setListener. run_method. rewrite Hl. cbn.
  autorewrite with player. cbn. split; [done|]. split; [done|]. split; [done|].
  intros Hrun Hc.
  destruct (setState_at_rest Initialize (set_listener true p)) as (?&_&_&_&?&_); done.
Qed.

Lemma setListener_once_witness :
  listener (newPlayer None None) = false
  /\ setListener (snd (setListener (newPlayer None None)))
     = (Thrown "Cannot setListener again", snd (setListener (newPlayer None None))).
Proof.
  split.
  - by_evaluation.
  - apply (setListener_once (newPlayer None None)). by_evaluation.
Defined.
(** ** What requests and the run loop leave alone *)

Lemma setState_data (st : IterablePlayerState) (p : Player) :
  dataOf (setState st p) = dataOf p.
Proof.
  unfold setState, runState, runLoopHead;
    repeat (case_bool_decide || case_match); reflexivity.
Qed.

Lemma runLoopHead_data (p : Player) : dataOf (runLoopHead p) = dataOf p.
Proof. unfold runLoopHead; repeat (case_bool_decide || case_match); reflexivity. Qed.

Lemma handlerReturns_data (p : Player) : dataOf (handlerReturns p) = dataOf p.
Proof. unfold handlerReturns. case_match; [apply runLoopHead_data|done]. Qed.

(** A field of the data is read off [dataOf]. *)
Lemma data_field {A : Type} (f : Player -> A) :
  (forall p, f (dataOf p) = f p) ->
  forall p q, dataOf q = dataOf p -> f q = f p.
Proof. intros Hf p q H. rewrite <- (Hf q), <- (Hf p). by rewrite H. Qed.
(** ** More on the commands *)

(** X8. Pausing and starting are idempotent: a second [pausePlayback()]
    right after the first, and a second [startPlayback()] right after the
    first, return without changing anything; and [startPlayback()] never
    throws. *)
Theorem pause_and_start_idempotent (p : Player) :
  pausePlayback (snd (pausePlayback p)) = (Ret tt, snd (pausePlayback p))
  /\ fst (startPlayback p) = Ret tt
  /\ startPlayback (snd (startPlayback p)) = (Ret tt, snd (startPlayback p)).
Proof.
  split; [|split].
  - assert (isPlaying (snd (pausePlayback p)) = false) as H.
    { unfold pausePlayback. run_method.
      destruct (isPlaying p) eqn:Hp; cbn; [|done].
      case_bool_decide; cbn; autorewrite with player; done. }
    remember (snd (pausePlayback p)) as q eqn:Hq. clear Hq.
    unfold pausePlayback. run_method. by rewrite H.
  - unfold startPlayback, startPlayImpl. run_method.
    destruct (isPlaying p), (untilTime p), (start p), (end_ p); cbn; try done.
    by destruct (_ && _).
  - destruct (isPlaying p) eqn:Hp.
    { unfold startPlayback, startPlayImpl. run_method. rewrite Hp. cbn. by rewrite Hp. }
    assert (snd (startPlayback p) = p \/ isPlaying (snd (startPlayback p)) = true) as [H|H].
    { unfold startPlayback, startPlayImpl. run_method. rewrite Hp.
      destruct (untilTime p), (start p), (end_ p); cbn; try (by left).
      right. destruct (_ && _); cbn; autorewrite with player; done. }
    + rewrite H. unfold startPlayback, startPlayImpl. run_method. rewrite Hp.
      destruct (untilTime p) eqn:Hu, (start p) eqn:Hs, (end_ p) eqn:He; cbn; try done.
      exfalso. revert H. unfold startPlayback, startPlayImpl. run_method.
      rewrite Hp, Hu, Hs, He. cbn. intros H.
      apply (f_equal isPlaying) in H. revert H.
      destruct (_ && _); cbn; autorewrite with player; cbn; congruence.
    + remember (snd (startPlayback p)) as q eqn:Hq. clear Hq.
      unfold startPlayback, startPlayImpl. run_method. by rewrite H.
Qed.
Lemma stateIdle_rests (q : Player) :
  abort q = false ->
  stateIdle q
  = (Ret tt,
     addEffect QueueEmitState
       (set_abort true (set_presence PRESENT (set_isPlaying false q)))).
Proof. intros H. unfold stateIdle. run_method. by rewrite H. Qed.

(** [pausePlayback()] in the play state. *)
Lemma pausePlayback_playing (p : Player) :
  state p = Play -> runningState p = true -> nextState p <> Some Close ->
  isPlaying p = true ->
  fst (pausePlayback p) = Ret tt
  /\ nextState (snd (pausePlayback p)) = Some Idle
  /\ state (snd (pausePlayback p)) = Play
  /\ runningState (snd (pausePlayback p)) = true
  /\ abort (snd (pausePlayback p)) = false
  /\ isPlaying (snd (pausePlayback p)) = false
  /\ untilTime (snd (pausePlayback p)) = None
  /\ start (snd (pausePlayback p)) = start p
  /\ end_ (snd (pausePlayback p)) = end_ p
  /\ currentTime (snd (pausePlayback p)) = currentTime p
  /\ handlersRun (snd (pausePlayback p)) = handlersRun p.
Proof.
  intros Hst Hrun Hn Hp.
  unfold pausePlayback. run_method. rewrite Hp. cbn. rewrite Hst.
  rewrite bool_decide_eq_true_2 by done. cbn.
  rewrite setState_running by (cbn; congruence). unfold handlersRun. cbn.
  destruct (abort p); cbn; rewrite ?handlersOf_app; cbn; rewrite ?app_nil_r; done.
Qed.

(** X9. A [startPlayback()] that arrives after a [pausePlayback()] made in
    the play state, before the loop has taken up the idle state the pause
    requested, is dropped: it sets the playing flag and queues an emit, but
    requests no state, the idle request stays pending, and the idle handler
    the loop calls next clears the flag; the player rests idle, not
    playing. *)
Theorem startPlayback_during_pause_is_dropped (p : Player) (s e : Time) :
  state p = Play -> runningState p = true -> nextState p = None ->
  isPlaying p = true -> start p = Some s -> end_ p = Some e ->
  let paused := snd (pausePlayback p) in
  let resumed := snd (startPlayback paused) in
  let idle := snd (stateIdle (handlerReturns resumed)) in
  nextState paused = Some Idle /\ isPlaying paused = false
  /\ fst (startPlayback paused) = Ret tt
  /\ isPlaying resumed = true /\ nextState resumed = Some Idle
  /\ handlersRun resumed = handlersRun p
  /\ fst (stateIdle (handlerReturns resumed)) = Ret tt
  /\ state idle = Idle /\ nextState idle = None /\ isPlaying idle = false
  /\ handlersRun idle = handlersRun p ++ [Idle].
Proof.
  intros Hst Hrun Hn Hp Hs He. cbv zeta.
  destruct (pausePlayback_playing p) as (_&P1&P2&P3&P4&P5&P6&P7&P8&_&P10);
    [done|done|congruence|done|].
  remember (snd (pausePlayback p)) as paused eqn:E. clear E.
  assert (startPlayback paused
          = (Ret tt, addEffect QueueEmitState
                       (set_isPlaying true (addEffect (MetricsPlay (speed paused)) paused))))
    as ->.
  { unfold startPlayback, startPlayImpl. run_method.
    rewrite P5, P6, P7, P8, Hs, He. cbn. rewrite P2.
    by rewrite (bool_decide_eq_false_2 (Play = Idle)). }
  cbn [fst snd].
  set (resumed := addEffect QueueEmitState _).
  destruct (handlerReturns_pending Idle resumed) as (R1&R2&R3&R4&R5&_); [done|done|].
  assert (handlersRun resumed = handlersRun p) as Hh.
  { unfold resumed, handlersRun. cbn. rewrite !handlersOf_app. cbn.
    rewrite !app_nil_r. exact P10. }
  assert (isPlaying resumed = true /\ nextState resumed = Some Idle) as [Q1 Q2]
    by done.
  rewrite stateIdle_rests by (by rewrite R4).
  cbn [fst snd]. clearbody resumed.
  remember (handlerReturns resumed) as q eqn:Hq. clear Hq.
  unfold handlersRun in *. cbn.
  rewrite handlersOf_app. cbn. rewrite app_nil_r.
  split_and!; congruence.
Qed.

Lemma startPlayback_during_pause_is_dropped_witness :
  (state samplePlaying = Play /\ runningState samplePlaying = true
   /\ nextState samplePlaying = None /\ isPlaying samplePlaying = true)
  /\ isPlaying (snd (stateIdle (handlerReturns
        (snd (startPlayback (snd (pausePlayback samplePlaying))))))) = false.
Proof.
  split.
  - split_and!; by_evaluation.
  - apply (startPlayback_during_pause_is_dropped samplePlaying (millis 0) (millis 1000));
      by_evaluation.
Defined.
(** ** More on seeking *)

Lemma clampTime_within (x lo hi : Time) :
  Time.le lo hi ->
  Time.le lo (Time.clampTime x lo hi) /\ Time.le (Time.clampTime x lo hi) hi.
Proof.
  intros H.
  destruct (TimeFacts.clampTime_cases x lo hi) as [[_ ->]|[(_ & _ & ->)|(? & ? & ->)]].
  - split; [apply TimeFacts.le_refl|done].
  - split; [done|apply TimeFacts.le_refl].
  - done.
Qed.

(** What [seekPlayback(time)] does when it does seek. *)
Lemma seekPlayback_seeks (p : Player) (time s e : Time) :
  state p <> Preinit -> state p <> Initialize ->
  start p = Some s -> end_ p = Some e ->
  (forall cur, currentTime p = Some cur ->
               Time.compare cur (Time.clampTime time s e) <> 0%Z) ->
  (forall target, seekTarget p = Some target ->
                  Time.compare target (Time.clampTime time s e) <> 0%Z) ->
  seekPlayback time p
  = (Ret tt,
     setState SeekBackfill
       (set_lastRangeMillis None
          (set_lastTickMillis None
             (set_untilTime None
                (set_seekTarget (Some (Time.clampTime time s e))
                   (addEffect (MetricsSeek (Time.clampTime time s e)) p)))))).
Proof.
  intros Hpre Hinit Hs He Hcur Htarget.
  unfold seekPlayback. run_method.
  rewrite !bool_decide_eq_false_2 by done. cbn. rewrite Hs, He.
  destruct (seekTarget p) as [target|] eqn:Ht.
  - specialize (Htarget target eq_refl). apply Z.eqb_neq in Htarget. rewrite Htarget.
    destruct (currentTime p) as [cur|] eqn:Hc; [|done].
    specialize (Hcur cur eq_refl). apply Z.eqb_neq in Hcur. by rewrite Hcur.
  - destruct (currentTime p) as [cur|] eqn:Hc; [|done].
    specialize (Hcur cur eq_refl). apply Z.eqb_neq in Hcur. by rewrite Hcur.
Qed.

(** X10. On a player past initialization, [seekPlayback(time)] to a time
    whose clamp differs from [currentTime] and from the pending seek target
    returns normally with the seek target set to the clamp, which lies
    within [[start, end]] and is [time] itself when [time] does; it cancels
    a pending [untilTime] and the tick smoothing, keeps the time and the
    playing flag, and requests the seek-backfill state: pending while the
    loop is busy, run at once when it is at rest. *)
Theorem seekPlayback_new_time (p : Player) (time s e : Time) :
  state p <> Preinit -> state p <> Initialize ->
  start p = Some s -> end_ p = Some e -> Time.le s e ->
  nextState p <> Some Close ->
  (forall cur, currentTime p = Some cur ->
               Time.compare cur (Time.clampTime time s e) <> 0%Z) ->
  (forall target, seekTarget p = Some target ->
                  Time.compare target (Time.clampTime time s e) <> 0%Z) ->
  fst (seekPlayback time p) = Ret tt
  /\ seekTarget (snd (seekPlayback time p)) = Some (Time.clampTime time s e)
  /\ Time.le s (Time.clampTime time s e) /\ Time.le (Time.clampTime time s e) e
  /\ (Time.le s time -> Time.le time e -> Time.clampTime time s e = time)
  /\ untilTime (snd (seekPlayback time p)) = None
  /\ lastTickMillis (snd (seekPlayback time p)) = None
  /\ lastRangeMillis (snd (seekPlayback time p)) = None
  /\ currentTime (snd (seekPlayback time p)) = currentTime p
  /\ isPlaying (snd (seekPlayback time p)) = isPlaying p
  /\ (runningState p = true ->
      nextState (snd (seekPlayback time p)) = Some SeekBackfill
      /\ handlersRun (snd (seekPlayback time p)) = handlersRun p)
  /\ (runningState p = false ->
      state (snd (seekPlayback time p)) = SeekBackfill
      /\ handlersRun (snd (seekPlayback time p)) = handlersRun p ++ [SeekBackfill]).
Proof.
  intros Hpre Hinit Hs He Hse Hc Hcur Htarget.
  rewrite (seekPlayback_seeks p time s e) by done. cbn [fst snd].
  set (q := set_lastRangeMillis None _).
  pose proof (setState_data SeekBackfill q) as Hd.
  destruct (clampTime_within time s e Hse) as [Hlo Hhi].
  split; [done|].
  split; [by rewrite (data_field seekTarget (fun _ => eq_refl) _ _ Hd)|].
  split; [done|]. split; [done|]. split.
  { intros H1 H2.
    destruct (TimeFacts.clampTime_cases time s e) as [[H _]|[(_ & H & _)|(_ & _ & H)]];
      [|by apply TimeFacts.not_le_lt in H|done].
    by apply TimeFacts.not_le_lt in H. }
  split; [by rewrite (data_field untilTime (fun _ => eq_refl) _ _ Hd)|].
  split; [by rewrite (data_field lastTickMillis (fun _ => eq_refl) _ _ Hd)|].
  split; [by rewrite (data_field lastRangeMillis (fun _ => eq_refl) _ _ Hd)|].
  split; [by rewrite (data_field currentTime (fun _ => eq_refl) _ _ Hd)|].
  split; [by rewrite (data_field isPlaying (fun _ => eq_refl) _ _ Hd)|].
  split; intros Hrun.
  - destruct (setState_running_fields SeekBackfill q) as (H1 & _ & _ & _ & _ & H6);
      [done|done|].
    split; [done|]. rewrite H6. unfold q, handlersRun. cbn.
    rewrite handlersOf_app. cbn. by rewrite app_nil_r.
  - destruct (setState_at_rest SeekBackfill q) as (H1 & _ & _ & _ & H5 & _);
      [done|done|].
    split; [done|]. rewrite H5. unfold q, handlersRun. cbn.
    rewrite handlersOf_app. cbn. by rewrite app_nil_r.
Qed.

Lemma seekPlayback_new_time_witness :
  (state sampleIdle <> Preinit /\ state sampleIdle <> Initialize
   /\ start sampleIdle = Some (millis 0) /\ end_ sampleIdle = Some (millis 1000)
   /\ Time.le (millis 0) (millis 1000) /\ nextState sampleIdle <> Some Close
   /\ currentTime sampleIdle = Some (millis 99) /\ seekTarget sampleIdle = None)
  /\ seekTarget (snd (seekPlayback (millis 2000) sampleIdle)) = Some (millis 1000).
Proof.
  split.
  - split_and!; by_evaluation.
  - refine (eq_trans
              (proj1 (proj2 (seekPlayback_new_time sampleIdle (millis 2000)
                               (millis 0) (millis 1000) _ _ _ _ _ _ _ _))) _).
    + by_evaluation.
    + by_evaluation.
    + by_evaluation.
    + by_evaluation.
    + by_evaluation.
    + by_evaluation.
    + intros cur H. vm_compute in H. injection H as <-. by_evaluation.
    + intros target H. vm_compute in H. discriminate H.
    + by_evaluation.
Defined.
(** ** More on initialization *)

(** [#stateInitialize] when the source initializes, on a player without
    error whose loop is busy. *)
Lemma stateInitialize_ok (toRFC3339String : Time -> string) (p : Player)
    (init : Initialization) (blockLoaderCtor : Result unit) :
  hasError p = false -> runningState p = true -> nextState p <> Some Close ->
  fst (stateInitialize toRFC3339String (Ret init) blockLoaderCtor p) = Ret tt
  /\ start (snd (stateInitialize toRFC3339String (Ret init) blockLoaderCtor p))
     = Some (init_start init)
  /\ end_ (snd (stateInitialize toRFC3339String (Ret init) blockLoaderCtor p))
     = Some (init_end init)
  /\ seekTarget (snd (stateInitialize toRFC3339String (Ret init) blockLoaderCtor p))
     = option_map (fun target => Time.clampTime target (init_start init) (init_end init))
         (seekTarget p)
  /\ currentTime (snd (stateInitialize toRFC3339String (Ret init) blockLoaderCtor p))
     = Some (default (init_start init)
               (option_map
                  (fun target => Time.clampTime target (init_start init) (init_end init))
                  (seekTarget p)))
  /\ hasError (snd (stateInitialize toRFC3339String (Ret init) blockLoaderCtor p)) = false
  /\ presence (snd (stateInitialize toRFC3339String (Ret init) blockLoaderCtor p))
     = PRESENT
  /\ nextState (snd (stateInitialize toRFC3339String (Ret init) blockLoaderCtor p))
     = Some StartPlay
  /\ state (snd (stateInitialize toRFC3339String (Ret init) blockLoaderCtor p)) = state p
  /\ runningState (snd (stateInitialize toRFC3339String (Ret init) blockLoaderCtor p))
     = true
  /\ handlersRun (snd (stateInitialize toRFC3339String (Ret init) blockLoaderCtor p))
     = handlersRun p
  /\ playbackIterator (snd (stateInitialize toRFC3339String (Ret init) blockLoaderCtor p))
     = playbackIterator p.
Proof.
  intros Herr Hrun Hc.
  unfold stateInitialize. run_method.
  destruct (dedupTopics (init_topics init) JsMap.empty (init_problems init))
    as [uniqueTopics problems] eqn:Hdedup. cbn [fst snd] in *.
  destruct (seekTarget p) eqn:Hseek; cbn; rewrite ?Hseek; cbn;
    destruct (enablePreload p) eqn:Hpre; cbn; rewrite ?Hpre; cbn;
    try destruct blockLoaderCtor as [[]|msg]; cbn;
    rewrite Herr; cbn; destruct (blockLoader p) eqn:Hbl; cbn; rewrite ?Hbl; cbn.
  all: match goal with
       | |- context [setState StartPlay ?q] =>
           pose proof (setState_data StartPlay q) as Hd;
           destruct (setState_running_fields StartPlay q) as (H1&H2&H3&H4&H5&H6);
           [done|done|]
       end.
  all: rewrite H1, H2, H3, H5, H6.
  all: rewrite (data_field start (fun _ => eq_refl) _ _ Hd),
         (data_field end_ (fun _ => eq_refl) _ _ Hd),
         (data_field seekTarget (fun _ => eq_refl) _ _ Hd),
         (data_field currentTime (fun _ => eq_refl) _ _ Hd),
         (data_field hasError (fun _ => eq_refl) _ _ Hd),
         (data_field presence (fun _ => eq_refl) _ _ Hd).
  all: unfold handlersRun; cbn; rewrite ?handlersOf_app; cbn; rewrite ?app_nil_r.
  all: rewrite ?Hseek; split_and!; done.
Qed.
(** X11. A seek made before initialization has finished is deferred:
    [seekPlayback(time)] only records the target; initialization clamps it
    to the bounds of the source and starts the clock there; and the
    start-play state that follows makes no iterator and reads nothing, but
    hands over to the seek-backfill state. *)
Theorem seek_before_initialize_is_deferred (toRFC3339String : Time -> string)
    (p : Player) (time : Time) (init : Initialization) (blockLoaderCtor : Result unit)
    (results : list IteratorResult) :
  state p = Initialize -> runningState p = true -> nextState p = None ->
  hasError p = false ->
  let seeked := snd (seekPlayback time p) in
  let initialized :=
    snd (stateInitialize toRFC3339String (Ret init) blockLoaderCtor seeked) in
  let entered := handlerReturns initialized in
  let started := snd (stateStartPlay results entered) in
  let target := Time.clampTime time (init_start init) (init_end init) in
  seekPlayback time p = (Ret tt, set_seekTarget (Some time) p)
  /\ currentTime initialized = Some target
  /\ nextState initialized = Some StartPlay
  /\ stateStartPlay results entered = (Ret tt, setState SeekBackfill entered)
  /\ nextState started = Some SeekBackfill
  /\ playbackIterator started = None
  /\ seekTarget started = Some target
  /\ currentTime started = Some target.
Proof.
  intros Hst Hrun Hn Herr. cbv zeta.
  assert (seekPlayback time p = (Ret tt, set_seekTarget (Some time) p)) as ->.
  { unfold seekPlayback. run_method. rewrite Hst.
    by rewrite (bool_decide_eq_true_2 (Initialize = Initialize)), orb_true_r. }
  cbn [fst snd]. split; [done|].
  destruct (stateInitialize_ok toRFC3339String (set_seekTarget (Some time) p) init
              blockLoaderCtor) as (_&I1&I2&I3&I4&_&_&I7&_&I9&_&_);
    [done|done|cbn; congruence|].
  remember (snd (stateInitialize toRFC3339String (Ret init) blockLoaderCtor
                   (set_seekTarget (Some time) p))) as q eqn:Hq. clear Hq.
  cbn in I3, I4.
  destruct (handlerReturns_pending StartPlay q I9 I7) as (R1&R2&R3&_&_&R6).
  pose proof (handlerReturns_data q) as Hd.
  remember (handlerReturns q) as r eqn:Hr. clear Hr.
  assert (start r = Some (init_start init)) as Hs
    by (by rewrite (data_field start (fun _ => eq_refl) _ _ Hd)).
  assert (end_ r = Some (init_end init)) as He
    by (by rewrite (data_field end_ (fun _ => eq_refl) _ _ Hd)).
  assert (seekTarget r = Some (Time.clampTime time (init_start init) (init_end init)))
    as Ht by (by rewrite (data_field seekTarget (fun _ => eq_refl) _ _ Hd)).
  assert (currentTime r = Some (Time.clampTime time (init_start init) (init_end init)))
    as Hcur by (by rewrite (data_field currentTime (fun _ => eq_refl) _ _ Hd)).
  assert (stateStartPlay results r = (Ret tt, setState SeekBackfill r)) as ->.
  { unfold stateStartPlay. run_method. by rewrite Hs, He, Ht. }
  cbn [fst snd].
  destruct (setState_running_fields SeekBackfill r) as (S1&_&_&_&S5&_);
    [done|congruence|].
  pose proof (setState_data SeekBackfill r) as Hd'.
  rewrite (data_field seekTarget (fun _ => eq_refl) _ _ Hd'),
    (data_field currentTime (fun _ => eq_refl) _ _ Hd').
  rewrite S5, R6. split_and!; done.
Qed.

Lemma seek_before_initialize_is_deferred_witness :
  let p := snd (setListener (newPlayer None None)) in
  (state p = Initialize /\ runningState p = true /\ nextState p = None
   /\ hasError p = false)
  /\ currentTime (snd (stateInitialize (fun _ => "") (Ret sampleInit) (Ret tt)
                         (snd (seekPlayback (millis 5000) p))))
     = Some (millis 1000).
Proof.
  intros p. split.
  - split_and!; by_evaluation.
  - refine (eq_trans
              (proj1 (proj2 (seek_before_initialize_is_deferred (fun _ => "") p
                               (millis 5000) sampleInit (Ret tt) [] _ _ _ _))) _);
      by_evaluation.
Defined.

(** X12. When the source fails to initialize, [#stateInitialize] does not
    throw: the player is in error and not playing, the failure is registered
    as the problem [global-error] with the message [Error initializing: ...],
    an emit is queued before and after, and nothing else happens; the bounds,
    the time and the presence are as before and no state is requested. *)
Theorem initialize_source_error (toRFC3339String : Time -> string) (p : Player)
    (msg : string) (blockLoaderCtor : Result unit) :
  let p' := snd (stateInitialize toRFC3339String (Thrown msg) blockLoaderCtor p) in
  fst (stateInitialize toRFC3339String (Thrown msg) blockLoaderCtor p) = Ret tt
  /\ hasError p' = true
  /\ isPlaying p' = false
  /\ (exists problem,
        JsMap.get "global-error" (PPM.problemsById (problemManager p')) = Some problem
        /\ severity problem = SevError
        /\ message problem = "Error initializing: " +:+ msg)
  /\ effects p' = effects p ++ [QueueEmitState; SourceInitialize; QueueEmitState]
  /\ state p' = state p /\ nextState p' = nextState p
  /\ start p' = start p /\ end_ p' = end_ p /\ currentTime p' = currentTime p
  /\ presence p' = presence p /\ blockLoader p' = blockLoader p.
Proof.
  cbv zeta. unfold stateInitialize, setError. run_method.
  rewrite <- !app_assoc. cbn.
  split_and!; try reflexivity.
  eexists. split; [apply JsMapFacts.get_set_eq|]. done.
Qed.

(** X13. When the block loader cannot be made, initialization goes on
    without preloading: the failure is registered as the warning
    [block-loader], which carries the error; the player is not in error and
    is present; no call is made on a block loader; and the start-play state
    is requested. *)
Theorem initialize_survives_block_loader_failure (toRFC3339String : Time -> string)
    (p : Player) (init : Initialization) (msg : string) :
  enablePreload p = true -> blockLoader p = false -> hasError p = false ->
  runningState p = true -> nextState p <> Some Close ->
  let p' := snd (stateInitialize toRFC3339String (Ret init) (Thrown msg) p) in
  fst (stateInitialize toRFC3339String (Ret init) (Thrown msg) p) = Ret tt
  /\ hasError p' = false
  /\ presence p' = PRESENT
  /\ blockLoader p' = false
  /\ (exists problem,
        JsMap.get "block-loader" (PPM.problemsById (problemManager p')) = Some problem
        /\ severity problem = SevWarn
        /\ message problem = "Failed to initialize message preloading"
        /\ error problem = Some msg)
  /\ List.filter blockLoaderCall (effects p') = List.filter blockLoaderCall (effects p)
  /\ nextState p' = Some StartPlay.
Proof.
  intros Hpre Hbl Herr Hrun Hc. cbv zeta.
  destruct (stateInitialize_ok toRFC3339String p init (Thrown msg) Herr Hrun Hc)
    as (I0&_&_&_&_&I5&I6&I7&_).
  split; [done|]. split; [done|]. split; [done|].
  split; [|split; [|split; [|done]]].
  all: unfold stateInitialize; run_method.
  all: destruct (dedupTopics (init_topics init) JsMap.empty (init_problems init))
         as [uniqueTopics problems] eqn:Hdedup; cbn [fst snd] in *.
  all: destruct (seekTarget p) eqn:Hseek; cbn; rewrite ?Hseek, ?Hpre; cbn;
         rewrite ?Herr, ?Hbl; cbn.
  all: match goal with
       | |- context [setState StartPlay ?q] =>
           pose proof (setState_data StartPlay q) as Hd;
           pose proof (setState_running StartPlay q ltac:(done) ltac:(done)) as Hq
       end.
  1,2: by rewrite (data_field blockLoader (fun _ => eq_refl) _ _ Hd).
  1,2: rewrite (data_field problemManager (fun _ => eq_refl) _ _ Hd); cbn;
         eexists; (split; [apply JsMapFacts.get_set_eq|]); done.
  all: rewrite Hq; cbn; destruct (abort p); cbn;
         rewrite !List.filter_app; cbn; by rewrite ?app_nil_r.
Qed.

Lemma initialize_survives_block_loader_failure_witness :
  let p := snd (setListener (newPlayer None None)) in
  (enablePreload p = true /\ blockLoader p = false /\ hasError p = false
   /\ runningState p = true /\ nextState p <> Some Close)
  /\ nextState (snd (stateInitialize (fun _ => "") (Ret sampleInit)
                       (Thrown "too far apart") p)) = Some StartPlay.
Proof.
  intros p. split.
  - split_and!; by_evaluation.
  - apply (initialize_survives_block_loader_failure (fun _ => "") p sampleInit
             "too far apart"); by_evaluation.
Defined.

(** The map built by the loop over the topics is keyed by topic name, with
    unique keys; it keeps what it had, and has a topic for every name
    seen. *)
Lemma dedupTopics_keyed (topics : list Topic.t) (uniqueTopics : JsMap.t Topic.t)
    (problems : list PlayerProblem) :
  NoDup (keysOf uniqueTopics) ->
  Forall (fun entry => fst entry = Topic.name (snd entry)) uniqueTopics ->
  NoDup (keysOf (fst (dedupTopics topics uniqueTopics problems)))
  /\ Forall (fun entry => fst entry = Topic.name (snd entry))
       (fst (dedupTopics topics uniqueTopics problems))
  /\ (forall entry, In entry (fst (dedupTopics topics uniqueTopics problems)) ->
                    In entry uniqueTopics \/ In (snd entry) topics)
  /\ (forall topic, In topic topics ->
                    JsMap.has (Topic.name topic)
                      (fst (dedupTopics topics uniqueTopics problems)) = true)
  /\ (forall k, JsMap.has k uniqueTopics = true ->
                JsMap.has k (fst (dedupTopics topics uniqueTopics problems)) = true)
  /\ length (snd (dedupTopics topics uniqueTopics problems))
     + length (fst (dedupTopics topics uniqueTopics problems))
     = length problems + length uniqueTopics + length topics.
Proof.
  revert uniqueTopics problems.
  induction topics as [|topic topics IH]; intros u problems Hnd Hkey; cbn.
  - split_and!; try done; first [by left | lia].
  - destruct (JsMap.get (Topic.name topic) u) as [existing|] eqn:Hget.
    + destruct (IH u (problems ++ [inconsistentDatatype existing topic]) Hnd Hkey)
        as (H1 & H2 & H3 & H4 & H5 & H6).
      split; [done|]. split; [done|]. split.
      { intros entry Hin. destruct (H3 entry Hin); [by left|right; by right]. }
      split.
      { intros t [<-|Hin]; [|by apply H4]. apply H5. unfold JsMap.has. by rewrite Hget. }
      split; [done|]. rewrite H6, length_app. cbn. lia.
    + assert (JsMap.has (Topic.name topic) u = false) as Hhas
        by (unfold JsMap.has; by rewrite Hget).
      assert (JsMap.set (Topic.name topic) topic u = u ++ [(Topic.name topic, topic)])
        as Hset.
      { clear -Hget. induction u as [|[k v] u IHu]; cbn in *; [done|].
        destruct (String.eqb (Topic.name topic) k); [done|]. by rewrite IHu. }
      destruct (IH (JsMap.set (Topic.name topic) topic u) problems)
        as (H1 & H2 & H3 & H4 & H5 & H6).
      { by apply keysOf_set_NoDup. }
      { rewrite Hset. apply Forall_app. split; [done|]. by constructor. }
      split; [done|]. split; [done|]. split.
      { intros entry Hin. destruct (H3 entry Hin) as [Hu|Ht]; [|right; by right].
        rewrite Hset in Hu. apply in_app_iff in Hu as [Hu|[<-|[]]]; [by left|].
        right. by left. }
      split.
      { intros t [<-|Hin]; [|by apply H4]. apply H5. unfold JsMap.has.
        by rewrite JsMapFacts.get_set_eq. }
      split.
      { intros k Hk. apply H5. apply has_keysOf. rewrite keysOf_set, Hhas.
        apply elem_of_app. left. by apply has_keysOf. }
      rewrite H6, Hset, length_app. cbn. lia.
Qed.

Lemma stateInitialize_providerTopics (toRFC3339String : Time -> string) (p : Player)
    (init : Initialization) (blockLoaderCtor : Result unit) :
  providerTopics (snd (stateInitialize toRFC3339String (Ret init) blockLoaderCtor p))
  = JsMap.values (fst (dedupTopics (init_topics init) JsMap.empty (init_problems init))).
Proof.
  unfold stateInitialize. run_method.
  destruct (dedupTopics (init_topics init) JsMap.empty (init_problems init))
    as [uniqueTopics problems] eqn:Hdedup. cbn [fst snd] in *.
  destruct (seekTarget p) eqn:Hseek; cbn; rewrite ?Hseek; cbn;
    destruct (enablePreload p) eqn:Hpre; cbn; rewrite ?Hpre; cbn;
    try destruct blockLoaderCtor as [[]|msg]; cbn;
    destruct (hasError p) eqn:Herr; cbn; rewrite ?Herr; cbn; try done;
    destruct (blockLoader p) eqn:Hbl; cbn; rewrite ?Hbl; cbn;
    autorewrite with player; done.
Qed.

(** X14. The topics the player offers after initialization have pairwise
    different names; each is one of the topics the source listed; every
    name the source listed is offered; and the source's topics that are not
    offered are as many as the warnings added to the source's problems. *)
Theorem initialize_topics_unique (toRFC3339String : Time -> string) (p : Player)
    (init : Initialization) (blockLoaderCtor : Result unit) :
  let offered :=
    providerTopics (snd (stateInitialize toRFC3339String (Ret init) blockLoaderCtor p)) in
  NoDup (map Topic.name offered)
  /\ (forall topic, In topic offered -> In topic (init_topics init))
  /\ (forall topic, In topic (init_topics init) ->
                    exists kept, In kept offered /\ Topic.name kept = Topic.name topic)
  /\ length (snd (dedupTopics (init_topics init) JsMap.empty (init_problems init)))
     + length offered
     = length (init_problems init) + length (init_topics init).
Proof.
  cbv zeta. rewrite stateInitialize_providerTopics.
  destruct (dedupTopics_keyed (init_topics init) JsMap.empty (init_problems init))
    as (H1 & H2 & H3 & H4 & _ & H6); [apply NoDup_nil_2|apply Forall_nil_2|].
  set (u := fst (dedupTopics (init_topics init) JsMap.empty (init_problems init))) in *.
  assert (map Topic.name (JsMap.values u) = keysOf u) as Hnames.
  { unfold JsMap.values, keysOf. clear -H2.
    induction H2 as [|[k v] u Hk _ IH]; cbn in *; [done|]. by rewrite IH, Hk. }
  split; [by rewrite Hnames|]. split.
  { intros topic Hin. unfold JsMap.values in Hin.
    apply in_map_iff in Hin as (entry & <- & Hin).
    destruct (H3 entry Hin) as [[]|]; done. }
  split.
  { intros topic Hin. specialize (H4 topic Hin). unfold JsMap.has in H4.
    destruct (JsMap.get (Topic.name topic) u) as [kept|] eqn:Hget; [|done].
    exists kept.
    assert (In (Topic.name topic, kept) u) as Hentry.
    { clear -Hget. induction u as [|[k v] u IH]; cbn in *; [done|].
      destruct (String.eqb_spec (Topic.name topic) k) as [->|Hne].
      - left. congruence.
      - right. by apply IH. }
    split.
    - unfold JsMap.values. apply in_map_iff. by exists (Topic.name topic, kept).
    - rewrite List.Forall_forall in H2. symmetry. exact (H2 _ Hentry). }
  unfold JsMap.values. rewrite length_map. cbn in H6. lia.
Qed.
(** ** More on the start-play state *)

(** With nothing requested, the read loop of [#stateStartPlay] is the read
    loop of a tick, and it runs to its end. *)
Lemma startPlayRead_tickRead (w : Time) (results : list IteratorResult)
    (msgs : list MessageEvent.t) (p : Player) :
  nextState p = None ->
  startPlayRead w results msgs p
  = (true, fst (tickRead w results msgs p), snd (tickRead w results msgs p)).
Proof.
  revert msgs p. induction results as [|result rest IH]; intros msgs p Hn; cbn.
  - done.
  - rewrite Hn. cbn. destruct result as [m|cid problem|stamp].
    + destruct (_ >? _)%Z; [done|]. by apply IH.
    + by apply IH.
    + destruct (_ >=? _)%Z; [done|]. by apply IH.
Qed.

(** The read loop writes the iterator, the registry and what it keeps for
    the next tick, and nothing else. *)
Lemma tickRead_frame (w : Time) (results : list IteratorResult)
    (msgs : list MessageEvent.t) (p : Player) :
  runningState (snd (tickRead w results msgs p)) = runningState p
  /\ effects (snd (tickRead w results msgs p)) = effects p
  /\ abort (snd (tickRead w results msgs p)) = abort p
  /\ state (snd (tickRead w results msgs p)) = state p
  /\ lastRangeMillis (snd (tickRead w results msgs p)) = lastRangeMillis p
  /\ lastTickMillis (snd (tickRead w results msgs p)) = lastTickMillis p
  /\ hasError (snd (tickRead w results msgs p)) = hasError p
  /\ allTopics (snd (tickRead w results msgs p)) = allTopics p
  /\ seekTarget (snd (tickRead w results msgs p)) = seekTarget p
  /\ presence (snd (tickRead w results msgs p)) = presence p.
Proof.
  revert msgs p. induction results as [|result rest IH]; intros msgs p; cbn; [done|].
  destruct (isSome (nextState p)); [done|]. destruct result as [m|cid problem|stamp].
  - destruct (_ >? _)%Z; [done|].
    exact (IH (msgs ++ [m]) (set_playbackIterator (Some rest) p)).
  - exact (IH msgs
             (set_problemManager
                (PlayerProblemManager.addProblem ("connid-" +:+ pretty cid) problem
                   (problemManager (set_playbackIterator (Some rest) p)))
                (set_playbackIterator (Some rest) p))).
  - destruct (_ >=? _)%Z; [done|].
    exact (IH msgs (set_playbackIterator (Some rest) p)).
Qed.

Lemma SEEK_ON_START_positive : Time.positive (fromNanoSec SEEK_ON_START_NS).
Proof. vm_compute. split; [split; [discriminate|split; [discriminate|reflexivity]]|]. by right. Qed.

(** X15. [#stateStartPlay] with no seek pending, on an ordered stream: it
    asks the source for an iterator from [start], reads up to the stop time
    [clampTime(start + 99 ms, start, end)], and returns with the time at the
    stop time and the idle state requested; the batch it sets and what it
    leaves pending split the messages of the stream at the stop time, none
    lost and none twice, and the iterator is in step with the new time. *)
Theorem stateStartPlay_reads_start_window (p : Player) (s e : Time)
    (results : list IteratorResult) :
  runningState p = true -> nextState p = None ->
  start p = Some s -> end_ p = Some e -> Time.valid s ->
  seekTarget p = None -> playbackIterator p = None -> lastStamp p = None ->
  streamOrdered results = true ->
  exists target,
    let stop := Time.clampTime target s e in
    let p' := snd (stateStartPlay results p) in
    Time.add s (fromNanoSec SEEK_ON_START_NS) = Ret target
    /\ fst (stateStartPlay results p) = Ret tt
    /\ currentTime p' = Some stop
    /\ messagesOf results = messages p' ++ pendingMessages p'
    /\ forallb (notAfter stop) (messages p') = true
    /\ forallb (after stop) (pendingMessages p') = true
    /\ streamReady stop p' = true
    /\ presence p' = PRESENT
    /\ nextState p' = Some Idle
    /\ In (SourceMessageIterator (ref_val (allTopics p)) s) (effects p').
Proof.
  intros Hrun Hn Hs He Hv Hseek Hit Hstamp Ho.
  destruct (TimeFacts.add_positive s _ Hv SEEK_ON_START_positive) as (target & Hadd & _).
  exists target. cbv zeta.
  set (stop := Time.clampTime target s e).
  split; [done|].
  unfold stateStartPlay. run_method. rewrite Hs, He, Hseek. cbn. rewrite Hadd. cbn.
  rewrite Hit. cbn. fold stop.
  set (q := set_messages [] _).
  rewrite (startPlayRead_tickRead stop results [] q) by done.
  destruct (tickRead_window stop results [] q) as (batch & H1 & H2 & H3 & H4 & H5 & H6);
    [done|done|done|done|].
  pose proof (tickRead_sameClock stop results [] q) as (_ & _ & _ & _ & _ & Hn' & _).
  pose proof (tickRead_frame stop results [] q) as (Hrun' & Heff & _).
  destruct (tickRead stop results [] q) as [msgs' q'] eqn:Hread. cbn [fst snd] in *.
  cbn in H1. subst msgs'. cbn.
  set (r := addEffect QueueEmitState _).
  pose proof (setState_data Idle r) as Hd.
  assert (runningState r = true) as Hr by (subst r; cbn; by rewrite Hrun').
  assert (nextState r <> Some Close) as Hnr
    by (subst r; cbn; rewrite Hn'; subst q; cbn; congruence).
  destruct (setState_running_fields Idle r Hr Hnr) as (S1 & _ & _ & _ & S5 & _).
  assert (pendingMessages (setState Idle r) = pendingMessages q') as Hpend.
  { unfold pendingMessages, pendingResults.
    by rewrite S5, (data_field lastMessageEvent (fun _ => eq_refl) _ _ Hd). }
  assert (pendingResults (setState Idle r) = pendingResults q') as Hres.
  { unfold pendingResults.
    by rewrite S5, (data_field lastMessageEvent (fun _ => eq_refl) _ _ Hd). }
  unfold streamReady. rewrite Hpend, Hres.
  rewrite (data_field currentTime (fun _ => eq_refl) _ _ Hd),
    (data_field messages (fun _ => eq_refl) _ _ Hd),
    (data_field presence (fun _ => eq_refl) _ _ Hd),
    (data_field lastStamp (fun _ => eq_refl) _ _ Hd).
  cbn.
  split; [done|]. split; [done|]. split; [done|]. split; [done|]. split; [done|].
  split.
  { rewrite H5, H4. cbn. by destruct (lastStamp q'). }
  split; [done|]. split; [done|].
  rewrite (setState_running Idle r Hr Hnr).
  subst r. cbn. destruct (abort q'); cbn; rewrite Heff; subst q; cbn;
    rewrite !in_app_iff; cbn; tauto.
Qed.

Lemma stateStartPlay_reads_start_window_witness :
  let p := handlerReturns
             (snd (stateInitialize (fun _ => "") (Ret sampleInit) (Ret tt)
                     (snd (setSubscriptions subscribeA
                             (snd (setListener (newPlayer None None))))))) in
  (runningState p = true /\ nextState p = None
   /\ start p = Some (millis 0) /\ end_ p = Some (millis 1000) /\ Time.valid (millis 0)
   /\ seekTarget p = None /\ playbackIterator p = None /\ lastStamp p = None
   /\ streamOrdered stampedResults = true)
  /\ exists target,
       currentTime (snd (stateStartPlay stampedResults p))
       = Some (Time.clampTime target (millis 0) (millis 1000)).
Proof.
  intros p.
  assert (Time.valid (millis 0)) as Hv by (vm_compute; repeat split; discriminate).
  split.
  - split_and!; try by_evaluation. exact Hv.
  - destruct (stateStartPlay_reads_start_window p (millis 0) (millis 1000) stampedResults)
      as (target & H); try by_evaluation; [exact Hv|].
    exists target. exact (proj1 (proj2 (proj2 H))).
Defined.
(** ** More on the seek-backfill state and the iterator *)

(** One nanosecond after a normalized time is the next normalized time. *)
Lemma add_nanosecond_next (cur : Time) :
  Time.valid cur ->
  exists next,
    Time.add cur (Time.mk 0 1) = Ret next
    /\ Time.lt cur next /\ Time.valid next
    /\ forall x, Time.valid x -> Time.lt cur x -> Time.le next x.
Proof.
  intros Hv.
  destruct (TimeFacts.add_positive cur (Time.mk 0 1) Hv) as (next & Hadd & Hlt & Hvn).
  { split; [split; cbn; lia|right; cbn; lia]. }
  exists next. split; [done|]. split; [done|]. split; [done|].
  intros x Hx Hcx.
  destruct Hv as [Hv1 Hv2], Hx as [Hx1 Hx2].
  unfold Time.add, Time.fixTime in Hadd. cbn [Time.sec Time.nsec] in Hadd.
  destruct (_ || _) in Hadd; [discriminate|]. injection Hadd as <-.
  clear Hlt Hvn. unfold Time.lt, Time.le, Time.compare in *.
  cbn [Time.sec Time.nsec] in *.
  destruct (Z.eq_dec (Time.nsec cur + 1) 1000000000)%Z as [E|E].
  - rewrite E in *. rewrite Z.div_same, Z.rem_same by lia. cbn.
    destruct (Z.eqb_spec (Time.sec cur - Time.sec x) 0); cbn in Hcx; [lia|].
    destruct (Z.eqb_spec (Time.sec cur + 0 + 1 - Time.sec x) 0); cbn; lia.
  - rewrite Z.div_small, Z.rem_small by lia.
    destruct (Z.ltb_spec (Time.nsec cur + 1) 0); [lia|].
    rewrite Z.abs_eq by lia.
    destruct (Z.eqb_spec (Time.sec cur - Time.sec x) 0); cbn in Hcx;
      destruct (Z.eqb_spec (Time.sec cur + 0 + 0 - Time.sec x) 0); cbn; lia.
Qed.

Lemma resetPlaybackIterator_eq (results : list IteratorResult) (p : Player)
    (cur next : Time) :
  currentTime p = Some cur -> Time.add cur (Time.mk 0 1) = Ret next ->
  resetPlaybackIterator results p
  = (Ret tt,
     set_playbackIterator (Some results)
       (addEffect (SourceMessageIterator (ref_val (allTopics p)) next)
          (addEffect SourceStopProducer
             (if isSome (playbackIterator p) then addEffect IteratorReturn p else p)))).
Proof.
  intros Hc Hadd. unfold resetPlaybackIterator. run_method. rewrite Hc, Hadd. cbn.
  by destruct (playbackIterator p).
Qed.

Arguments resetPlaybackIterator : simpl never.

(** [#stateSeekBackfill] when the backfill arrives and nothing else has been
    requested. *)
Lemma stateSeekBackfill_eq (p : Player) (s e t next : Time)
    (msgs : list MessageEvent.t) (results : list IteratorResult) :
  runningState p = true -> nextState p = None ->
  start p = Some s -> end_ p = Some e -> seekTarget p = Some t ->
  Time.add (Time.clampTime t s e) (Time.mk 0 1) = Ret next ->
  stateSeekBackfill (Ret msgs) results p
  = (Ret tt,
     set_abort false
       (set_seekTarget None
          (set_abort false
             (addEffect AbortSignalled
                (set_nextState (Some (if isPlaying p then Play else Idle))
                   (set_playbackIterator (Some results)
                      (addEffect
                         (SourceMessageIterator (ref_val (allTopics p)) next)
                         (addEffect SourceStopProducer
                            ((if isSome (playbackIterator p)
                              then addEffect IteratorReturn else id)
                               (addEffect QueueEmitState
                                  (set_presence PRESENT
                                     (set_currentTime (Some (Time.clampTime t s e))
                                        (set_messages msgs
                                           (addEffect
                                              (SourceGetBackfillMessages
                                                 (ref_val (allTopics p))
                                                 (Time.clampTime t s e))
                                              (set_abort true
                                                 (set_lastMessageEvent None p)))))))))))))))).
Proof.
  intros Hrun Hn Hs He Ht Hadd.
  unfold stateSeekBackfill, tryFinally. run_method.
  rewrite Hs, He, Ht. cbn. rewrite Hn. cbn.
  rewrite (resetPlaybackIterator_eq results _ (Time.clampTime t s e) next) by done.
  cbn. destruct (playbackIterator p) eqn:Hit; cbn;
    rewrite setState_running by (cbn; congruence); cbn;
    destruct (isPlaying p); by rewrite bool_decide_eq_false_2.
Qed.

Lemma stateSeekBackfill_ok (p : Player) (s e t next : Time)
    (msgs : list MessageEvent.t) (results : list IteratorResult) :
  runningState p = true -> nextState p = None ->
  start p = Some s -> end_ p = Some e -> seekTarget p = Some t ->
  Time.add (Time.clampTime t s e) (Time.mk 0 1) = Ret next ->
  fst (stateSeekBackfill (Ret msgs) results p) = Ret tt
  /\ currentTime (snd (stateSeekBackfill (Ret msgs) results p))
     = Some (Time.clampTime t s e)
  /\ messages (snd (stateSeekBackfill (Ret msgs) results p)) = msgs
  /\ seekTarget (snd (stateSeekBackfill (Ret msgs) results p)) = None
  /\ abort (snd (stateSeekBackfill (Ret msgs) results p)) = false
  /\ lastMessageEvent (snd (stateSeekBackfill (Ret msgs) results p)) = None
  /\ playbackIterator (snd (stateSeekBackfill (Ret msgs) results p)) = Some results
  /\ nextState (snd (stateSeekBackfill (Ret msgs) results p))
     = Some (if isPlaying p then Play else Idle)
  /\ runningState (snd (stateSeekBackfill (Ret msgs) results p)) = true
  /\ state (snd (stateSeekBackfill (Ret msgs) results p)) = state p
  /\ isPlaying (snd (stateSeekBackfill (Ret msgs) results p)) = isPlaying p
  /\ start (snd (stateSeekBackfill (Ret msgs) results p)) = Some s
  /\ end_ (snd (stateSeekBackfill (Ret msgs) results p)) = Some e
  /\ hasError (snd (stateSeekBackfill (Ret msgs) results p)) = hasError p
  /\ untilTime (snd (stateSeekBackfill (Ret msgs) results p)) = untilTime p
  /\ allTopics (snd (stateSeekBackfill (Ret msgs) results p)) = allTopics p
  /\ lastStamp (snd (stateSeekBackfill (Ret msgs) results p)) = lastStamp p
  /\ handlersRun (snd (stateSeekBackfill (Ret msgs) results p)) = handlersRun p
  /\ effects (snd (stateSeekBackfill (Ret msgs) results p))
     = effects p
       ++ [SourceGetBackfillMessages (ref_val (allTopics p)) (Time.clampTime t s e);
           QueueEmitState]
       ++ (if isSome (playbackIterator p) then [IteratorReturn] else [])
       ++ [SourceStopProducer;
           SourceMessageIterator (ref_val (allTopics p)) next;
           AbortSignalled].
Proof.
  intros Hrun Hn Hs He Ht Hadd.
  rewrite (stateSeekBackfill_eq p s e t next msgs results) by done.
  unfold handlersRun. cbn [fst snd].
  destruct (playbackIterator p) eqn:Hit; cbn; rewrite ?Hit, ?Hrun, ?Hs, ?He.
  all: rewrite !handlersOf_app; cbn [handlersOf]; rewrite !app_nil_r;
    rewrite <- ?(app_assoc (effects p)); cbn [app].
  all: split_and!; reflexivity.
Qed.

Lemma clampTime_valid (x lo hi : Time) :
  Time.valid x -> Time.valid lo -> Time.valid hi -> Time.valid (Time.clampTime x lo hi).
Proof.
  intros Hx Hlo Hhi.
  by destruct (TimeFacts.clampTime_cases x lo hi) as [[_ ->]|[(_ & _ & ->)|(_ & _ & ->)]].
Qed.

Lemma clampTime_idem (x lo hi : Time) :
  Time.le lo hi ->
  Time.clampTime (Time.clampTime x lo hi) lo hi = Time.clampTime x lo hi.
Proof.
  intros H. destruct (clampTime_within x lo hi H) as [H1 H2].
  destruct (TimeFacts.clampTime_cases (Time.clampTime x lo hi) lo hi)
    as [[G _]|[(_ & G & _)|(_ & _ & G)]]; [| |done].
  - by apply TimeFacts.not_le_lt in G.
  - by apply TimeFacts.not_le_lt in G.
Qed.

(** X16. A seek carried through.  On a player past initialization whose loop
    is busy with nothing pending, [seekPlayback(time)] to a new time, the
    return of the running handler, the seek-backfill state with the backfill
    the source delivers, and the return of that handler leave the player at
    the clamped time with the backfill as its batch, no seek target, and a
    new iterator that the source was asked to start at the next nanosecond
    after the clamped time (asked after the backfill, for the same topics);
    the player is then in the play state if it was playing and in the idle
    state otherwise, and no other handler has run. *)
Theorem seek_request_completes (p : Player) (time s e cur : Time)
    (msgs : list MessageEvent.t) (results : list IteratorResult) :
  state p <> Preinit -> state p <> Initialize ->
  runningState p = true -> nextState p = None ->
  start p = Some s -> end_ p = Some e -> Time.le s e ->
  Time.valid s -> Time.valid e -> Time.valid time ->
  currentTime p = Some cur -> Time.compare cur (Time.clampTime time s e) <> 0%Z ->
  seekTarget p = None ->
  let target := Time.clampTime time s e in
  let requested := snd (seekPlayback time p) in
  let entered := handlerReturns requested in
  let filled := snd (stateSeekBackfill (Ret msgs) results entered) in
  let settled := handlerReturns filled in
  exists next,
    Time.add target (Time.mk 0 1) = Ret next
    /\ Time.lt target next
    /\ (forall x, Time.valid x -> Time.lt target x -> Time.le next x)
    /\ fst (stateSeekBackfill (Ret msgs) results entered) = Ret tt
    /\ currentTime settled = Some target
    /\ messages settled = msgs
    /\ seekTarget settled = None
    /\ untilTime settled = None
    /\ playbackIterator settled = Some results
    /\ isPlaying settled = isPlaying p
    /\ state settled = (if isPlaying p then Play else Idle)
    /\ nextState settled = None
    /\ handlersRun settled
       = handlersRun p ++ [SeekBackfill; if isPlaying p then Play else Idle]
    /\ exists before between,
         effects filled
         = before
           ++ [SourceGetBackfillMessages (ref_val (allTopics p)) target]
           ++ between
           ++ [SourceMessageIterator (ref_val (allTopics p)) next; AbortSignalled].
Proof.
  intros Hpre Hinit Hrun Hn Hs He Hse Hvs Hve Hvt Hcur Hne Hseek. cbv zeta.
  destruct (add_nanosecond_next (Time.clampTime time s e)) as (next & Hadd & Hlt & _ & Hnext).
  { by apply clampTime_valid. }
  exists next. split; [done|]. split; [done|]. split; [done|].
  rewrite (seekPlayback_seeks p time s e); try done.
  2: { intros c Hc. congruence. }
  2: { intros c Hc. congruence. }
  cbn [fst snd].
  set (q := set_lastRangeMillis None _).
  assert (runningState q = true) as Hq1 by done.
  assert (nextState q <> Some Close) as Hq2 by (subst q; cbn; congruence).
  pose proof (setState_data SeekBackfill q) as Hd1.
  destruct (setState_running_fields SeekBackfill q Hq1 Hq2) as (A1 & _ & A3 & _ & _ & A6).
  remember (setState SeekBackfill q) as requested eqn:E. clear E.
  pose proof (handlerReturns_data requested) as Hd2.
  destruct (handlerReturns_pending SeekBackfill requested A3 A1)
    as (B1 & B2 & B3 & _ & B5 & _).
  remember (handlerReturns requested) as entered eqn:E. clear E.
  assert (dataOf entered = dataOf q) as Hd by congruence.
  assert (start entered = Some s) as Es
    by (by rewrite (data_field start (fun _ => eq_refl) _ _ Hd)).
  assert (end_ entered = Some e) as Ee
    by (by rewrite (data_field end_ (fun _ => eq_refl) _ _ Hd)).
  assert (seekTarget entered = Some (Time.clampTime time s e)) as Et
    by (by rewrite (data_field seekTarget (fun _ => eq_refl) _ _ Hd)).
  assert (isPlaying entered = isPlaying p) as Ep
    by (by rewrite (data_field isPlaying (fun _ => eq_refl) _ _ Hd)).
  assert (untilTime entered = None) as Eu
    by (by rewrite (data_field untilTime (fun _ => eq_refl) _ _ Hd)).
  assert (allTopics entered = allTopics p) as Ea
    by (by rewrite (data_field allTopics (fun _ => eq_refl) _ _ Hd)).
  pose proof (clampTime_idem time s e Hse) as Hcc.
  assert (Time.add (Time.clampTime (Time.clampTime time s e) s e) (Time.mk 0 1) = Ret next)
    as Hadd' by (by rewrite Hcc).
  destruct (stateSeekBackfill_ok entered s e (Time.clampTime time s e) next msgs results
              B3 B2 Es Ee Et Hadd')
    as (C1&C2&C3&C4&C5&C6&C7&C8&C9&C10&C11&C12&C13&C14&C15&C16&C17&C18&C19).
  rewrite Hcc in *.
  split; [done|].
  remember (snd (stateSeekBackfill (Ret msgs) results entered)) as filled eqn:E. clear E.
  pose proof (handlerReturns_data filled) as Hd3.
  destruct (handlerReturns_pending _ filled C9 C8) as (D1 & D2 & _ & _ & D5 & D6).
  rewrite (data_field currentTime (fun _ => eq_refl) _ _ Hd3),
    (data_field messages (fun _ => eq_refl) _ _ Hd3),
    (data_field seekTarget (fun _ => eq_refl) _ _ Hd3),
    (data_field untilTime (fun _ => eq_refl) _ _ Hd3),
    (data_field isPlaying (fun _ => eq_refl) _ _ Hd3).
  rewrite D1, D2, D5, D6, C18, B5, A6, Ep, C7.
  split; [done|]. split; [done|]. split; [done|]. split; [congruence|].
  split. { by destruct (isPlaying p). }
  split; [congruence|]. split; [done|]. split; [done|].
  split.
  { unfold handlersRun. subst q. cbn. rewrite handlersOf_app. cbn.
    by rewrite app_nil_r, <- app_assoc. }
  rewrite C19, Ea.
  exists (effects entered),
    (QueueEmitState
       :: (if isSome (playbackIterator entered) then [IteratorReturn] else [])
       ++ [SourceStopProducer]).
  by destruct (isSome (playbackIterator entered)).
Qed.

Lemma seek_request_completes_witness :
  (state sampleIdle <> Preinit /\ state sampleIdle <> Initialize
   /\ runningState sampleIdle = true /\ nextState sampleIdle = None
   /\ start sampleIdle = Some (millis 0) /\ end_ sampleIdle = Some (millis 1000)
   /\ Time.le (millis 0) (millis 1000)
   /\ Time.valid (millis 0) /\ Time.valid (millis 1000) /\ Time.valid (millis 500)
   /\ currentTime sampleIdle = Some (millis 99)
   /\ Time.compare (millis 99) (Time.clampTime (millis 500) (millis 0) (millis 1000)) <> 0%Z
   /\ seekTarget sampleIdle = None)
  /\ currentTime
       (handlerReturns
          (snd (stateSeekBackfill (Ret []) []
                  (handlerReturns (snd (seekPlayback (millis 500) sampleIdle))))))
     = Some (Time.clampTime (millis 500) (millis 0) (millis 1000)).
Proof.
  assert (Time.valid (millis 0)) as H0 by (unfold Time.valid; split_and!; by_evaluation).
  assert (Time.valid (millis 1000)) as H1 by (unfold Time.valid; split_and!; by_evaluation).
  assert (Time.valid (millis 500)) as H2 by (unfold Time.valid; split_and!; by_evaluation).
  split.
  - split_and!; try by_evaluation; done.
  - assert (Time.le (millis 0) (millis 1000)) as Hle by by_evaluation.
    destruct (seek_request_completes sampleIdle (millis 500) (millis 0) (millis 1000)
                (millis 99) [] []
                ltac:(by_evaluation) ltac:(by_evaluation) ltac:(by_evaluation)
                ltac:(by_evaluation) ltac:(by_evaluation) ltac:(by_evaluation)
                Hle H0 H1 H2 ltac:(by_evaluation) ltac:(by_evaluation)
                ltac:(by_evaluation))
      as (next & H).
    exact (proj1 (proj2 (proj2 (proj2 (proj2 H))))).
Defined.



(** X18. The reset-playback-iterator state: the iterator in use is returned,
    the producer of the source stopped, and a new iterator asked of the
    source for the current topics, from the next nanosecond after the
    current time, so that it yields exactly what is later than the current
    time; the time and the batch are kept, and the play state is requested
    if the player is playing, the idle state otherwise. *)
Theorem resetPlaybackIterator_restarts_after_now (p : Player) (cur : Time)
    (results : list IteratorResult) :
  runningState p = true -> nextState p = None ->
  currentTime p = Some cur -> Time.valid cur ->
  exists next,
    let p' := snd (stateResetPlaybackIterator results p) in
    Time.add cur (Time.mk 0 1) = Ret next
    /\ Time.lt cur next
    /\ (forall x, Time.valid x -> Time.lt cur x -> Time.le next x)
    /\ fst (stateResetPlaybackIterator results p) = Ret tt
    /\ playbackIterator p' = Some results
    /\ nextState p' = Some (if isPlaying p then Play else Idle)
    /\ currentTime p' = Some cur
    /\ messages p' = messages p
    /\ isPlaying p' = isPlaying p
    /\ effects p'
       = effects p
         ++ (if isSome (playbackIterator p) then [IteratorReturn] else [])
         ++ [SourceStopProducer; SourceMessageIterator (ref_val (allTopics p)) next]
         ++ (if abort p then [AbortSignalled] else []).
Proof.
  intros Hrun Hn Hc Hv.
  destruct (add_nanosecond_next cur Hv) as (next & Hadd & Hlt & _ & Hnext).
  exists next. cbv zeta. split; [done|]. split; [done|]. split; [done|].
  unfold stateResetPlaybackIterator. run_method. rewrite Hc. cbn.
  rewrite (resetPlaybackIterator_eq results p cur next Hc Hadd). cbn.
  destruct (playbackIterator p) eqn:Hit; cbn;
    rewrite setState_running by (cbn; congruence); cbn;
    destruct (abort p) eqn:Ha; cbn; rewrite ?Hc;
    rewrite <- ?(app_assoc (effects p)); cbn [app];
    split_and!; reflexivity.
Qed.

Lemma resetPlaybackIterator_restarts_after_now_witness :
  (runningState sampleIdle = true /\ nextState sampleIdle = None
   /\ currentTime sampleIdle = Some (millis 99) /\ Time.valid (millis 99))
  /\ exists next,
       Time.add (millis 99) (Time.mk 0 1) = Ret next
       /\ playbackIterator (snd (stateResetPlaybackIterator stampedResultsAB sampleIdle))
          = Some stampedResultsAB.
Proof.
  assert (Time.valid (millis 99)) as Hv by (unfold Time.valid; split_and!; by_evaluation).
  split.
  - split_and!; try by_evaluation; assumption.
  - destruct (resetPlaybackIterator_restarts_after_now sampleIdle (millis 99)
                stampedResultsAB ltac:(by_evaluation) ltac:(by_evaluation)
                ltac:(by_evaluation) Hv) as (next & H).
    exists next. split; [exact (proj1 H)|].
    exact (proj1 (proj2 (proj2 (proj2 (proj2 H))))).
Defined.
(** ** More on the play state *)

Arguments statePlayLoop : simpl never.

Lemma statePlayLoop_cons (tickTime : Q) (rest : list Q) (allTopics0 : nat) (p : Player) :
  statePlayLoop (tickTime :: rest) allTopics0 p
  = (if isPlaying p && negb (hasError p) && negb (isSome (nextState p))
     then
       match currentTime p, end_ p with
       | Some cur, Some end__ =>
           if (Time.compare cur end__ >=? 0)%Z
           then
             (Ret tt,
              setState Idle
                (set_lastStamp None (set_lastRangeMillis None (set_lastTickMillis None p))))
           else
             match tick tickTime p with
             | (Ret _, q) =>
                 if isSome (nextState q) then (Ret tt, q)
                 else if negb (Nat.eqb (ref_id (allTopics q)) allTopics0)
                 then (Ret tt, setState ResetPlaybackIterator (set_lastMessageEvent None q))
                 else statePlayLoop rest allTopics0 q
             | (Thrown msg, q) => (Thrown msg, q)
             end
       | _, _ => (Thrown "TypeError: Cannot read properties of undefined", p)
       end
     else (Ret tt, p)).
Proof.
  unfold statePlayLoop at 1. fold statePlayLoop. run_method.
  destruct (_ && _); [|done].
  destruct (currentTime p); [|done]. destruct (end_ p); [|done].
  destruct (_ >=? _)%Z; [done|]. cbn.
  destruct (tick tickTime p) as [[[]|msg] q]; [|done]. cbn.
  destruct (isSome (nextState q)); [done|].
  by destruct (negb _).
Qed.

(** [#statePlay] when the time has reached the end of the data. *)
Lemma statePlay_at_end (ticks : list Q) (tickTime : Q) (p : Player) (s e cur : Time) :
  isPlaying p = true -> hasError p = false -> nextState p = None ->
  currentTime p = Some cur -> start p = Some s -> end_ p = Some e -> Time.le e cur ->
  statePlay (tickTime :: ticks) p
  = (Ret tt,
     setState Idle
       (set_lastStamp None
          (set_lastRangeMillis None (set_lastTickMillis None (set_presence PRESENT p))))).
Proof.
  intros Hp Herr Hn Hc Hs He Hle.
  unfold statePlay. run_method. rewrite Hc, Hs, He. cbn.
  rewrite statePlayLoop_cons. cbn. rewrite Hp, Herr, Hn, Hc, He. cbn.
  apply TimeFacts.le_ge in Hle. apply Z.geb_le in Hle. by rewrite Hle.
Qed.

(** X19. Playback that has reached the end of the data comes to rest: the
    play state makes no tick (the time, the batch and the iterator are
    untouched), clears the trackers of the tick clock and requests the idle
    state; the idle handler, called next, ends playing.  The player is idle,
    not playing, its iterator kept. *)
Theorem playback_at_end_rests_idle (ticks : list Q) (tickTime : Q) (p : Player)
    (s e cur : Time) :
  runningState p = true -> nextState p = None ->
  isPlaying p = true -> hasError p = false ->
  currentTime p = Some cur -> start p = Some s -> end_ p = Some e -> Time.le e cur ->
  let played := snd (statePlay (tickTime :: ticks) p) in
  let rested := snd (stateIdle (handlerReturns played)) in
  fst (statePlay (tickTime :: ticks) p) = Ret tt
  /\ nextState played = Some Idle
  /\ currentTime played = Some cur /\ messages played = messages p
  /\ playbackIterator played = playbackIterator p
  /\ lastTickMillis played = None /\ lastRangeMillis played = None
  /\ lastStamp played = None
  /\ isPlaying played = true
  /\ fst (stateIdle (handlerReturns played)) = Ret tt
  /\ state rested = Idle /\ nextState rested = None
  /\ isPlaying rested = false
  /\ currentTime rested = Some cur
  /\ playbackIterator rested = playbackIterator p
  /\ handlersRun rested = handlersRun p ++ [Idle].
Proof.
  intros Hrun Hn Hp Herr Hc Hs He Hle. cbv zeta.
  rewrite (statePlay_at_end ticks tickTime p s e cur) by done. cbn [fst snd].
  set (q := set_lastStamp None _).
  pose proof (setState_data Idle q) as Hd.
  destruct (setState_running_fields Idle q) as (A1&_&A3&A4&A5&A6);
    [done|subst q; cbn; congruence|].
  remember (setState Idle q) as played eqn:E. clear E.
  pose proof (handlerReturns_data played) as Hd'.
  destruct (handlerReturns_pending Idle played A3 A1) as (B1&B2&_&B4&B5&B6).
  rewrite stateIdle_rests by congruence. cbn [fst snd].
  remember (handlerReturns played) as entered eqn:E. clear E.
  unfold handlersRun in *. cbn.
  rewrite handlersOf_app. cbn. rewrite app_nil_r.
  rewrite (data_field currentTime (fun _ => eq_refl) _ _ Hd'),
    (data_field currentTime (fun _ => eq_refl) _ _ Hd),
    (data_field messages (fun _ => eq_refl) _ _ Hd),
    (data_field lastTickMillis (fun _ => eq_refl) _ _ Hd),
    (data_field lastRangeMillis (fun _ => eq_refl) _ _ Hd),
    (data_field lastStamp (fun _ => eq_refl) _ _ Hd),
    (data_field isPlaying (fun _ => eq_refl) _ _ Hd).
  rewrite B1, B2, B5, B6, A1, A5, A6. subst q. cbn.
  split_and!; try reflexivity; assumption.
Qed.

Lemma playback_at_end_rests_idle_witness :
  let p := set_currentTime (Some (millis 1000)) samplePlaying in
  (runningState p = true /\ nextState p = None /\ isPlaying p = true
   /\ hasError p = false /\ currentTime p = Some (millis 1000)
   /\ start p = Some (millis 0) /\ end_ p = Some (millis 1000)
   /\ Time.le (millis 1000) (millis 1000))
  /\ isPlaying (snd (stateIdle (handlerReturns (snd (statePlay [16%Q] p))))) = false.
Proof.
  intros p. split.
  - split_and!; by_evaluation.
  - apply (playback_at_end_rests_idle [] 16%Q p (millis 0) (millis 1000) (millis 1000));
      by_evaluation.
Defined.

(** X20. The play state never throws to the run loop once the time and the
    bounds are set: whatever a tick throws is caught there, and then the
    player is in error and not playing, the error is registered as the
    problem [global-error], and an emit is queued. *)
Theorem statePlay_catches_errors (ticks : list Q) (p : Player) :
  currentTime p <> None -> start p <> None -> end_ p <> None ->
  fst (statePlay ticks p) = Ret tt
  /\ forall msg,
       fst (statePlayLoop ticks (ref_id (allTopics p)) (set_presence PRESENT p))
       = Thrown msg ->
       hasError (snd (statePlay ticks p)) = true
       /\ isPlaying (snd (statePlay ticks p)) = false
       /\ JsMap.get "global-error" (PPM.problemsById (problemManager (snd (statePlay ticks p))))
          = Some (mkProblem SevError msg None (Some msg))
       /\ exists before, effects (snd (statePlay ticks p)) = before ++ [QueueEmitState].
Proof.
  intros Hc Hs He. unfold statePlay. run_method.
  destruct (currentTime p); [|done]. destruct (start p); [|done].
  destruct (end_ p); [|done]. cbn.
  destruct (statePlayLoop ticks (ref_id (allTopics p)) (set_presence PRESENT p))
    as [[[]|msg'] q]; cbn.
  - split; [done|]. intros msg H. discriminate H.
  - split; [done|]. intros msg H. injection H as ->.
    split; [done|]. split; [done|]. split.
    + apply JsMapFacts.get_set_eq.
    + by eexists.
Qed.

Lemma statePlay_catches_errors_witness :
  let p := set_lastMessageEvent None (set_playbackIterator None samplePlaying) in
  (currentTime p <> None /\ start p <> None /\ end_ p <> None)
  /\ fst (statePlay [16%Q] p) = Ret tt
  /\ hasError (snd (statePlay [16%Q] p)) = true.
Proof.
  intros p.
  assert (currentTime p <> None) as Hc by by_evaluation.
  assert (start p <> None) as Hs by by_evaluation.
  assert (end_ p <> None) as He by by_evaluation.
  split; [split_and!; assumption|].
  destruct (statePlay_catches_errors [16%Q] p Hc Hs He) as [Hret Hcatch].
  split; [exact Hret|].
  assert (fst (statePlayLoop [16%Q] (ref_id (allTopics p)) (set_presence PRESENT p))
          = Thrown "Invariant. this._playbackIterator is undefined.") as Hthrow
    by by_evaluation.
  exact (proj1 (Hcatch _ Hthrow)).
Defined.

(** *** The range of a tick *)

Lemma minQ_le_r (a b : Q) : (minQ a b <= b)%Q.
Proof.
  unfold minQ. destruct (Qle_bool a b) eqn:H; [by apply Qle_bool_iff|apply Qle_refl].
Qed.

Lemma rangeMillis_le (tickTime : Q) (p : Player) :
  rangeCapped p -> (rangeMillis tickTime p <= 300)%Q.
Proof.
  unfold rangeCapped, rangeMillis. intros H.
  pose proof (minQ_le_r (durationMillis tickTime p * speed p) 300) as Hm.
  destruct (lastRangeMillis p) as [r|]; [|done].
  apply Qle_trans with (300 * 0.9 + 300 * 0.1)%Q; [|by apply Qle_lteq; right].
  apply Qplus_le_compat; by apply Qmult_le_compat_r.
Qed.

Lemma rangeCapped_same (p q : Player) :
  lastRangeMillis q = lastRangeMillis p \/ lastRangeMillis q = None ->
  rangeCapped p -> rangeCapped q.
Proof. unfold rangeCapped. by intros [->| ->]. Qed.

Lemma finishTick_rangeCapped (w : Time) (msgs : list MessageEvent.t) (q : Player) :
  rangeCapped q -> rangeCapped (snd (finishTick w msgs q)).
Proof.
  apply rangeCapped_same. unfold finishTick, pausePlayback. run_method.
  destruct (untilTime q); cbn; [|by left].
  destruct (_ >=? _)%Z; cbn; [|by left].
  destruct (isPlaying q); cbn; [|by left].
  right. case_bool_decide; cbn; autorewrite with player; reflexivity.
Qed.

Lemma tickIterate_rangeCapped (w : Time) (msgs : list MessageEvent.t) (q : Player) :
  rangeCapped q -> rangeCapped (snd (tickIterate w msgs q)).
Proof.
  intros H. unfold tickIterate. run_method.
  destruct (playbackIterator q) as [results|]; cbn; [|done].
  pose proof (tickRead_frame w results msgs q) as (_&_&_&_&Hr&_).
  destruct (tickRead w results msgs q) as [msgs' q']. cbn in *.
  assert (rangeCapped (set_presence PRESENT q')) as Hq
    by (apply (rangeCapped_same q); [by left|done]).
  destruct (isSome (nextState q')); cbn; [done|].
  by apply finishTick_rangeCapped.
Qed.

Lemma tickBody_rangeCapped (w : Time) (q : Player) :
  rangeCapped q -> rangeCapped (snd (tickBody w q)).
Proof.
  intros H. unfold tickBody. run_method.
  destruct (lastMessageEvent q) as [last|]; cbn.
  - destruct (_ >? _)%Z; cbn.
    + by apply finishTick_rangeCapped.
    + by apply tickIterate_rangeCapped.
  - by apply tickIterate_rangeCapped.
Qed.

Lemma tick_rangeCapped (tickTime : Q) (p : Player) :
  rangeCapped p -> rangeCapped (snd (tick tickTime p)).
Proof.
  intros H. pose proof (rangeMillis_le tickTime p H) as Hle.
  unfold tick. run_method.
  destruct (isPlaying p); cbn; [|done].
  destruct (start p); cbn; [|done]. destruct (end_ p); cbn; [|done].
  destruct (currentTime p) as [cur|]; cbn; [|done].
  destruct (tickEnd cur _ _ _ _) as [w|msg]; cbn; [|done].
  set (q := set_lastRangeMillis _ _).
  assert (rangeCapped q) as Hq by done.
  destruct (lastStamp p) as [stamp|]; cbn.
  - destruct (_ >=? _)%Z; cbn.
    + by apply finishTick_rangeCapped.
    + by apply tickBody_rangeCapped.
  - by apply tickBody_rangeCapped.
Qed.

Lemma statePlayLoop_rangeCapped (ticks : list Q) (allTopics0 : nat) (p : Player) :
  rangeCapped p -> rangeCapped (snd (statePlayLoop ticks allTopics0 p)).
Proof.
  revert p. induction ticks as [|tickTime rest IH]; intros p H; [done|].
  rewrite statePlayLoop_cons.
  destruct (_ && _); [|done].
  destruct (currentTime p); [|done]. destruct (end_ p); [|done].
  destruct (_ >=? _)%Z.
  - cbn. unfold rangeCapped. by rewrite setState_lastRangeMillis.
  - pose proof (tick_rangeCapped tickTime p H) as Hq.
    destruct (tick tickTime p) as [[[]|msg] q]; [|done]. cbn in Hq.
    destruct (isSome (nextState q)); [done|].
    destruct (negb _); [|by apply IH].
    cbn. unfold rangeCapped in *. by rewrite setState_lastRangeMillis.
Qed.

(** X21. The range of a tick is capped.  As long as the smoothed range kept
    from the tick before is at most 300 ms (it is unset on a new player) the
    range a tick reads is at most 300 ms, whatever the time since the last
    tick and the speed; a tick and a whole run of the play state keep it so;
    and [setPlaybackSpeed] restarts the smoothing: the next range is
    [min(duration * speed, 300)] for the new speed. *)
Theorem tick_range_capped (p : Player) (tickTime : Q) :
  rangeCapped p ->
  (rangeMillis tickTime p <= 300)%Q
  /\ rangeCapped (snd (tick tickTime p))
  /\ (forall ticks, rangeCapped (snd (statePlay ticks p)))
  /\ (forall newSpeed,
        rangeMillis tickTime (snd (setPlaybackSpeed newSpeed p))
        = minQ (durationMillis tickTime p * newSpeed) 300
        /\ rangeCapped (snd (setPlaybackSpeed newSpeed p))).
Proof.
  intros H. split; [by apply rangeMillis_le|]. split; [by apply tick_rangeCapped|].
  split; [|done].
  intros ticks. unfold statePlay. run_method.
  destruct (currentTime p); cbn; [|done]. destruct (start p); cbn; [|done].
  destruct (end_ p); cbn; [|done].
  pose proof (statePlayLoop_rangeCapped ticks (ref_id (allTopics p))
                (set_presence PRESENT p) H) as Hq.
  by destruct (statePlayLoop ticks _ _) as [[[]|msg] q].
Qed.

Lemma tick_range_capped_witness :
  let p := set_lastRangeMillis (Some 300%Q)
             (set_lastTickMillis (Some 1%Q) (set_speed 5%Q samplePlaying)) in
  rangeCapped p /\ (rangeMillis 100000 p <= 300)%Q.
Proof.
  intros p.
  assert (rangeCapped p) as H by by_evaluation.
  split; [exact H|].
  exact (proj1 (tick_range_capped p 100000 H)).
Defined.
(** ** More on the snapshot *)

(** X22. Two emits in a row, on a player with a listener, no error, and the
    time and bounds set: the first snapshot carries the batch, the second an
    empty one, at the same time; and both carry the same array of problems,
    identity included, so that a listener can tell that no problem has
    changed. *)
Theorem emit_twice_hands_batch_once (p : Player) (s e cur : Time) :
  listener p = true -> hasError p = false ->
  start p = Some s -> end_ p = Some e -> currentTime p = Some cur ->
  exists first second data1 data2,
    fst (emitStateImpl p) = Some first
    /\ fst (emitStateImpl (snd (emitStateImpl p))) = Some second
    /\ PlayerState.activeData first = Some data1
    /\ PlayerState.activeData second = Some data2
    /\ ActiveData.messages data1 = messages p
    /\ ActiveData.messages data2 = []
    /\ ActiveData.currentTime data1 = cur
    /\ ActiveData.currentTime data2 = cur
    /\ PlayerState.problems second = PlayerState.problems first
    /\ PlayerState.presence second = PlayerState.presence first.
Proof.
  intros Hl Herr Hs He Hc.
  destruct (problems_caches (problemManager p)) as [Hcache _].
  unfold emitStateImpl. rewrite Hl, Herr. cbn.
  destruct (PPM.problems (problemManager p)) as [arr pm] eqn:Hp. cbn in Hcache.
  cbn. rewrite Hl, Herr, Hs, He, Hc. cbn.
  unfold PPM.problems. rewrite Hcache. cbn.
  eexists _, _, _, _. split_and!; reflexivity.
Qed.

Lemma emit_twice_hands_batch_once_witness :
  (listener sampleIdle = true /\ hasError sampleIdle = false
   /\ start sampleIdle = Some (millis 0) /\ end_ sampleIdle = Some (millis 1000)
   /\ currentTime sampleIdle = Some (millis 99))
  /\ exists first second,
       fst (emitStateImpl sampleIdle) = Some first
       /\ fst (emitStateImpl (snd (emitStateImpl sampleIdle))) = Some second
       /\ PlayerState.problems second = PlayerState.problems first.
Proof.
  split.
  - split_and!; by_evaluation.
  - destruct (emit_twice_hands_batch_once sampleIdle (millis 0) (millis 1000) (millis 99)
                ltac:(by_evaluation) ltac:(by_evaluation) ltac:(by_evaluation)
                ltac:(by_evaluation) ltac:(by_evaluation))
      as (first & second & data1 & data2 & H1 & H2 & _ & _ & _ & _ & _ & _ & H9 & _).
    exists first, second. split_and!; assumption.
Defined.
(** ** Closing, and subscribing while idle *)

Lemma stateClose_eq (p : Player) :
  stateClose p
  = (Ret tt,
     addEffect ResolveIsClosed
       (addEffect SourceTerminate
          (set_playbackIterator None
             ((if isSome (playbackIterator p) then addEffect IteratorReturn else id)
                (addEffect SourceTerminate
                   (addEffect SourceStopProducer
                      ((if blockLoader p then addEffect BlockLoaderStopLoading else id)
                         (addEffect MetricsClose (set_isPlaying false p))))))))).
Proof.
  unfold stateClose. run_method.
  by destruct (blockLoader p), (playbackIterator p).
Qed.

(** X23. Closing from rest.  [close()] on a player whose loop is busy with
    nothing pending (the idle state waiting, say), the return of the running
    handler, the close state, and the return of its handler: the iterator,
    if there is one, is returned once, by the loop, before the close handler
    runs; the close handler stops the block loader if there is one, stops
    and terminates the source, and resolves [isClosed] last; then the loop is
    at rest in the close state, the player not playing and without
    iterator. *)
Theorem close_from_rest (p : Player) :
  runningState p = true -> nextState p = None ->
  let closing := handlerReturns (snd (close p)) in
  let closed := handlerReturns (snd (stateClose closing)) in
  fst (close p) = Ret tt
  /\ fst (stateClose closing) = Ret tt
  /\ state closed = Close
  /\ nextState closed = None
  /\ runningState closed = false
  /\ isPlaying closed = false
  /\ playbackIterator closed = None
  /\ effects closed
     = effects p
       ++ (if abort p then [AbortSignalled] else [])
       ++ (if isSome (playbackIterator p) then [IteratorReturn] else [])
       ++ [RunHandler Close; MetricsClose]
       ++ (if blockLoader p then [BlockLoaderStopLoading] else [])
       ++ [SourceStopProducer; SourceTerminate; SourceTerminate; ResolveIsClosed].
Proof.
  intros Hrun Hn. cbv zeta.
  assert (close p = (Ret tt, setState Close p)) as -> by reflexivity. cbn [fst snd].
  rewrite setState_running by congruence.
  rewrite stateClose_eq. cbn [fst snd].
  assert (bool_decide (Close = Idle) = false) as Hci by done.
  assert (bool_decide (Close = Play) = false) as Hcp by done.
  unfold handlerReturns, runLoopHead.
  destruct (abort p) eqn:Ha, (playbackIterator p) eqn:Hit, (blockLoader p) eqn:Hbl;
    cbn; rewrite ?Hrun, ?Hit, ?Hbl, ?Hci, ?Hcp;
    cbn; rewrite ?Hrun, ?Hit, ?Hbl, ?Hci, ?Hcp;
    cbn; rewrite ?Hrun, ?Hit, ?Hbl, ?Hci, ?Hcp;
    cbn; rewrite <- ?(app_assoc (effects p)); cbn [app]; split_and!; reflexivity.
Qed.

Lemma close_from_rest_witness :
  (runningState sampleIdle = true /\ nextState sampleIdle = None)
  /\ runningState
       (handlerReturns (snd (stateClose (handlerReturns (snd (close sampleIdle))))))
     = false.
Proof.
  split.
  - split; by_evaluation.
  - exact (proj1 (proj2 (proj2 (proj2 (proj2
             (close_from_rest sampleIdle ltac:(by_evaluation) ltac:(by_evaluation))))))).
Defined.

(** [setSubscriptions] with a changed selection, on an idle player that is
    not playing. *)
Lemma setSubscriptions_idle_eq (subs : list SubscribePayload.t) (p : Player) (cur : Time) :
  isEqual (allTopicsOf subs) (ref_val (allTopics p))
  && isEqual (preloadTopicsOf subs) (ref_val (preloadTopics p)) = false ->
  state p = Idle -> isPlaying p = false -> currentTime p = Some cur ->
  setSubscriptions subs p
  = (Ret tt,
     setState SeekBackfill
       (set_lastRangeMillis None
          (set_lastTickMillis None
             (set_untilTime None
                (set_seekTarget (Some (default cur (seekTarget p)))
                   ((if blockLoader p
                     then addEffect (BlockLoaderSetTopics (preloadTopicsOf subs))
                     else id)
                      (set_preloadTopics (mkRef (S (heapNext p)) (preloadTopicsOf subs))
                         (set_allTopics (mkRef (heapNext p) (allTopicsOf subs))
                            (set_heapNext (S (S (heapNext p)))
                               (addEffect (MetricsSetSubscriptions subs)
                                  (set_subscriptions subs p))))))))))).
Proof.
  intros Hne Hst Hp Hc. unfold setSubscriptions. run_method. rewrite Hne. cbn.
  rewrite Hst, (bool_decide_eq_true_2 (Idle = Idle)) by done. cbn. rewrite Hp, Hc. cbn.
  destruct (blockLoader p); cbn; rewrite ?Hc; by destruct (seekTarget p).
Qed.

(** X24. Subscribing while idle.  A [setSubscriptions] that changes the
    selection, on an idle player that is not playing, has the player
    backfill in place: the seek-backfill state runs with the current time
    as its target, asks the source for the backfill of the new selection at
    that time and for a new iterator of the new selection from the next
    nanosecond, and hands back to the idle state; the time is unchanged and
    the batch is the backfill. *)
Theorem resubscribe_while_idle_backfills_in_place (subs : list SubscribePayload.t)
    (p : Player) (s e cur : Time) (msgs : list MessageEvent.t)
    (results : list IteratorResult) :
  isEqual (allTopicsOf subs) (ref_val (allTopics p))
  && isEqual (preloadTopicsOf subs) (ref_val (preloadTopics p)) = false ->
  state p = Idle -> runningState p = true -> nextState p = None ->
  isPlaying p = false -> seekTarget p = None ->
  start p = Some s -> end_ p = Some e -> currentTime p = Some cur ->
  Time.le s cur -> Time.le cur e -> Time.valid cur ->
  let subscribed := snd (setSubscriptions subs p) in
  let entered := handlerReturns subscribed in
  let filled := snd (stateSeekBackfill (Ret msgs) results entered) in
  let settled := handlerReturns filled in
  exists next,
    Time.add cur (Time.mk 0 1) = Ret next
    /\ fst (setSubscriptions subs p) = Ret tt
    /\ nextState subscribed = Some SeekBackfill
    /\ seekTarget subscribed = Some cur
    /\ fst (stateSeekBackfill (Ret msgs) results entered) = Ret tt
    /\ state settled = Idle
    /\ isPlaying settled = false
    /\ currentTime settled = Some cur
    /\ messages settled = msgs
    /\ playbackIterator settled = Some results
    /\ seekTarget settled = None
    /\ handlersRun settled = handlersRun p ++ [SeekBackfill; Idle]
    /\ exists before between,
         effects filled
         = before
           ++ [SourceGetBackfillMessages (allTopicsOf subs) cur]
           ++ between
           ++ [SourceMessageIterator (allTopicsOf subs) next; AbortSignalled].
Proof.
  intros Hne Hst Hrun Hn Hp Hseek Hs He Hc Hlo Hhi Hv. cbv zeta.
  destruct (add_nanosecond_next cur Hv) as (next & Hadd & _).
  exists next. split; [done|].
  assert (Time.clampTime cur s e = cur) as Hclamp.
  { destruct (TimeFacts.clampTime_cases cur s e) as [[H _]|[(_ & H & _)|(_ & _ & H)]];
      [| |done]; by apply TimeFacts.not_le_lt in H. }
  rewrite (setSubscriptions_idle_eq subs p cur Hne Hst Hp Hc). cbn [fst snd].
  rewrite Hseek. cbn [default].
  set (q := set_lastRangeMillis None _).
  assert (runningState q = true) as Hq1 by (subst q; by destruct (blockLoader p)).
  assert (nextState q <> Some Close) as Hq2
    by (subst q; destruct (blockLoader p); cbn; congruence).
  assert (handlersRun q = handlersRun p) as Hq3.
  { unfold handlersRun. subst q. destruct (blockLoader p); cbn;
      rewrite ?handlersOf_app; cbn; by rewrite ?app_nil_r. }
  assert (start q = Some s /\ end_ q = Some e /\ seekTarget q = Some cur
          /\ isPlaying q = false
          /\ ref_val (allTopics q) = allTopicsOf subs) as (Q1&Q2&Q3&Q4&Q5)
    by (subst q; by destruct (blockLoader p)).
  clearbody q.
  pose proof (setState_data SeekBackfill q) as Hd1.
  destruct (setState_running_fields SeekBackfill q Hq1 Hq2) as (A1 & _ & A3 & _ & _ & A6).
  remember (setState SeekBackfill q) as subscribed eqn:E. clear E.
  pose proof (handlerReturns_data subscribed) as Hd2.
  destruct (handlerReturns_pending SeekBackfill subscribed A3 A1)
    as (B1 & B2 & B3 & _ & B5 & _).
  assert (seekTarget subscribed = Some cur) as S1
    by (by rewrite (data_field seekTarget (fun _ => eq_refl) _ _ Hd1)).
  remember (handlerReturns subscribed) as entered eqn:E. clear E.
  assert (dataOf entered = dataOf q) as Hd by congruence.
  assert (start entered = Some s) as Es
    by (by rewrite (data_field start (fun _ => eq_refl) _ _ Hd)).
  assert (end_ entered = Some e) as Ee
    by (by rewrite (data_field end_ (fun _ => eq_refl) _ _ Hd)).
  assert (seekTarget entered = Some cur) as Et
    by (by rewrite (data_field seekTarget (fun _ => eq_refl) _ _ Hd)).
  assert (isPlaying entered = false) as Ep
    by (by rewrite (data_field isPlaying (fun _ => eq_refl) _ _ Hd)).
  assert (ref_val (allTopics entered) = allTopicsOf subs) as Ea
    by (by rewrite (data_field allTopics (fun _ => eq_refl) _ _ Hd)).
  assert (Time.add (Time.clampTime cur s e) (Time.mk 0 1) = Ret next) as Hadd'
    by (by rewrite Hclamp).
  destruct (stateSeekBackfill_ok entered s e cur next msgs results B3 B2 Es Ee Et Hadd')
    as (C1&C2&C3&C4&_&_&C7&C8&C9&_&C11&_&_&_&_&_&_&C18&C19).
  rewrite Hclamp, Ep, Ea in *.
  remember (snd (stateSeekBackfill (Ret msgs) results entered)) as filled eqn:E. clear E.
  pose proof (handlerReturns_data filled) as Hd4.
  destruct (handlerReturns_pending Idle filled C9 C8) as (D1 & _ & _ & _ & D5 & D6).
  rewrite (data_field currentTime (fun _ => eq_refl) _ _ Hd4),
    (data_field messages (fun _ => eq_refl) _ _ Hd4),
    (data_field seekTarget (fun _ => eq_refl) _ _ Hd4),
    (data_field isPlaying (fun _ => eq_refl) _ _ Hd4).
  rewrite D1, D5, D6, C18, B5, A6, Hq3, C7, <- app_assoc. cbn.
  split_and!; try reflexivity; try assumption.
  rewrite C19.
  exists (effects entered),
    (QueueEmitState
       :: (if isSome (playbackIterator entered) then [IteratorReturn] else [])
       ++ [SourceStopProducer]).
  destruct (isSome (playbackIterator entered)); reflexivity.
Qed.

Lemma resubscribe_while_idle_backfills_in_place_witness :
  (isEqual (allTopicsOf subscribeAB) (ref_val (allTopics sampleIdle))
   && isEqual (preloadTopicsOf subscribeAB) (ref_val (preloadTopics sampleIdle)) = false
   /\ state sampleIdle = Idle /\ runningState sampleIdle = true
   /\ nextState sampleIdle = None /\ isPlaying sampleIdle = false
   /\ seekTarget sampleIdle = None
   /\ start sampleIdle = Some (millis 0) /\ end_ sampleIdle = Some (millis 1000)
   /\ currentTime sampleIdle = Some (millis 99)
   /\ Time.le (millis 0) (millis 99) /\ Time.le (millis 99) (millis 1000)
   /\ Time.valid (millis 99))
  /\ exists next,
       Time.add (millis 99) (Time.mk 0 1) = Ret next
       /\ seekTarget (snd (setSubscriptions subscribeAB sampleIdle)) = Some (millis 99).
Proof.
  assert (Time.valid (millis 99)) as Hv by (unfold Time.valid; split_and!; by_evaluation).
  split.
  - split_and!; try by_evaluation; assumption.
  - destruct (resubscribe_while_idle_backfills_in_place subscribeAB sampleIdle
                (millis 0) (millis 1000) (millis 99) [] stampedResultsAB
                ltac:(by_evaluation) ltac:(by_evaluation) ltac:(by_evaluation)
                ltac:(by_evaluation) ltac:(by_evaluation) ltac:(by_evaluation)
                ltac:(by_evaluation) ltac:(by_evaluation) ltac:(by_evaluation)
                ltac:(by_evaluation) ltac:(by_evaluation) Hv)
      as (next & H1 & _ & _ & H4 & _).
    exists next. split; assumption.
Defined.

(** [playUntil(t)] on an idle player at rest, with [t] after the current
    time. *)
Lemma playUntil_idle_eq (p : Player) (t s e cur : Time) :
  state p = Idle -> nextState p = None ->
  isPlaying p = false -> untilTime p = None ->
  start p = Some s -> end_ p = Some e -> currentTime p = Some cur -> Time.lt cur t ->
  playUntil t p
  = (Ret tt,
     setState Play
       (set_isPlaying true
          (addEffect (MetricsPlay (speed p))
             (set_untilTime (Some (Time.clampTime t s e)) p)))).
Proof.
  intros Hst Hn Hp Hu Hs He Hc Hlt.
  unfold playUntil, startPlayImpl. run_method. rewrite Hp, Hu, Hs, He, Hc. cbn.
  apply TimeFacts.compare_antisym in Hlt.
  destruct (Z.leb_spec (Time.compare t cur) 0) as [H|_]; [lia|]. cbn.
  rewrite Hst, Hn. by rewrite (bool_decide_eq_true_2 (Idle = Idle)).
Qed.

(** X25. [playUntil] at the end of the data.  On an idle player whose time
    has reached the end, [playUntil(t)] with a later [t] sets [untilTime]
    (to the end) and enters the play state, which makes no tick and hands
    back to the idle state; nothing clears [untilTime] on the way, so the
    player rests idle with [untilTime] still set, and then [startPlayback]
    and [pausePlayback] both return without doing anything. *)
Theorem playUntil_at_end_blocks_start (ticks : list Q) (tickTime : Q) (p : Player)
    (t s e cur : Time) :
  state p = Idle -> runningState p = true -> nextState p = None ->
  isPlaying p = false -> hasError p = false -> untilTime p = None ->
  start p = Some s -> end_ p = Some e -> currentTime p = Some cur ->
  Time.le e cur -> Time.lt cur t ->
  let requested := snd (playUntil t p) in
  let played := snd (statePlay (tickTime :: ticks) (handlerReturns requested)) in
  let rested := snd (stateIdle (handlerReturns played)) in
  fst (playUntil t p) = Ret tt
  /\ fst (statePlay (tickTime :: ticks) (handlerReturns requested)) = Ret tt
  /\ fst (stateIdle (handlerReturns played)) = Ret tt
  /\ state rested = Idle /\ nextState rested = None
  /\ isPlaying rested = false
  /\ currentTime rested = Some cur
  /\ untilTime rested = Some (Time.clampTime t s e)
  /\ handlersRun rested = handlersRun p ++ [Play; Idle]
  /\ startPlayback rested = (Ret tt, rested)
  /\ pausePlayback rested = (Ret tt, rested).
Proof.
  intros Hst Hrun Hn Hp Herr Hu Hs He Hc Hle Hlt. cbv zeta.
  rewrite (playUntil_idle_eq p t s e cur) by done. cbn [fst snd].
  set (q := set_isPlaying true _).
  pose proof (setState_data Play q) as Hd1.
  destruct (setState_running_fields Play q) as (A1&_&A3&_&_&A6);
    [done|subst q; cbn; congruence|].
  remember (setState Play q) as requested eqn:E. clear E.
  pose proof (handlerReturns_data requested) as Hd2.
  destruct (handlerReturns_pending Play requested A3 A1) as (B1&B2&B3&_&B5&_).
  remember (handlerReturns requested) as entered eqn:E. clear E.
  assert (dataOf entered = dataOf q) as Hd by congruence.
  rewrite (statePlay_at_end ticks tickTime entered s e cur); try done.
  2: { by rewrite (data_field isPlaying (fun _ => eq_refl) _ _ Hd). }
  2: { by rewrite (data_field hasError (fun _ => eq_refl) _ _ Hd). }
  2: { by rewrite (data_field currentTime (fun _ => eq_refl) _ _ Hd). }
  2: { by rewrite (data_field start (fun _ => eq_refl) _ _ Hd). }
  2: { by rewrite (data_field end_ (fun _ => eq_refl) _ _ Hd). }
  cbn [fst snd].
  set (r := set_lastStamp None _).
  assert (dataOf r
          = dataOf (set_lastStamp None
                      (set_lastRangeMillis None
                         (set_lastTickMillis None (set_presence PRESENT q))))) as Hr.
  { subst r.
    change (set_lastStamp None
              (set_lastRangeMillis None
                 (set_lastTickMillis None (set_presence PRESENT (dataOf entered))))
            = set_lastStamp None
                (set_lastRangeMillis None
                   (set_lastTickMillis None (set_presence PRESENT (dataOf q))))).
    by rewrite Hd. }
  assert (runningState r = true) as Hr1 by done.
  assert (nextState r <> Some Close) as Hr2 by (subst r; cbn; congruence).
  assert (handlersRun r = handlersRun p ++ [Play]) as Hr3.
  { unfold handlersRun in *. subst r. cbn. rewrite B5, A6. subst q. cbn.
    rewrite handlersOf_app. cbn. by rewrite app_nil_r. }
  clearbody r.
  pose proof (setState_data Idle r) as Hd3.
  destruct (setState_running_fields Idle r Hr1 Hr2) as (C1&_&C3&C4&_&C6).
  remember (setState Idle r) as played eqn:E. clear E.
  pose proof (handlerReturns_data played) as Hd4.
  destruct (handlerReturns_pending Idle played C3 C1) as (D1&D2&_&D4&D5&_).
  rewrite stateIdle_rests by congruence. cbn [fst snd].
  remember (handlerReturns played) as idle eqn:E. clear E.
  assert (dataOf idle
          = dataOf (set_lastStamp None
                      (set_lastRangeMillis None
                         (set_lastTickMillis None (set_presence PRESENT q))))) as Hd5
    by congruence.
  assert (currentTime idle = Some cur) as I1
    by (by rewrite (data_field currentTime (fun _ => eq_refl) _ _ Hd5)).
  assert (untilTime idle = Some (Time.clampTime t s e)) as I2
    by (by rewrite (data_field untilTime (fun _ => eq_refl) _ _ Hd5)).
  set (rested := addEffect QueueEmitState _).
  assert (isPlaying rested = false) as R1 by done.
  assert (untilTime rested = Some (Time.clampTime t s e)) as R2 by done.
  assert (handlersRun rested = handlersRun p ++ [Play; Idle]) as R3.
  { unfold handlersRun in *. subst rested. cbn. rewrite handlersOf_app. cbn.
    by rewrite app_nil_r, D5, C6, Hr3, <- app_assoc. }
  assert (state rested = Idle /\ nextState rested = None
          /\ currentTime rested = Some cur) as (R4 & R5 & R6) by done.
  clearbody rested.
  split; [done|]. split; [done|]. split; [done|]. split; [done|]. split; [done|].
  split; [done|]. split; [done|]. split; [done|]. split; [done|]. split.
  - unfold startPlayback, startPlayImpl. run_method. by rewrite R1, R2.
  - unfold pausePlayback. run_method. by rewrite R1.
Qed.

Lemma playUntil_at_end_blocks_start_witness :
  let p := set_currentTime (Some (millis 1000)) sampleIdle in
  (state p = Idle /\ runningState p = true /\ nextState p = None
   /\ isPlaying p = false /\ hasError p = false /\ untilTime p = None
   /\ start p = Some (millis 0) /\ end_ p = Some (millis 1000)
   /\ currentTime p = Some (millis 1000)
   /\ Time.le (millis 1000) (millis 1000) /\ Time.lt (millis 1000) (millis 1100))
  /\ untilTime
       (snd (stateIdle (handlerReturns
          (snd (statePlay [16%Q] (handlerReturns (snd (playUntil (millis 1100) p))))))))
     = Some (Time.clampTime (millis 1100) (millis 0) (millis 1000)).
Proof.
  intros p. split.
  - split_and!; by_evaluation.
  - exact (proj1 (proj2 (proj2 (proj2 (proj2 (proj2 (proj2 (proj2
             (playUntil_at_end_blocks_start [] 16%Q p (millis 1100) (millis 0)
                (millis 1000) (millis 1000)
                ltac:(by_evaluation) ltac:(by_evaluation) ltac:(by_evaluation)
                ltac:(by_evaluation) ltac:(by_evaluation) ltac:(by_evaluation)
                ltac:(by_evaluation) ltac:(by_evaluation) ltac:(by_evaluation)
                ltac:(by_evaluation) ltac:(by_evaluation)))))))))).
Defined.
(** ** The playback controls on the player *)

Arguments togglePlayPause : simpl never.
Arguments startPlayback : simpl never.
Arguments seekPlayback : simpl never.
Arguments handlerReturns : simpl never.
Arguments stateSeekBackfill : simpl never.

(** [startPlayback()] while another state than idle is pending: the flag is
    set and an emit queued, and the pending state is left to run. *)
Lemma startPlayback_pending (q : Player) (s e : Time) (st : IterablePlayerState) :
  isPlaying q = false -> untilTime q = None -> start q = Some s -> end_ q = Some e ->
  nextState q = Some st -> st <> Idle ->
  startPlayback q
  = (Ret tt,
     addEffect QueueEmitState (set_isPlaying true (addEffect (MetricsPlay (speed q)) q))).
Proof.
  intros Hp Hu Hs He Hn Hst.
  unfold startPlayback, startPlayImpl. run_method. rewrite Hp, Hu, Hs, He. cbn.
  rewrite Hn. cbn.
  rewrite (bool_decide_eq_false_2 (Some st = Some Idle)) by congruence.
  by rewrite andb_false_r.
Qed.

(** X26. Play pressed at the end of the data.  With the player idle at (or
    past) the end and the controls showing it paused, [togglePlayPause]
    seeks to the start and then starts playback; the seek-backfill state
    that the loop runs next puts the time at the start, with the backfill as
    the batch and a new iterator, and hands over to the play state: the
    player plays again from the start. *)
Theorem togglePlayPause_replays_from_start (p : Player) (s e cur : Time)
    (msgs : list MessageEvent.t) (results : list IteratorResult) :
  state p = Idle -> runningState p = true -> nextState p = None ->
  isPlaying p = false -> untilTime p = None -> seekTarget p = None ->
  start p = Some s -> end_ p = Some e -> currentTime p = Some cur ->
  Time.valid s -> Time.lt s e -> Time.le e cur ->
  let toggled :=
    snd (togglePlayPause false startPlayback pausePlayback seekPlayback
           (TimeInfo.mk (Some s) (Some e) (Some cur)) p) in
  let entered := handlerReturns toggled in
  let filled := snd (stateSeekBackfill (Ret msgs) results entered) in
  let playing := handlerReturns filled in
  fst (togglePlayPause false startPlayback pausePlayback seekPlayback
         (TimeInfo.mk (Some s) (Some e) (Some cur)) p) = Ret tt
  /\ isPlaying toggled = true
  /\ seekTarget toggled = Some s
  /\ nextState toggled = Some SeekBackfill
  /\ fst (stateSeekBackfill (Ret msgs) results entered) = Ret tt
  /\ state playing = Play
  /\ isPlaying playing = true
  /\ currentTime playing = Some s
  /\ messages playing = msgs
  /\ playbackIterator playing = Some results
  /\ seekTarget playing = None
  /\ handlersRun playing = handlersRun p ++ [SeekBackfill; Play].
Proof.
  intros Hst Hrun Hn Hp Hu Hseek Hs He Hc Hv Hlt Hle. cbv zeta.
  assert (Time.clampTime s s e = s) as Hclamp.
  { destruct (TimeFacts.clampTime_cases s s e) as [[H _]|[(_ & H & _)|(_ & _ & H)]];
      [| |done].
    - exfalso. apply TimeFacts.not_le_lt in H. apply H, TimeFacts.le_refl.
    - exfalso. apply TimeFacts.not_le_lt in H. by apply H, TimeFacts.lt_le. }
  assert (Time.compare cur s <> 0%Z) as Hne.
  { intros H. apply TimeFacts.compare_eq in H. subst cur.
    apply (proj2 (TimeFacts.not_le_lt e s)); done. }
  destruct (add_nanosecond_next s Hv) as (next & Hadd & _).
  unfold togglePlayPause. run_method.
  apply TimeFacts.le_ge in Hle. apply Z.geb_le in Hle. rewrite Hle.
  rewrite (seekPlayback_seeks p s s e); try (rewrite ?Hst; done).
  2: { intros c Hc'. rewrite Hclamp. congruence. }
  2: { intros c Hc'. congruence. }
  rewrite Hclamp. cbv beta iota.
  set (q := set_lastRangeMillis None _).
  assert (runningState q = true) as Hq1 by done.
  assert (nextState q <> Some Close) as Hq2 by (subst q; cbn; congruence).
  pose proof (setState_data SeekBackfill q) as Hd1.
  destruct (setState_running_fields SeekBackfill q Hq1 Hq2) as (A1 & A2 & A3 & _ & _ & A6).
  remember (setState SeekBackfill q) as requested eqn:E. clear E.
  rewrite (startPlayback_pending requested s e SeekBackfill); try done.
  2: { by rewrite (data_field isPlaying (fun _ => eq_refl) _ _ Hd1). }
  2: { by rewrite (data_field untilTime (fun _ => eq_refl) _ _ Hd1). }
  2: { by rewrite (data_field start (fun _ => eq_refl) _ _ Hd1). }
  2: { by rewrite (data_field end_ (fun _ => eq_refl) _ _ Hd1). }
  cbv beta iota. cbn [fst snd].
  set (toggled := addEffect QueueEmitState _).
  assert (dataOf toggled = dataOf (set_isPlaying true q)) as Hd2.
  { subst toggled. transitivity (set_isPlaying true (dataOf requested)); [done|].
    by rewrite Hd1. }
  assert (runningState toggled = true) as T1 by done.
  assert (nextState toggled = Some SeekBackfill) as T2 by done.
  assert (handlersRun toggled = handlersRun p) as T3.
  { unfold handlersRun in *. subst toggled. cbn. rewrite !handlersOf_app. cbn.
    rewrite !app_nil_r, A6. subst q. cbn. rewrite handlersOf_app. cbn.
    by rewrite app_nil_r. }
  clearbody toggled.
  pose proof (handlerReturns_data toggled) as Hd3.
  destruct (handlerReturns_pending SeekBackfill toggled T1 T2) as (B1&B2&B3&_&B5&_).
  remember (handlerReturns toggled) as entered eqn:E. clear E.
  assert (dataOf entered = dataOf (set_isPlaying true q)) as Hd by congruence.
  assert (start entered = Some s) as Es
    by (by rewrite (data_field start (fun _ => eq_refl) _ _ Hd)).
  assert (end_ entered = Some e) as Ee
    by (by rewrite (data_field end_ (fun _ => eq_refl) _ _ Hd)).
  assert (seekTarget entered = Some s) as Et
    by (by rewrite (data_field seekTarget (fun _ => eq_refl) _ _ Hd)).
  assert (isPlaying entered = true) as Ep
    by (by rewrite (data_field isPlaying (fun _ => eq_refl) _ _ Hd)).
  assert (Time.add (Time.clampTime s s e) (Time.mk 0 1) = Ret next) as Hadd'
    by (by rewrite Hclamp).
  destruct (stateSeekBackfill_ok entered s e s next msgs results B3 B2 Es Ee Et Hadd')
    as (C1&C2&C3&C4&_&_&C7&C8&C9&_&C11&_&_&_&_&_&_&C18&_).
  rewrite Hclamp, Ep in *.
  remember (snd (stateSeekBackfill (Ret msgs) results entered)) as filled eqn:E. clear E.
  pose proof (handlerReturns_data filled) as Hd4.
  destruct (handlerReturns_pending Play filled C9 C8) as (D1 & _ & _ & _ & D5 & D6).
  rewrite (data_field currentTime (fun _ => eq_refl) _ _ Hd4),
    (data_field messages (fun _ => eq_refl) _ _ Hd4),
    (data_field seekTarget (fun _ => eq_refl) _ _ Hd4),
    (data_field isPlaying (fun _ => eq_refl) _ _ Hd4).
  rewrite (data_field isPlaying (fun _ => eq_refl) _ _ Hd2),
    (data_field seekTarget (fun _ => eq_refl) _ _ Hd2).
  rewrite D1, D5, D6, C18, B5, T3, C7, <- app_assoc. cbn.
  split_and!; try reflexivity; assumption.
Qed.

Lemma togglePlayPause_replays_from_start_witness :
  let p := set_currentTime (Some (millis 1000)) sampleIdle in
  (state p = Idle /\ runningState p = true /\ nextState p = None
   /\ isPlaying p = false /\ untilTime p = None /\ seekTarget p = None
   /\ start p = Some (millis 0) /\ end_ p = Some (millis 1000)
   /\ currentTime p = Some (millis 1000)
   /\ Time.valid (millis 0) /\ Time.lt (millis 0) (millis 1000)
   /\ Time.le (millis 1000) (millis 1000))
  /\ currentTime
       (handlerReturns
          (snd (stateSeekBackfill (Ret []) sampleResults
                  (handlerReturns
                     (snd (togglePlayPause false startPlayback pausePlayback seekPlayback
                             (TimeInfo.mk (Some (millis 0)) (Some (millis 1000))
                                (Some (millis 1000))) p))))))
     = Some (millis 0).
Proof.
  intros p.
  assert (Time.valid (millis 0)) as Hv by (unfold Time.valid; split_and!; by_evaluation).
  split.
  - split_and!; try by_evaluation; assumption.
  - exact (proj1 (proj2 (proj2 (proj2 (proj2 (proj2 (proj2 (proj2
             (togglePlayPause_replays_from_start p (millis 0) (millis 1000) (millis 1000)
                [] sampleResults
                ltac:(by_evaluation) ltac:(by_evaluation) ltac:(by_evaluation)
                ltac:(by_evaluation) ltac:(by_evaluation) ltac:(by_evaluation)
                ltac:(by_evaluation) ltac:(by_evaluation) ltac:(by_evaluation)
                Hv ltac:(by_evaluation) ltac:(by_evaluation)))))))))).
Defined.
